(** * Future Viability Index: scoring and aggregation engine

    A shallow embedding of the Python sources

    - [frontend/fvi_aggregator.py]   (class [FVI_Aggregator]),
    - [frontend/scores/utils.py]     (country names, normalisation),
    - [frontend/scores/resource.py]  (metric extraction, resource score),
    - [frontend/scores/infrastructure.py] (per-dataset and aggregate scores),

    together with the properties of the specification that concern them.

    Conventions of the embedding.

    - Python [float]s (binary64) are kept abstract behind the interface
      [Num].  Two instances are given: [xq], exact rational arithmetic
      extended with the IEEE special values (NaN, which pandas uses for a
      missing entry, and the two infinities that a division by zero
      produces), on which the general theorems are proved; and [b64], the
      kernel's binary64 numbers, on which the code can be replayed bit for
      bit.  Rounding, overflow and signed zeros exist only in [b64]: a
      theorem proved on [xq] speaks of exact arithmetic, and where the
      program divides or adds its binary64 value can differ from the
      exact one in the last place, as the examples in [b64] show.
    - Python strings are modelled as byte strings; [lower], [upper] and
      [strip] act on the ASCII range, where they agree with Python.
      Outside ASCII Python's [str] methods also fold the case of letters
      and strip white space such as the no-break space; the model leaves
      such bytes as they are, and no statement below depends on them.
    - A Python [dict] is an association list with pairwise distinct keys in
      insertion order.
    - Objects that the code shares and mutates (data frames) live in a
      heap and are passed by reference.
    - A call returns an [outcome]: a value or a raised exception. *)

From Stdlib Require Import List String Ascii Bool Arith ZArith QArith Lia Lqa.
From Stdlib Require Import Floats Uint63 Permutation Sorted.
Import ListNotations.

Set Implicit Arguments.

(* ================================================================== *)
(** * Python values: strings, dictionaries, exceptions                  *)
(* ================================================================== *)

Module Py.

Local Open Scope nat_scope.

Definition is_upper (c : ascii) : bool :=
  let n := nat_of_ascii c in (65 <=? n) && (n <=? 90).

Definition is_lower (c : ascii) : bool :=
  let n := nat_of_ascii c in (97 <=? n) && (n <=? 122).

(** [str.isspace] on the ASCII range: tab, line feed, vertical tab, form
    feed, carriage return, the four separators 28..31 and the blank. *)
Definition is_space (c : ascii) : bool :=
  let n := nat_of_ascii c in
  ((9 <=? n) && (n <=? 13)) || ((28 <=? n) && (n <=? 32)).

Definition lower_char (c : ascii) : ascii :=
  if is_upper c then ascii_of_nat (nat_of_ascii c + 32) else c.

Definition upper_char (c : ascii) : ascii :=
  if is_lower c then ascii_of_nat (nat_of_ascii c - 32) else c.

Fixpoint map_str (f : ascii -> ascii) (s : string) : string :=
  match s with
  | EmptyString => EmptyString
  | String c r => String (f c) (map_str f r)
  end.

(** [s.lower()] and [s.upper()]. *)
Definition lower : string -> string := map_str lower_char.
Definition upper : string -> string := map_str upper_char.

(** [s.replace(a, b)] for one-character [a] and [b]. *)
Definition replace (a b : ascii) : string -> string :=
  map_str (fun c => if Ascii.eqb c a then b else c).

(** [s.replace(a, '')]: every occurrence of [a] removed. *)
Fixpoint remove_char (a : ascii) (s : string) : string :=
  match s with
  | EmptyString => EmptyString
  | String c r => if Ascii.eqb c a then remove_char a r else String c (remove_char a r)
  end.

Fixpoint lstrip (s : string) : string :=
  match s with
  | String c r => if is_space c then lstrip r else s
  | EmptyString => EmptyString
  end.

(** Drops the trailing white space: a character is kept when something
    that is kept follows it or when it is not white space itself. *)
Fixpoint rstrip (s : string) : string :=
  match s with
  | EmptyString => EmptyString
  | String c r =>
      match rstrip r with
      | EmptyString => if is_space c then EmptyString else String c EmptyString
      | r' => String c r'
      end
  end.

(** [s.strip()]. *)
Definition strip (s : string) : string := rstrip (lstrip s).

(** [sub in s] for strings. *)
Fixpoint contains (sub s : string) : bool :=
  String.prefix sub s ||
  match s with
  | EmptyString => false
  | String _ r => contains sub r
  end.

(** [x in xs] for a list of strings. *)
Definition mem (x : string) (xs : list string) : bool :=
  existsb (String.eqb x) xs.

(** Dictionaries. *)
Definition dict (V : Type) : Type := list (string * V).

Fixpoint get {V} (d : dict V) (k : string) : option V :=
  match d with
  | [] => None
  | (k', v) :: r => if String.eqb k k' then Some v else get r k
  end.

Definition keys {V} (d : dict V) : list string := map fst d.

Definition has_key {V} (d : dict V) (k : string) : bool := mem k (keys d).

(** [d[k] = v]: overwrite in place, or append a new key. *)
Fixpoint set {V} (d : dict V) (k : string) (v : V) : dict V :=
  match d with
  | [] => [(k, v)]
  | (k', v') :: r =>
      if String.eqb k k' then (k', v) :: r else (k', v') :: set r k v
  end.

Inductive exn : Type := ValueError | KeyError | TypeError.

Inductive outcome (A : Type) : Type :=
| Ok (a : A)
| Raise (e : exn).
Arguments Ok {A} a.
Arguments Raise {A} e.

Definition bind {A B} (m : outcome A) (k : A -> outcome B) : outcome B :=
  match m with
  | Ok a => k a
  | Raise e => Raise e
  end.

(** Records of the [logging] module: level and message. *)
Inductive level : Type := INFO | WARNING | ERROR.
Definition log_record : Type := (level * string)%type.

Definition level_eqb (a b : level) : bool :=
  match a, b with
  | INFO, INFO | WARNING, WARNING | ERROR, ERROR => true
  | _, _ => false
  end.

Definition logged (lv : level) (log : list log_record) : bool :=
  existsb (fun r => level_eqb (fst r) lv) log.

Lemma get_has_key {V} (d : dict V) (k : string) :
  has_key d k = true <-> exists v, get d k = Some v.
Proof.
  unfold has_key, keys, mem. induction d as [|[k' v'] r IH]; simpl.
  - split; [discriminate | intros [v H]; discriminate].
  - destruct (String.eqb k k') eqn:E; simpl.
    + split; [intros _; eauto | reflexivity].
    + exact IH.
Qed.

Lemma mem_In (x : string) (xs : list string) : mem x xs = true <-> In x xs.
Proof.
  unfold mem. rewrite existsb_exists. split.
  - intros [y [Hy E]]. apply String.eqb_eq in E. now subst.
  - intros H. exists x. split; [assumption | apply String.eqb_refl].
Qed.

End Py.

Import Py.

(* ================================================================== *)
(** * Numbers                                                           *)
(* ================================================================== *)

(** The arithmetic the sources rely on.  [of_Q] reads a decimal literal;
    the comparisons answer [false] as soon as an operand is NaN. *)
Class Num : Type := {
  F : Type;
  of_Q : Q -> F;
  nan : F;
  fadd : F -> F -> F;
  fsub : F -> F -> F;
  fmul : F -> F -> F;
  fdiv : F -> F -> F;
  fltb : F -> F -> bool;
  fleb : F -> F -> bool;
  feqb : F -> F -> bool;
  is_nan : F -> bool
}.

(** ** Exact arithmetic with the IEEE special values *)

Inductive xq : Type :=
| Fin (q : Q)
| PInf
| NInf
| NaN.

Definition Qlt_bool (a b : Q) : bool := negb (Qle_bool b a).

Module XQ.

Definition sign_inf (positive : bool) : xq := if positive then PInf else NInf.

Definition add (x y : xq) : xq :=
  match x, y with
  | NaN, _ | _, NaN => NaN
  | Fin a, Fin b => Fin (a + b)
  | PInf, NInf | NInf, PInf => NaN
  | PInf, _ | _, PInf => PInf
  | NInf, _ | _, NInf => NInf
  end.

Definition opp (x : xq) : xq :=
  match x with
  | Fin a => Fin (- a)
  | PInf => NInf
  | NInf => PInf
  | NaN => NaN
  end.

Definition sub (x y : xq) : xq := add x (opp y).

(** An infinity times a finite number keeps or flips its sign; times zero
    it is NaN. *)
Definition scale_inf (positive : bool) (a : Q) : xq :=
  if Qeq_bool a 0 then NaN
  else sign_inf (Bool.eqb positive (Qlt_bool 0 a)).

Definition mul (x y : xq) : xq :=
  match x, y with
  | NaN, _ | _, NaN => NaN
  | Fin a, Fin b => Fin (a * b)
  | PInf, Fin a | Fin a, PInf => scale_inf true a
  | NInf, Fin a | Fin a, NInf => scale_inf false a
  | PInf, PInf | NInf, NInf => PInf
  | PInf, NInf | NInf, PInf => NInf
  end.

(** A finite number over zero is an infinity of its sign, zero over zero
    is NaN; the zero is unsigned. *)
Definition div (x y : xq) : xq :=
  match x, y with
  | NaN, _ | _, NaN => NaN
  | Fin a, Fin b =>
      if Qeq_bool b 0
      then (if Qeq_bool a 0 then NaN else sign_inf (Qlt_bool 0 a))
      else Fin (a / b)
  | Fin _, (PInf | NInf) => Fin 0
  | PInf, Fin b => sign_inf (Qle_bool 0 b)
  | NInf, Fin b => sign_inf (negb (Qle_bool 0 b))
  | (PInf | NInf), (PInf | NInf) => NaN
  end.

Definition ltb (x y : xq) : bool :=
  match x, y with
  | NaN, _ | _, NaN => false
  | Fin a, Fin b => Qlt_bool a b
  | NInf, (Fin _ | PInf) => true
  | Fin _, PInf => true
  | _, _ => false
  end.

Definition eqb (x y : xq) : bool :=
  match x, y with
  | Fin a, Fin b => Qeq_bool a b
  | PInf, PInf | NInf, NInf => true
  | _, _ => false
  end.

Definition leb (x y : xq) : bool := ltb x y || eqb x y.

Definition isnan (x : xq) : bool :=
  match x with NaN => true | _ => false end.

End XQ.

Definition xq_num : Num := {|
  F := xq;
  of_Q := Fin;
  nan := NaN;
  fadd := XQ.add;
  fsub := XQ.sub;
  fmul := XQ.mul;
  fdiv := XQ.div;
  fltb := XQ.ltb;
  fleb := XQ.leb;
  feqb := XQ.eqb;
  is_nan := XQ.isnan
|}.

(** Equality of results in [xq]: the same special value, or equal
    rationals. *)
Definition xq_eq (x y : xq) : Prop :=
  match x, y with
  | Fin a, Fin b => a == b
  | PInf, PInf | NInf, NInf | NaN, NaN => True
  | _, _ => False
  end.

Definition finite (x : xq) : bool :=
  match x with Fin _ => true | _ => false end.

Definition finite_or_nan (x : xq) : bool :=
  match x with Fin _ | NaN => true | _ => false end.

(** ** Binary64 *)

Module B64.

Definition of_Z (z : Z) : float :=
  match z with
  | Z0 => PrimFloat.of_uint63 0
  | Zpos _ => PrimFloat.of_uint63 (Uint63.of_Z z)
  | Zneg p => PrimFloat.opp (PrimFloat.of_uint63 (Uint63.of_Z (Zpos p)))
  end.

(** A decimal literal [n/d] with [n] and [d] below 2^53 is the correctly
    rounded quotient of two exact integers. *)
Definition of_Q (q : Q) : float :=
  PrimFloat.div (of_Z (Qnum q)) (of_Z (Zpos (Qden q))).

End B64.


Canonical Structure xq_num.

(* ================================================================== *)
(** * The numpy and pandas operations the sources call                  *)
(* ================================================================== *)

Section Pandas.

Context {N : Num}.

Definition f0 : F := of_Q 0.
Definition f1 : F := of_Q 1.
Definition f2 : F := of_Q 2.
Definition f50 : F := of_Q 50.
Definition f100 : F := of_Q 100.

(** [pd.isna] / [pd.notna] on a number. *)
Definition notna (x : F) : bool := negb (is_nan x).

(** Python's builtin [min(a, b)] and [max(a, b)]: the first argument
    unless the second is strictly better. *)
Definition py_min (a b : F) : F := if fltb b a then b else a.
Definition py_max (a b : F) : F := if fltb a b then b else a.

(** [np.maximum] and [np.minimum] propagate NaN. *)
Definition np_maximum (a b : F) : F :=
  if is_nan a then a else if is_nan b then b else if fltb a b then b else a.
Definition np_minimum (a b : F) : F :=
  if is_nan a then a else if is_nan b then b else if fltb b a then b else a.

(** [x.clip(lo, hi)] on one entry. *)
Definition clip (lo hi x : F) : F := np_minimum (np_maximum x lo) hi.

(** [s.dropna()] on the values. *)
Definition dropna (s : list F) : list F := filter notna s.

(** [s.sum()] with pandas' default [skipna=True]. *)
Definition nanadd (acc x : F) : F := if is_nan x then acc else fadd acc x.
Definition nansum (s : list F) : F := fold_left nanadd s f0.

(** [s.fillna(v)]. *)
Definition fillna (v : F) (s : list F) : list F :=
  map (fun x => if is_nan x then v else x) s.

(** Ascending sort of numbers that are not NaN. *)
Fixpoint insert_sorted (x : F) (l : list F) : list F :=
  match l with
  | [] => [x]
  | y :: r => if fleb x y then x :: l else y :: insert_sorted x r
  end.

Definition sort (l : list F) : list F := fold_right insert_sorted [] l.

(** [s.median()]: NaN entries are skipped; the middle value, or the mean
    of the two middle values; NaN when nothing is left. *)
Definition median (s : list F) : F :=
  let v := sort (dropna s) in
  let n := List.length v in
  if (n =? 0)%nat then nan
  else if Nat.odd n then nth (n / 2) v nan
  else fdiv (fadd (nth (n / 2 - 1) v nan) (nth (n / 2) v nan)) f2.

(** [s.min()] and [s.max()] of a non-empty series without NaN. *)
Definition series_min (s : list F) : F :=
  match s with
  | [] => nan
  | x :: r => fold_left (fun m y => if fltb y m then y else m) r x
  end.

Definition series_max (s : list F) : F :=
  match s with
  | [] => nan
  | x :: r => fold_left (fun m y => if fltb m y then y else m) r x
  end.

Fixpoint map2 {A B C} (f : A -> B -> C) (xs : list A) (ys : list B) : list C :=
  match xs, ys with
  | x :: xs', y :: ys' => f x y :: map2 f xs' ys'
  | _, _ => []
  end.

End Pandas.

(* ================================================================== *)
(** * frontend/fvi_aggregator.py                                        *)
(* ================================================================== *)

Module fvi_aggregator.

Section Aggregator.

Context {N : Num}.

(** A scores table: row labels (countries), column labels (dimensions)
    and the cells, one list per column.  pandas lets labels repeat. *)
Record DataFrame : Type := {
  index : list string;
  columns : list string;
  data : list (list F)
}.

(** A series of floats with its labels; [pd.Series(dtype=float)] is []. *)
Definition Series : Type := list (string * F).

Definition loc : Type := nat.

(** The attributes of an [FVI_Aggregator] that the methods read or write;
    [scores_df] is a reference into the heap. *)
Record FVI_Aggregator : Type := {
  weights : dict (dict F);
  current_persona : string;
  current_weights : dict F;
  scores_df : option loc
}.

(** The objects alive during a call: the data frames, and the aggregator
    the method is called on. *)
Record World : Type := {
  heap : list DataFrame;
  self : FVI_Aggregator
}.

Definition Result (A : Type) : Type := (outcome A * World * list log_record)%type.

Definition alloc (h : list DataFrame) (df : DataFrame) : loc * list DataFrame :=
  (List.length h, h ++ [df]).

Fixpoint store (h : list DataFrame) (l : loc) (df : DataFrame) : list DataFrame :=
  match h, l with
  | [], _ => []
  | _ :: r, O => df :: r
  | x :: r, S l' => x :: store r l' df
  end.

(** [_set_default_weights] *)
Definition default_weights : dict (dict F) :=
  [ ("investor",
      [ ("economic", of_Q 0.25); ("artificial_support", of_Q 0.20);
        ("emissions", of_Q 0.20); ("infrastructure", of_Q 0.15);
        ("resource", of_Q 0.10); ("ecological", of_Q 0.05);
        ("necessity", of_Q 0.05) ]);
    ("policy_maker",
      [ ("necessity", of_Q 0.20); ("economic", of_Q 0.20);
        ("emissions", of_Q 0.20); ("infrastructure", of_Q 0.15);
        ("ecological", of_Q 0.15); ("artificial_support", of_Q 0.05);
        ("resource", of_Q 0.05) ]);
    ("ngo",
      [ ("emissions", of_Q 0.25); ("ecological", of_Q 0.25);
        ("necessity", of_Q 0.20); ("infrastructure", of_Q 0.10);
        ("resource", of_Q 0.10); ("artificial_support", of_Q 0.05);
        ("economic", of_Q 0.05) ]);
    ("analyst",
      [ ("infrastructure", of_Q 0.143); ("necessity", of_Q 0.143);
        ("resource", of_Q 0.143); ("artificial_support", of_Q 0.143);
        ("ecological", of_Q 0.143); ("economic", of_Q 0.143);
        ("emissions", of_Q 0.143) ]);
    ("citizen",
      [ ("necessity", of_Q 0.25); ("ecological", of_Q 0.20);
        ("infrastructure", of_Q 0.20); ("economic", of_Q 0.15);
        ("emissions", of_Q 0.10); ("artificial_support", of_Q 0.05);
        ("resource", of_Q 0.05) ]) ]%string.

(** [_get_equal_weights] *)
Definition _get_equal_weights : dict F :=
  let dimensions :=
    [ "infrastructure"; "necessity"; "resource"; "artificial_support";
      "ecological"; "economic"; "emissions" ]%string in
  let equal_weight := fdiv f1 (of_Q (inject_Z (Z.of_nat (List.length dimensions)))) in
  map (fun dim => (dim, equal_weight)) dimensions.

(** [__init__]: [persona_weights] is the entry of that name in the
    configuration file, empty when the file or the entry is missing. *)
Definition __init__ (persona_weights : dict (dict F)) : FVI_Aggregator :=
  let weights0 :=
    match persona_weights with
    | [] => default_weights
    | _ => persona_weights
    end in
  let persona := "analyst"%string in
  {| weights := weights0;
     current_persona := persona;
     current_weights :=
       match get weights0 persona with
       | Some w => w
       | None => _get_equal_weights
       end;
     scores_df := None |}.

Definition with_self (w : World) (s : FVI_Aggregator) : World :=
  {| heap := heap w; self := s |}.

(** [set_persona]: the persona is assigned before the weights are looked
    up, so a failing lookup leaves the new persona name behind. *)
Definition set_persona (persona : string) (w : World) : Result unit :=
  let known := has_key (weights (self w)) persona in
  let log1 :=
    if known then []
    else [(WARNING, "Unknown persona '{persona}', using analyst"%string)] in
  let persona := if known then persona else "analyst"%string in
  let self1 :=
    {| weights := weights (self w);
       current_persona := persona;
       current_weights := current_weights (self w);
       scores_df := scores_df (self w) |} in
  match get (weights (self w)) persona with
  | None => (Raise KeyError, with_self w self1, log1)
  | Some cw =>
      let self2 :=
        {| weights := weights self1;
           current_persona := current_persona self1;
           current_weights := cw;
           scores_df := scores_df self1 |} in
      (Ok tt, with_self w self2,
       log1 ++ [(INFO, "Set persona to: {persona}"%string)])
  end.

(** [df.empty]: some axis has length zero. *)
Definition empty (df : DataFrame) : bool :=
  (List.length (index df) =? 0)%nat || (List.length (columns df) =? 0)%nat.

(** [col.lower().replace(' ', '_').replace('-', '_')] *)
Definition normalize_name (col : string) : string :=
  replace "-" "_" (replace " " "_" (lower col)).

(** [df.rename(columns=column_mapping, inplace=True)] where the mapping
    sends every column to its normalised name. *)
Definition rename_columns (df : DataFrame) : DataFrame :=
  {| index := index df;
     columns := map normalize_name (columns df);
     data := data df |}.

(** The first occurrence of each element, in order. *)
Fixpoint unique (l : list string) : list string :=
  match l with
  | [] => []
  | x :: r => x :: filter (fun y => negb (String.eqb x y)) (unique r)
  end.

(** [left.intersection(right)] on pandas indexes: the distinct labels of
    [left] that occur in [right], in the order of [left]. *)
Definition intersection (left right : list string) : list string :=
  unique (filter (fun c => mem c right) left).

(** [df[col]]: every column that carries the label. *)
Definition select (df : DataFrame) (col : string) : list (list F) :=
  map snd (filter (fun p => String.eqb (fst p) col) (combine (columns df) (data df))).

(** [df[col] = values] for a label that occurs once. *)
Definition assign (df : DataFrame) (col : string) (values : list F) : DataFrame :=
  {| index := index df;
     columns := columns df;
     data := map2 (fun c d => if String.eqb c col then values else d)
                  (columns df) (data df) |}.

(** The loop that fills missing values.  When a label occurs on several
    columns [df[col]] is a frame, its median a series, and the test
    [if pd.isna(median_val)] raises [ValueError]. *)
Fixpoint fill_missing (cols : list string) (df : DataFrame)
  : outcome unit * DataFrame :=
  match cols with
  | [] => (Ok tt, df)
  | col :: rest =>
      match select df col with
      | [s] =>
          let median_val := median s in
          let median_val := if is_nan median_val then f50 else median_val in
          fill_missing rest (assign df col (fillna median_val s))
      | _ => (Raise ValueError, df)
      end
  end.

(** [df[available_cols] * weights[available_cols]] *)
Definition weighted_scores (df : DataFrame) (w : dict F) (cols : list string)
  : list (list F) :=
  flat_map
    (fun col =>
       match get w col with
       | Some wc => map (map (fun x => fmul x wc)) (select df col)
       | None => []
       end)
    cols.

(** [frame.sum(axis=1)] over [n] rows. *)
Definition sum_axis1 (n : nat) (cols : list (list F)) : list F :=
  fold_left (map2 nanadd) cols (repeat f0 n).

(** [weights[available_cols].sum()] *)
Definition weight_total (w : dict F) (cols : list string) : F :=
  nansum (flat_map (fun col => match get w col with Some x => [x] | None => [] end) cols).

(** The last lines of [compute_fvi], once the missing values are filled:
    the weighted sum of each row over the weight total, clipped. *)
Definition weighted_index (df : DataFrame) (cw : dict F) (available_cols : list string)
  : Series :=
  let ws := weighted_scores df cw available_cols in
  let total := weight_total cw available_cols in
  let fvi := map (fun s => fdiv s total) (sum_axis1 (List.length (index df)) ws) in
  let fvi := map (clip f0 f100) fvi in
  combine (index df) fvi.

Definition set_scores_df (a : FVI_Aggregator) (l : loc) : FVI_Aggregator :=
  {| weights := weights a;
     current_persona := current_persona a;
     current_weights := current_weights a;
     scores_df := Some l |}.

Definition log_empty : list log_record :=
  [ (WARNING, "Empty scores DataFrame provided") ]%string.

Definition log_no_overlap : list log_record :=
  [ (ERROR, "No overlapping scores for weighting");
    (ERROR, "Available columns: {list(self.scores_df.columns)}");
    (ERROR, "Expected columns: {list(weights.index)}") ]%string.

Definition log_computed : list log_record :=
  [ (INFO, "Computed FVI for {len(fvi)} countries using {self.current_persona} weights");
    (INFO, "Used dimensions: {list(available_cols)}") ]%string.

(** [compute_fvi].  [l] refers to the caller's data frame; a reference to
    nothing cannot be written in Python and is answered by an error. *)
Definition compute_fvi (l : loc) (w : World) : Result Series :=
  match nth_error (heap w) l with
  | None => (Raise TypeError, w, [])
  | Some scores_df0 =>
      if empty scores_df0 then (Ok [], w, log_empty)
      else
        (* self.scores_df = scores_df.copy(); the copy is renamed in place *)
        let (l', h1) := alloc (heap w) scores_df0 in
        let self1 := set_scores_df (self w) l' in
        let df1 := rename_columns scores_df0 in
        let cw := current_weights self1 in
        let available_cols := intersection (columns df1) (keys cw) in
        match available_cols with
        | [] =>
            (Ok [], {| heap := store h1 l' df1; self := self1 |}, log_no_overlap)
        | _ =>
            match fill_missing available_cols df1 with
            | (Raise e, df2) =>
                (Raise e, {| heap := store h1 l' df2; self := self1 |}, [])
            | (Ok _, df2) =>
                (Ok (weighted_index df2 cw available_cols),
                 {| heap := store h1 l' df2; self := self1 |}, log_computed)
            end
        end
  end.

(** The loop of [compare_personas]: [results] is the dictionary built so
    far. *)
Fixpoint compare_loop (personas : list string) (l : loc) (w : World)
  (results : dict Series) (log : list log_record) : Result (dict Series) :=
  match personas with
  | [] => (Ok results, w, log)
  | persona :: rest =>
      match set_persona persona w with
      | (Raise e, w1, log1) => (Raise e, w1, log ++ log1)
      | (Ok _, w1, log1) =>
          match compute_fvi l w1 with
          | (Raise e, w2, log2) => (Raise e, w2, log ++ log1 ++ log2)
          | (Ok fvi_scores, w2, log2) =>
              compare_loop rest l w2 (set results persona fvi_scores)
                           (log ++ log1 ++ log2)
          end
      end
  end.

(** [compare_personas].  The frame [pd.DataFrame(results)] that is
    returned is represented by the dictionary it is built from: one
    series per persona. *)
Definition compare_personas (l : loc) (w : World) : Result (dict Series) :=
  let original_persona := current_persona (self w) in
  match compare_loop (keys (weights (self w))) l w [] [] with
  | (Raise e, w1, log1) => (Raise e, w1, log1)
  | (Ok results, w1, log1) =>
      match set_persona original_persona w1 with
      | (Raise e, w2, log2) => (Raise e, w2, log1 ++ log2)
      | (Ok _, w2, log2) => (Ok results, w2, log1 ++ log2)
      end
  end.

End Aggregator.

End fvi_aggregator.

(* ================================================================== *)
(** * frontend/scores/utils.py                                          *)
(* ================================================================== *)

Module utils.

Local Open Scope string_scope.

(** What a caller may pass for a country name: [None], a missing value
    (NaN) out of a pandas column, or a string. *)
Inductive pyval : Type :=
| VNone
| VNaN
| VStr (s : string).

Definition COUNTRY_MAPPING : dict string :=
  [ ("USA", "United States"); ("CHN", "China"); ("IND", "India");
    ("DEU", "Germany"); ("RUS", "Russia"); ("KOR", "South Korea");
    ("GBR", "United Kingdom"); ("FRA", "France"); ("JPN", "Japan");
    ("BRA", "Brazil"); ("CAN", "Canada"); ("AUS", "Australia");
    ("SAU", "Saudi Arabia"); ("ZAF", "South Africa"); ("ITA", "Italy");
    ("ESP", "Spain"); ("NLD", "Netherlands"); ("POL", "Poland");
    ("IDN", "Indonesia"); ("TUR", "Turkey"); ("MEX", "Mexico");
    ("IRN", "Iran"); ("THA", "Thailand"); ("ARE", "United Arab Emirates");
    ("EGY", "Egypt"); ("ISR", "Israel"); ("NOR", "Norway");
    ("ARG", "Argentina"); ("IRL", "Ireland"); ("MYS", "Malaysia");
    ("BGD", "Bangladesh"); ("PHL", "Philippines"); ("SGP", "Singapore");
    ("CHL", "Chile"); ("FIN", "Finland"); ("DNK", "Denmark");
    ("NZL", "New Zealand"); ("SWE", "Sweden"); ("AUT", "Austria");
    ("ISL", "Iceland"); ("BEL", "Belgium"); ("CHE", "Switzerland") ].

Definition aliases : dict string :=
  [ ("UK", "United Kingdom"); ("US", "United States"); ("USA", "United States");
    ("United States of America", "United States"); ("S. Korea", "South Korea");
    ("Viet Nam", "Vietnam"); ("Congo", "Democratic Republic of the Congo");
    ("Ivory Coast", "Côte d'Ivoire"); ("Russian Federation", "Russia");
    ("Iran, Islamic Rep.", "Iran"); ("Egypt, Arab Rep.", "Egypt") ].

(** [standardize_country_name].  The option is Python's: [None] is the
    value [None], not a failure; no step of the function can raise. *)
Definition standardize_country_name (name : pyval) : option string :=
  match name with
  | VNone | VNaN => None
  | VStr s =>
      let name := strip s in
      match get COUNTRY_MAPPING (upper name) with
      | Some canonical => Some canonical
      | None =>
          match get aliases name with
          | Some canonical => Some canonical
          | None => Some name
          end
      end
  end.

Inductive method : Type :=
| min_max
| z_score
| percentile
| other_method (name : string).

Section Normalisation.

Context {N : Num}.

(** [scipy.stats.zscore] and [scipy.stats.percentileofscore] are not part
    of the repository.  Whether [zscore] hands its result back under the
    labels of its argument (a Series) or as a bare array depends on the
    version of scipy; [zscore_keeps_labels] says which. *)
Variable zscore : list F -> list F.
Variable zscore_keeps_labels : bool.
Variable percentileofscore : list F -> F -> F.

(** The scaling step of [normalize_series] on the values [s] that are
    left after [dropna]. *)
Definition scale (m : method) (s : list F) : outcome (list F) :=
  match m with
  | min_max =>
      let min_val := series_min s in
      let max_val := series_max s in
      if feqb min_val max_val then Ok (map (fun _ => f50) s)
      else Ok (map (fun x => fdiv (fmul f100 (fsub x min_val)) (fsub max_val min_val)) s)
  | z_score =>
      let z_scores := zscore s in
      let normalized :=
        map (fun z => fadd f50 (fdiv (fmul z f50) (of_Q 3))) z_scores in
      Ok (map (clip f0 f100) normalized)
  | percentile => Ok (map (percentileofscore s) s)
  | other_method _ => Raise ValueError
  end.

(** [result = pd.Series(50, index=series.index); result.update(normalized)]:
    [normalized] has one entry for each entry of [series] that is not
    missing; an entry that is NaN updates nothing. *)
Fixpoint update (series normalized : list F) : list F :=
  match series with
  | [] => []
  | x :: rest =>
      if is_nan x then f50 :: update rest normalized
      else
        match normalized with
        | [] => f50 :: update rest []
        | v :: normalized' =>
            (if is_nan v then f50 else v) :: update rest normalized'
        end
  end.

(** The same statement when [normalized] is a bare array: pandas wraps it
    into a Series labelled 0, 1, ..., so on a series with the default
    index its values land on the leading places, whether the entry there
    is missing or not. *)
Fixpoint update_leading (series normalized : list F) : list F :=
  match series with
  | [] => []
  | _ :: rest =>
      match normalized with
      | [] => f50 :: update_leading rest []
      | v :: normalized' =>
          (if is_nan v then f50 else v) :: update_leading rest normalized'
      end
  end.

(** The min-max and percentile branches build [normalized] as a Series on
    the index of [s]; the z-score branch computes it from what scipy
    returned. *)
Definition carries_labels (m : method) : bool :=
  match m with
  | z_score => zscore_keeps_labels
  | _ => true
  end.

(** [normalize_series] on a series of floats, for which [pd.to_numeric]
    is the identity. *)
Definition normalize_series (series : list F) (higher_is_better : bool)
  (m : method) : outcome (list F) :=
  let s := dropna series in
  match s with
  | [] => Ok (map (fun _ => f50) series)
  | _ =>
      bind (scale m s) (fun normalized =>
        let normalized :=
          if negb higher_is_better
          then map (fun x => fsub f100 x) normalized
          else normalized in
        Ok (if carries_labels m then update series normalized
            else update_leading series normalized))
  end.

(** [normalize_score]; [None] is Python's [None]. *)
Definition normalize_score (value : option F) (min_val max_val default : F) : F :=
  match value with
  | None => default
  | Some value =>
      if is_nan value then default
      else if feqb min_val max_val then default
      else
        let normalized :=
          fdiv (fmul f100 (fsub value min_val)) (fsub max_val min_val) in
        py_max f0 (py_min f100 normalized)
  end.

(** [validate_score_range] *)
Definition validate_score_range (score : F) : F :=
  if is_nan score then f50 else py_max f0 (py_min f100 score).

End Normalisation.

End utils.

(* ================================================================== *)
(** * Raw datasets                                                      *)
(* ================================================================== *)

Module tables.

Section Tables.

Context {N : Num}.

(** A cell of a raw table is a Python object: a float, NaN when the entry
    is missing, or a string. *)
Inductive cell : Type :=
| CNum (x : F)
| CStr (s : string).

Definition row : Type := list cell.

(** A raw dataset: column labels, and the rows in their order. *)
Record Table : Type := {
  tcolumns : list string;
  trows : list row
}.

Definition missing : cell := CNum nan.

(** [pd.notna] on a cell. *)
Definition cell_notna (c : cell) : bool :=
  match c with
  | CNum x => notna x
  | CStr _ => true
  end.

Fixpoint position (col : string) (cols : list string) : option nat :=
  match cols with
  | [] => None
  | c :: r =>
      if String.eqb c col then Some O else option_map S (position col r)
  end.

(** [col in df.columns] *)
Definition has_column (t : Table) (col : string) : bool := mem col (tcolumns t).

(** [row[col]] / [row.get(col)] for a column of the table. *)
Definition field (t : Table) (col : string) (r : row) : cell :=
  match position col (tcolumns t) with
  | Some i => nth i r missing
  | None => missing
  end.

(** [df.empty] *)
Definition tempty (t : Table) : bool :=
  match trows t, tcolumns t with
  | [], _ | _, [] => true
  | _, _ => false
  end.

Definition with_rows (t : Table) (rows : list row) : Table :=
  {| tcolumns := tcolumns t; trows := rows |}.

(** [cell == name] for a string [name]. *)
Definition cell_is (c : cell) (name : string) : bool :=
  match c with
  | CStr s => String.eqb s name
  | CNum _ => false
  end.

(** Two cells hold the same value, as [duplicated] and [unique] see it:
    missing values count as equal to each other. *)
Definition same_value (a b : cell) : bool :=
  match a, b with
  | CStr s, CStr s' => String.eqb s s'
  | CNum x, CNum y => feqb x y || (is_nan x && is_nan y)
  | _, _ => false
  end.

(** [df.drop_duplicates(subset=[col], keep='last')]: a row stays when no
    later row has its value in [col]. *)
Fixpoint drop_duplicates_last (key : row -> cell) (rows : list row) : list row :=
  match rows with
  | [] => []
  | r :: rest =>
      if existsb (fun r' => same_value (key r') (key r)) rest
      then drop_duplicates_last key rest
      else r :: drop_duplicates_last key rest
  end.

(** [series.unique()]: the first occurrence of each value, in order. *)
Fixpoint unique_cells (cs : list cell) : list cell :=
  match cs with
  | [] => []
  | c :: rest => c :: filter (fun c' => negb (same_value c c')) (unique_cells rest)
  end.

Fixpoint insert_by {A} (leb : A -> A -> bool) (x : A) (l : list A) : list A :=
  match l with
  | [] => [x]
  | y :: r => if leb x y then x :: l else y :: insert_by leb x r
  end.

(** An ascending sort that keeps rows with equal keys in their order. *)
Definition sort_by {A} (leb : A -> A -> bool) (l : list A) : list A :=
  fold_right (insert_by leb) [] l.

Definition is_num (c : cell) : bool := match c with CNum _ => true | CStr _ => false end.
Definition is_str (c : cell) : bool := match c with CStr _ => true | CNum _ => false end.

Definition num_leb (a b : cell) : bool :=
  match a, b with
  | CNum x, CNum y => fleb x y
  | _, _ => false
  end.

Definition str_leb (a b : cell) : bool :=
  match a, b with
  | CStr x, CStr y => String.leb x y
  | _, _ => false
  end.

(** [df.sort_values(col)]: ascending, missing values last; a column that
    mixes numbers and strings cannot be compared and raises [TypeError].
    Rows with equal keys keep their order. *)
Definition sort_values (t : Table) (col : string) : outcome Table :=
  let key := field t col in
  let present := filter (fun r => cell_notna (key r)) (trows t) in
  let absent := filter (fun r => negb (cell_notna (key r))) (trows t) in
  if forallb (fun r => is_num (key r)) present then
    Ok (with_rows t (sort_by (fun a b => num_leb (key a) (key b)) present ++ absent))
  else if forallb (fun r => is_str (key r)) present then
    Ok (with_rows t (sort_by (fun a b => str_leb (key a) (key b)) present ++ absent))
  else Raise TypeError.

(** [hit.iloc[-1]] *)
Definition last_row (rows : list row) : option row :=
  match rev rows with
  | [] => None
  | r :: _ => Some r
  end.

End Tables.

End tables.

(* ================================================================== *)
(** * frontend/scores/resource.py                                       *)
(* ================================================================== *)

Module resource.

Import tables utils.

Local Open Scope string_scope.

Definition COUNTRY_COLS : list string := ["entity"; "country"; "country_name"].

(** [_candidate_names]; the set is listed in a fixed order, which its
    only use, a membership test, does not observe. *)
Definition _candidate_names (country : string) : list string :=
  let c := country in
  let names :=
    ([c; remove_char " " c] ++
     match standardize_country_name (VStr c) with
     | Some n => [n]
     | None => []
     end ++
     (if mem (upper c) ["USA"; "US"]
      then ["United States"; "United States of America"]
      else []))%list in
  filter (fun n => negb (String.eqb n "")) names.

Section Extraction.

Context {N : Num}.

(** Python's [float(s)] on a string: the number read, or nothing when
    [ValueError] is raised.  The builtin is not part of the repository. *)
Variable py_float : string -> option F.

(** [np.log10] *)
Variable log10 : F -> F.

(** [_latest_by_country] *)
Definition _latest_by_country (df : Table) : outcome Table :=
  match find (has_column df) COUNTRY_COLS with
  | None => Ok df
  | Some ccol =>
      if has_column df "year" then
        bind (sort_values df "year") (fun sorted =>
          Ok (with_rows sorted (drop_duplicates_last (field df ccol) (trows sorted))))
      else Ok (with_rows df (drop_duplicates_last (field df ccol) (trows df)))
  end.

(** The loop of [_match_row] over the country columns. *)
Fixpoint match_in_columns (latest : Table) (candidates : list string)
  (cols : list string) : option row :=
  match cols with
  | [] => None
  | col :: rest =>
      if negb (has_column latest col) then match_in_columns latest candidates rest
      else
        let hit :=
          filter (fun r => existsb (cell_is (field latest col r)) candidates)
                 (trows latest) in
        match last_row hit with
        | Some r => Some r
        | None => match_in_columns latest candidates rest
        end
  end.

(** [_match_row] *)
Definition _match_row (df : Table) (country : string) : outcome (option row) :=
  bind (_latest_by_country df) (fun latest =>
    let candidates := _candidate_names country in
    Ok (match_in_columns latest candidates COUNTRY_COLS)).

(** What one dataset contributes inside [_get_metric_from_kinds]: the
    value to return, or nothing when the loop goes on. *)
Definition probe (df : Table) (country column : string) : outcome (option F) :=
  bind (_match_row df country) (fun row =>
    match row with
    | None => Ok None
    | Some r =>
        let val := field df column r in
        if cell_notna val then
          match val with
          | CNum x => Ok (Some x)
          | CStr s =>
              match py_float s with
              | Some x => Ok (Some x)
              | None => Raise ValueError
              end
          end
        else Ok None
    end).

(** The inner loop over the dataset names of one kind. *)
Fixpoint try_keys (datasets : dict Table) (country column : string)
  (keys : list string) : outcome (option F) :=
  match keys with
  | [] => Ok None
  | key :: rest =>
      match get datasets key with
      | None => try_keys datasets country column rest
      | Some df =>
          if negb (has_column df column) then try_keys datasets country column rest
          else
            match probe df country column with
            | Raise e => Raise e
            | Ok (Some v) => Ok (Some v)
            | Ok None => try_keys datasets country column rest
            end
      end
  end.

(** The outer loop over the preferred kinds. *)
Fixpoint try_kinds (datasets : dict Table) (kind_index : dict (list string))
  (country column : string) (preferences : list string) : outcome (option F) :=
  match preferences with
  | [] => Ok None
  | kind :: rest =>
      let keys := match get kind_index kind with Some ks => ks | None => [] end in
      match try_keys datasets country column keys with
      | Raise e => Raise e
      | Ok (Some v) => Ok (Some v)
      | Ok None => try_kinds datasets kind_index country column rest
      end
  end.

(** The last resort: every dataset that has the column. *)
Fixpoint scan_all (items : dict Table) (country column : string)
  : outcome (option F) :=
  match items with
  | [] => Ok None
  | (key, df) :: rest =>
      if has_column df column then
        match probe df country column with
        | Raise e => Raise e
        | Ok (Some v) => Ok (Some v)
        | Ok None => scan_all rest country column
        end
      else scan_all rest country column
  end.

(** [_get_metric_from_kinds] *)
Definition _get_metric_from_kinds (datasets : dict Table)
  (kind_index : dict (list string)) (country : string)
  (preferences : list string) (column : string) : outcome (option F) :=
  match try_kinds datasets kind_index country column preferences with
  | Raise e => Raise e
  | Ok (Some v) => Ok (Some v)
  | Ok None => scan_all datasets country column
  end.

Definition W_PRODUCTION : F := of_Q 0.30.
Definition W_RESERVES : F := of_Q 0.30.
Definition W_RP : F := of_Q 0.20.
Definition W_LAND_SHARE : F := of_Q 0.10.
Definition W_WATER_SHARE : F := of_Q 0.05.
Definition W_PROD_SHARE : F := of_Q 0.05.
Definition CAP_PRODUCTION : F := of_Q 5000.
Definition LOG_RES_MIN : F := of_Q 2.
Definition LOG_RES_MAX : F := of_Q 6.
Definition CAP_RP : F := of_Q 200.

(** [v * 100.0 if v <= 1.0 else v] *)
Definition as_percentage (v : F) : F := if fleb v f1 then fmul v f100 else v.

(** The component of one feature, when the feature is present. *)
Definition component (features : dict F) (name : string) (f : F -> F) : list F :=
  match get features name with
  | Some v => [f v]
  | None => []
  end.

(** [_score_from_features] *)
Definition _score_from_features (features : dict F) : F :=
  let comps :=
   (component features "production_mt"
      (fun v => fmul (normalize_score (Some v) f0 CAP_PRODUCTION f50) W_PRODUCTION) ++
    component features "proven_reserves_mt"
      (fun v =>
         let res := py_max f1 v in
         let res_log := log10 res in
         let res_log := py_max LOG_RES_MIN (py_min LOG_RES_MAX res_log) in
         fmul (normalize_score (Some res_log) LOG_RES_MIN LOG_RES_MAX f50) W_RESERVES) ++
    component features "r_p_ratio"
      (fun v =>
         let rp := py_min v CAP_RP in
         fmul (normalize_score (Some rp) f0 CAP_RP f50) W_RP) ++
    component features "land_mined_share"
      (fun v =>
         let inv := py_max f0 (py_min f100 (fsub f100 (as_percentage v))) in
         fmul inv W_LAND_SHARE) ++
    component features "water_usage_share"
      (fun v =>
         let inv := py_max f0 (py_min f100 (fsub f100 (as_percentage v))) in
         fmul inv W_WATER_SHARE) ++
    component features "production_share"
      (fun v => fmul (py_max f0 (py_min f100 (as_percentage v))) W_PROD_SHARE))%list in
  match comps with
  | [] => f50
  | _ =>
      let total := fold_left fadd comps f0 in
      py_min f100 (py_max f0 total)
  end.

End Extraction.

End resource.

(* ================================================================== *)
(** * frontend/scores/infrastructure.py                                 *)
(* ================================================================== *)

Module infrastructure.

Import tables utils.

Local Open Scope string_scope.

Section Scores.

Context {N : Num}.

(** Python's [str(x)] on a float.  The builtin is not part of the
    repository. *)
Variable py_str : F -> string.

(** The argument that [standardize_country_name] receives for a cell. *)
Definition as_name (c : cell) : pyval :=
  match c with
  | CStr s => VStr s
  | CNum x => if is_nan x then VNaN else VStr (py_str x)
  end.

(** The order in which [groupby] lists its keys: numbers, then strings. *)
Definition key_leb (a b : cell) : bool :=
  match a, b with
  | CNum x, CNum y => fleb x y
  | CNum _, CStr _ => true
  | CStr _, CNum _ => false
  | CStr x, CStr y => String.leb x y
  end.

(** [idxmax] on the rows of one group: the first row with the greatest
    year among those whose year is not missing. *)
Fixpoint idxmax (year : row -> cell) (rows : list row) (best : option row)
  : option row :=
  match rows with
  | [] => best
  | r :: rest =>
      match year r with
      | CNum y =>
          if is_nan y then idxmax year rest best
          else
            match best with
            | Some b =>
                match year b with
                | CNum yb =>
                    if fltb yb y then idxmax year rest (Some r)
                    else idxmax year rest best
                | CStr _ => idxmax year rest best
                end
            | None => idxmax year rest (Some r)
            end
      | CStr _ => idxmax year rest best
      end
  end.

Fixpoint collect {A} (l : list (outcome A)) : outcome (list A) :=
  match l with
  | [] => Ok []
  | Raise e :: _ => Raise e
  | Ok a :: r => bind (collect r) (fun r' => Ok (a :: r'))
  end.

(** [utils.get_latest_data_by_country] with its default column names.
    With a year column: [df.loc[df.groupby(country_col)[year_col].idxmax()]];
    [idxmax] is refused on a column of strings ([TypeError]) and a group
    without any year has no label to look up ([KeyError]). *)
Definition get_latest_data_by_country (df : Table) : outcome Table :=
  let country_col := "country_name" in
  let year_col := "year" in
  if tempty df || negb (has_column df country_col) then Ok df
  else if has_column df year_col then
    if existsb (fun r => is_str (field df year_col r)) (trows df) then Raise TypeError
    else
      let named := filter (fun r => cell_notna (field df country_col r)) (trows df) in
      let groups :=
        sort_by key_leb (unique_cells (map (field df country_col) named)) in
      bind
        (collect
           (map (fun k =>
                   match idxmax (field df year_col)
                           (filter (fun r => same_value (field df country_col r) k) named)
                           None with
                   | Some r => Ok r
                   | None => Raise KeyError
                   end)
                groups))
        (fun rows => Ok (with_rows df rows))
  else Ok (with_rows df (drop_duplicates_last (field df country_col) (trows df))).

(** [score * 100 if score <= 1.0 else score] *)
Definition to_percent (score : F) : F :=
  if fleb score f1 then fmul score f100 else score.

Definition score_columns : list string :=
  [ "coal_dependency_score"; "transition_feasibility_score"; "hazard_score";
    "reclamation_potential_score"; "root_cause_score" ].

(** The chain of [if ... continue] on the score columns of the row
    [latest]: the first column that is present and not missing decides;
    comparing a string with [1.0] raises [TypeError]. *)
Fixpoint from_score_columns (t : Table) (latest : row) (cols : list string)
  : outcome (option cell) :=
  match cols with
  | [] => Ok None
  | col :: rest =>
      if has_column t col then
        match field t col latest with
        | CNum score =>
            if notna score then Ok (Some (CNum (to_percent score)))
            else from_score_columns t latest rest
        | CStr _ => Raise TypeError
        end
      else from_score_columns t latest rest
  end.

(** The score of one country in [_calculate_scores_for_dataset]. *)
Definition score_of_country (latest_df : Table) (country_col country : string)
  : outcome cell :=
  let rows_of (name : cell) :=
    filter (fun r => same_value (field latest_df country_col r) name
                     && cell_notna name)
           (trows latest_df) in
  let country_data := rows_of (CStr country) in
  let country_data :=
    match country_data with
    | [] =>
        match
          find (fun data_country =>
                  match standardize_country_name (as_name data_country),
                        standardize_country_name (VStr country) with
                  | Some a, Some b => String.eqb a b
                  | None, None => true
                  | _, _ => false
                  end)
               (unique_cells (map (field latest_df country_col) (trows latest_df)))
        with
        | Some data_country => rows_of data_country
        | None => []
        end
    | _ => country_data
    end in
  match last_row country_data with
  | Some latest =>
      bind (from_score_columns latest_df latest score_columns) (fun s =>
        match s with
        | Some v => Ok v
        | None =>
            if has_column latest_df "electricity_coal_pct"
               && cell_notna (field latest_df "electricity_coal_pct" latest)
            then Ok (field latest_df "electricity_coal_pct" latest)
            else Ok (CNum f50)
        end)
  | None => Ok (CNum f50)
  end.

Fixpoint scores_loop (latest_df : Table) (country_col : string)
  (country_list : list string) (scores : dict cell) : outcome (dict cell) :=
  match country_list with
  | [] => Ok scores
  | country :: rest =>
      bind (score_of_country latest_df country_col country) (fun v =>
        scores_loop latest_df country_col rest (set scores country v))
  end.

(** [_calculate_scores_for_dataset] *)
Definition _calculate_scores_for_dataset (df : Table) (dataset_name : string)
  (country_list : list string) : outcome (dict cell) :=
  bind (get_latest_data_by_country df) (fun latest_df =>
    match filter (fun col => contains "country" (lower col)) (tcolumns latest_df) with
    | [] => Ok []
    | country_col :: _ => scores_loop latest_df country_col country_list []
    end).

(** [_fallback_infrastructure_scores] *)
Definition _fallback_infrastructure_scores (country_list : list string) : dict F :=
  let country_list :=
    match country_list with
    | [] => [ "India"; "China"; "Germany"; "USA"; "Australia"; "Indonesia";
              "South Africa"; "Poland" ]
    | _ => country_list
    end in
  let fallback_scores : dict F :=
    [ ("India", of_Q 65); ("China", of_Q 75); ("Germany", of_Q 35);
      ("USA", of_Q 45); ("Australia", of_Q 60); ("Indonesia", of_Q 70);
      ("South Africa", of_Q 80); ("Poland", of_Q 55) ] in
  fold_left
    (fun scores country =>
       set scores country
           (match get fallback_scores country with
            | Some v => v
            | None => of_Q 55
            end))
    country_list [].

Definition default_weights : dict F :=
  [ ("coal_dependency", of_Q 0.25); ("transition_readiness", of_Q 0.20);
    ("environmental_impact", of_Q 0.20); ("infrastructure_quality", of_Q 0.20);
    ("policy_framework", of_Q 0.15) ].

(** The inner loop of [_aggregate_infrastructure_scores] over the
    components that know the country. *)
Fixpoint weigh (n_components : nat) (country_component_scores : dict cell)
  (weighted_sum total_weight : F) : outcome (F * F) :=
  match country_component_scores with
  | [] => Ok (weighted_sum, total_weight)
  | (component, score) :: rest =>
      let weight :=
        match get default_weights component with
        | Some w => w
        | None => fdiv f1 (of_Q (inject_Z (Z.of_nat n_components)))
        end in
      match score with
      | CNum x =>
          weigh n_components rest (fadd weighted_sum (fmul x weight))
                (fadd total_weight weight)
      | CStr _ => Raise TypeError
      end
  end.

Fixpoint aggregate_loop (component_scores : dict (dict cell))
  (country_list : list string) (final_scores : dict F) : outcome (dict F) :=
  match country_list with
  | [] => Ok final_scores
  | country :: rest =>
      let country_component_scores :=
        flat_map (fun cs =>
                    match get (snd cs) country with
                    | Some v => [(fst cs, v)]
                    | None => []
                    end)
                 component_scores in
      match country_component_scores with
      | [] => aggregate_loop component_scores rest (set final_scores country f50)
      | _ =>
          bind (weigh (List.length component_scores) country_component_scores f0 f0)
            (fun sums =>
               let (weighted_sum, total_weight) := sums in
               aggregate_loop component_scores rest
                 (set final_scores country
                    (if fltb f0 total_weight then fdiv weighted_sum total_weight
                     else f50)))
      end
  end.

(** [_aggregate_infrastructure_scores] *)
Definition _aggregate_infrastructure_scores (component_scores : dict (dict cell))
  (country_list : list string) : outcome (dict F) :=
  match component_scores with
  | [] => Ok (_fallback_infrastructure_scores country_list)
  | _ => aggregate_loop component_scores country_list []
  end.

End Scores.

End infrastructure.

(* ================================================================== *)
(** * frontend/fvi_aggregator.py: rankings and breakdowns               *)
(* ================================================================== *)

Module fvi_aggregator_queries.

Import fvi_aggregator tables.

Local Open Scope string_scope.

Section Queries.

Context {N : Num}.

(** [s.nsmallest(n)] and [s.nlargest(n)] with pandas' default
    [keep='first'], as pandas 2 computes them: nothing when [n <= 0];
    else the first [n] entries of the series sorted by value, ascending
    or descending, missing values last.  Entries of equal value are
    listed in their order in the series; when [n] is not less than the
    length pandas leaves their order to the sort of numpy, and nothing
    that is proved of the ranking depends on it. *)
Definition sorted_entries (leb : F -> F -> bool) (s : Series) : Series :=
  (sort_by (fun a b => leb (snd a) (snd b)) (filter (fun e => notna (snd e)) s)
   ++ filter (fun e => is_nan (snd e)) s)%list.

Definition nsmallest (n : Z) (s : Series) : Series :=
  if (n <=? 0)%Z then [] else firstn (Z.to_nat n) (sorted_entries fleb s).

Definition nlargest (n : Z) (s : Series) : Series :=
  if (n <=? 0)%Z then []
  else firstn (Z.to_nat n) (sorted_entries (fun a b => fleb b a) s).

(** [get_top_countries] *)
Definition get_top_countries (l : loc) (n : Z) (ascending : bool) (w : World)
  : Result Series :=
  match compute_fvi l w with
  | (Raise e, w1, log) => (Raise e, w1, log)
  | (Ok fvi, w1, log) =>
      (Ok (if ascending then nsmallest n fvi else nlargest n fvi), w1, log)
  end.

(** What [get_dimension_contribution] puts into its dictionary: the
    breakdown of one dimension, or the summary under the key "_summary". *)
Inductive report_entry : Type :=
| Contribution (raw_score weight weighted_score contribution_pct : F)
| Summary (total_fvi_score total_weight_used : F) (dimensions_included : nat).

(** The places at which a label stands in an index. *)
Fixpoint positions_from (k : nat) (label : string) (labels : list string) : list nat :=
  match labels with
  | [] => []
  | x :: rest =>
      ((if String.eqb x label then [k] else []) ++ positions_from (S k) label rest)%list
  end.

Definition positions (label : string) (labels : list string) : list nat :=
  positions_from 0 label labels.

(** [float(country_scores[dim])] for [country_scores = df.loc[country]]:
    a number when the country labels one row and [dim] one column; else
    the selection is a series or a frame, which [float] refuses. *)
Definition score_at (df : DataFrame) (rows : list nat) (dim : string) : outcome F :=
  match rows, select df dim with
  | [i], [column] => Ok (nth i column nan)
  | _, _ => Raise TypeError
  end.

(** The loop over the weighted dimensions. *)
Fixpoint contribution_loop (df : DataFrame) (rows : list nat) (cw : dict F)
  (dims : list string) (contributions : dict report_entry)
  (total_weighted_score total_weight : F)
  : outcome (dict report_entry * F * F) :=
  match dims with
  | [] => Ok (contributions, total_weighted_score, total_weight)
  | dim :: rest =>
      bind (score_at df rows dim) (fun score =>
        match get cw dim with
        | None => Raise KeyError
        | Some weight =>
            let weighted_score := fmul score weight in
            contribution_loop df rows cw rest
              (set contributions dim (Contribution score weight weighted_score f0))
              (fadd total_weighted_score weighted_score)
              (fadd total_weight weight)
        end)
  end.

(** The loop that sets the percentages. *)
Definition with_percentages (total_weighted_score : F)
  (contributions : dict report_entry) : dict report_entry :=
  map (fun e =>
         match snd e with
         | Contribution score weight weighted_score _ =>
             if fltb f0 total_weighted_score
             then (fst e, Contribution score weight weighted_score
                            (fmul (fdiv weighted_score total_weighted_score) f100))
             else e
         | Summary _ _ _ => e
         end)
      contributions.

(** [get_dimension_contribution] *)
Definition get_dimension_contribution (l : loc) (country : string) (w : World)
  : Result (dict report_entry) :=
  match nth_error (heap w) l with
  | None => (Raise TypeError, w, [])
  | Some scores_df0 =>
      if negb (mem country (index scores_df0)) then
        (Ok [], w, [(WARNING, "Country '{country}' not found in scores")])
      else
        match compute_fvi l w with
        | (Raise e, w1, log) => (Raise e, w1, log)
        | (Ok _, w1, log) =>
            match scores_df (self w1) with
            | None => (Ok [], w1, log)
            | Some stored_at =>
                match nth_error (heap w1) stored_at with
                | None => (Raise TypeError, w1, log)
                | Some stored =>
                    match positions country (index stored) with
                    | [] => (Raise KeyError, w1, log)
                    | rows =>
                        let cw := current_weights (self w1) in
                        let available_cols := intersection (columns stored) (keys cw) in
                        match contribution_loop stored rows cw available_cols [] f0 f0 with
                        | Raise e => (Raise e, w1, log)
                        | Ok (contributions, total_weighted_score, total_weight) =>
                            let contributions :=
                              with_percentages total_weighted_score contributions in
                            (Ok (set contributions "_summary"
                                   (Summary
                                      (if fltb f0 total_weight
                                       then fdiv total_weighted_score total_weight
                                       else f0)
                                      total_weight
                                      (List.length available_cols))),
                             w1, log)
                        end
                    end
                end
            end
        end
  end.

End Queries.

End fvi_aggregator_queries.

(* ================================================================== *)
(** * frontend/scores/utils.py: the country mapping                     *)
(* ================================================================== *)

Module utils_mapping.

Import tables utils.

Local Open Scope string_scope.

Section Mapping.

Context {N : Num}.

(** What [create_country_mapping] does: it returns the mapping, or
    raises the [AttributeError] of a name that is not a string and has
    no [lower]. *)
Inductive mapped : Type :=
| Mapping (mapping : dict string)
| AttributeError.

(** The inner loop: the first target that the name matches, by its
    lower-case form or as its standard form. *)
Fixpoint first_target (data_country : string) (country_list : list string)
  : option string :=
  match country_list with
  | [] => None
  | target_country :: rest =>
      if String.eqb (lower data_country) (lower target_country) then Some target_country
      else
        match standardize_country_name (VStr data_country) with
        | Some std =>
            if String.eqb std target_country then Some target_country
            else first_target data_country rest
        | None => first_target data_country rest
        end
  end.

(** The outer loop over the names of the data. *)
Fixpoint map_countries (data_countries : list cell) (country_list : list string)
  (mapping : dict string) : mapped :=
  match data_countries with
  | [] => Mapping mapping
  | CStr data_country :: rest =>
      map_countries rest country_list
        (match first_target data_country country_list with
         | Some target_country => set mapping data_country target_country
         | None => mapping
         end)
  | CNum _ :: rest =>
      match country_list with
      | [] => map_countries rest country_list mapping
      | _ :: _ => AttributeError
      end
  end.

(** [create_country_mapping] *)
Definition create_country_mapping (df : Table) (country_list : list string) : mapped :=
  match filter (fun col => contains "country" (lower col)) (tcolumns df) with
  | [] => Mapping []
  | country_col :: _ =>
      map_countries
        (unique_cells (filter cell_notna (map (field df country_col) (trows df))))
        country_list []
  end.

End Mapping.

End utils_mapping.

(* ================================================================== *)
(** * frontend/scores/infrastructure.py: the component calculators      *)
(* ================================================================== *)

Module infrastructure_components.

Import tables utils infrastructure.

Local Open Scope string_scope.

Section Components.

Context {N : Num}.

(** Python's [str(x)] on a float and [float(s)] on a string; the
    builtins are not part of the repository. *)
Variable py_str : F -> string.
Variable py_float : string -> option F.

(** [normalize_score] on a cell of a table.  A string is not missing for
    [pd.isna]; [float] reads it, or raises the [ValueError] that makes
    the function return the default. *)
Definition normalize_score_of (value : cell) (min_val max_val default : F) : F :=
  match value with
  | CNum x => normalize_score (Some x) min_val max_val default
  | CStr s =>
      match py_float s with
      | None => default
      | Some value =>
          if feqb min_val max_val then default
          else
            let normalized :=
              fdiv (fmul f100 (fsub value min_val)) (fsub max_val min_val) in
            py_max f0 (py_min f100 normalized)
      end
  end.

(** [s * 10] for a string [s]. *)
Fixpoint repeat_string (n : nat) (s : string) : string :=
  match n with
  | O => ""
  | S n' => s ++ repeat_string n' s
  end.

(** [value * 10] on a cell. *)
Definition times_ten (value : cell) : cell :=
  match value with
  | CNum x => CNum (fmul x (of_Q 10))
  | CStr s => CStr (repeat_string 10 s)
  end.

Definition number_of (value : cell) : F :=
  match value with
  | CNum x => x
  | CStr _ => nan
  end.

(** [np.mean] of a Python list that is not empty: the sum over the count;
    a list that holds a string is refused. *)
Definition np_mean (values : list cell) : outcome F :=
  if forallb is_num values then
    match map number_of values with
    | [] => Ok nan
    | x :: rest =>
        Ok (fdiv (fold_left fadd rest x)
                 (of_Q (inject_Z (Z.of_nat (List.length values)))))
    end
  else Raise TypeError.

(** [df[df[country_col] == name]] *)
Definition rows_named (df : Table) (country_col : string) (name : cell) : list row :=
  filter (fun r => same_value (field df country_col r) name && cell_notna name)
         (trows df).

(** The rows of a country in the five component calculators: those that
    carry its name, else those of the first name in the data whose
    standard form is the country. *)
Definition country_rows (df : Table) (country_col country : string) : list row :=
  match rows_named df country_col (CStr country) with
  | [] =>
      match
        find (fun data_country =>
                match standardize_country_name (as_name py_str data_country) with
                | Some n => String.eqb n country
                | None => false
                end)
             (unique_cells (map (field df country_col) (trows df)))
      with
      | Some data_country => rows_named df country_col data_country
      | None => []
      end
  | rows => rows
  end.

(** A factor of a component: the cell of [col] in the row [latest], when
    the column exists and the cell is not missing. *)
Definition factor (df : Table) (latest : row) (col : string) (f : cell -> cell)
  : list cell :=
  if has_column df col then
    let value := field df col latest in
    if cell_notna value then [f value] else []
  else [].

(** The loop over [country_list] that the five calculators share;
    [score_of] is the body that scores the row [latest]. *)
Fixpoint score_countries (df : Table) (country_col : string)
  (score_of : row -> outcome F) (country_list : list string) (scores : dict F)
  : outcome (dict F) :=
  match country_list with
  | [] => Ok scores
  | country :: rest =>
      match last_row (country_rows df country_col country) with
      | Some latest =>
          bind (score_of latest) (fun v =>
            score_countries df country_col score_of rest (set scores country v))
      | None =>
          score_countries df country_col score_of rest (set scores country f50)
      end
  end.

(** The mean of the factors through [normalize_score], or 50 without
    factors. *)
Definition score_of_factors (factors : list cell) (invert : bool) : outcome F :=
  match factors with
  | [] => Ok f50
  | _ =>
      bind (np_mean factors) (fun avg =>
        let normalized := normalize_score (Some avg) f0 f100 f50 in
        Ok (if invert then fsub f100 normalized else normalized))
  end.

(** [_calculate_coal_dependency_score] *)
Definition _calculate_coal_dependency_score (df : Table) (country_col : string)
  (country_list : list string) : outcome (dict F) :=
  score_countries df country_col
    (fun latest =>
       let dependency_factors :=
         (factor df latest "electricity_coal_pct" (fun v => v) ++
          factor df latest "coal_rents_pct_gdp" times_ten)%list in
       score_of_factors dependency_factors false)
    country_list [].

(** [_calculate_transition_readiness_score] *)
Definition _calculate_transition_readiness_score (df : Table) (country_col : string)
  (country_list : list string) : outcome (dict F) :=
  score_countries df country_col
    (fun latest =>
       let readiness_factors :=
         (factor df latest "electricity_access_pct" (fun v => v) ++
          factor df latest "urban_pop_pct" (fun v => v))%list in
       score_of_factors readiness_factors true)
    country_list [].

(** [_calculate_environmental_impact_score] *)
Definition _calculate_environmental_impact_score (df : Table) (country_col : string)
  (country_list : list string) : outcome (dict F) :=
  score_countries df country_col
    (fun latest =>
       if has_column df "pm25_exposure" then
         let pm25 := field df "pm25_exposure" latest in
         if cell_notna pm25 then Ok (normalize_score_of pm25 f0 f100 f50)
         else Ok f50
       else Ok f50)
    country_list [].

(** [_calculate_infrastructure_quality_score] *)
Definition _calculate_infrastructure_quality_score (df : Table) (country_col : string)
  (country_list : list string) : outcome (dict F) :=
  score_countries df country_col
    (fun latest =>
       let quality_factors :=
         (factor df latest "electricity_access_pct" (fun v => v) ++
          factor df latest "urban_pop_pct" (fun v => v))%list in
       score_of_factors quality_factors true)
    country_list [].

(** [_calculate_policy_framework_score]; the range of the index is that
    of the Worldwide Governance Indicators, -2.5 to 2.5. *)
Definition _calculate_policy_framework_score (df : Table) (country_col : string)
  (country_list : list string) : outcome (dict F) :=
  score_countries df country_col
    (fun latest =>
       if has_column df "control_corruption_index" then
         let corruption_control := field df "control_corruption_index" latest in
         if cell_notna corruption_control then
           let normalized :=
             normalize_score_of corruption_control (of_Q (-2.5)) (of_Q 2.5) f50 in
           Ok (fsub f100 normalized)
         else Ok f50
       else Ok f50)
    country_list [].

Definition score_calculations
  : list (string * (Table -> string -> list string -> outcome (dict F))) :=
  [ ("coal_dependency", _calculate_coal_dependency_score);
    ("transition_readiness", _calculate_transition_readiness_score);
    ("environmental_impact", _calculate_environmental_impact_score);
    ("infrastructure_quality", _calculate_infrastructure_quality_score);
    ("policy_framework", _calculate_policy_framework_score) ].

(** [_extract_scores_from_single_dataset]: a calculator that raises is
    skipped ([except Exception]), and so is an empty series. *)
Definition _extract_scores_from_single_dataset (df : Table)
  (country_list : list string) : outcome (dict (dict F)) :=
  bind (get_latest_data_by_country df) (fun latest_df =>
    match filter (fun col => contains "country" col) (tcolumns latest_df) with
    | [] => Ok []
    | country_col :: _ =>
        Ok (fold_left
              (fun component_scores calc =>
                 match snd calc latest_df country_col country_list with
                 | Ok ((_ :: _) as scores) => set component_scores (fst calc) scores
                 | Ok [] | Raise _ => component_scores
                 end)
              score_calculations [])
    end).

(** The loop of [_calculate_component_scores] over several datasets. *)
Fixpoint per_dataset_scores (items : dict Table) (country_list : list string)
  (component_scores : dict (dict cell)) : outcome (dict (dict cell)) :=
  match items with
  | [] => Ok component_scores
  | (dataset_name, df) :: rest =>
      bind (_calculate_scores_for_dataset py_str df dataset_name country_list)
        (fun scores =>
           per_dataset_scores rest country_list
             (match scores with
              | [] => component_scores
              | _ => set component_scores dataset_name scores
              end))
  end.

(** [_calculate_component_scores]; the scores of the single-dataset path
    are floats. *)
Definition _calculate_component_scores (data_dict : dict Table)
  (country_list : list string) : outcome (dict (dict cell)) :=
  match data_dict with
  | [(_, df)] =>
      bind (_extract_scores_from_single_dataset df country_list) (fun component_scores =>
        Ok (map (fun cs => (fst cs, map (fun kv => (fst kv, CNum (snd kv))) (snd cs)))
                component_scores))
  | _ => per_dataset_scores data_dict country_list []
  end.

(** The part of [calculate_infrastructure_score] that follows the
    loading of the datasets, for a caller that gives the list of
    countries. *)
Definition score_loaded (infrastructure_data : dict Table)
  (country_list : list string) : outcome (dict F) :=
  match infrastructure_data with
  | [] => Ok (_fallback_infrastructure_scores country_list)
  | _ =>
      bind (_calculate_component_scores infrastructure_data country_list)
        (fun component_scores =>
           match component_scores with
           | [] => Ok (_fallback_infrastructure_scores country_list)
           | _ => _aggregate_infrastructure_scores component_scores country_list
           end)
  end.

End Components.

End infrastructure_components.

(* ================================================================== *)
(** * frontend/scores/resource.py: the scoring of the countries         *)
(* ================================================================== *)

Module resource_pipeline.

Import tables utils resource infrastructure.

Local Open Scope string_scope.

(** [set(names) & cols] is not empty. *)
Definition intersects (names cols : list string) : bool :=
  existsb (fun n => mem n cols) names.

Section Pipeline.

Context {N : Num}.

Variable py_str : F -> string.
Variable py_float : string -> option F.
Variable log10 : F -> F.

(** [_classify_dataset] *)
Definition _classify_dataset (df : Table) : string :=
  let cols := tcolumns df in
  if intersects ["r_p_ratio"; "land_mined_share"] cols || mem "r_p_ratio" cols
  then "resource_score1"
  else if intersects ["water_usage_share"; "water_usage_mm3"] cols
  then "resource_score2"
  else if intersects ["production_share"; "waste_to_use_ratio"; "coal_ash_mt"] cols
  then "resource_score3"
  else "other".

(** [_build_kind_index]: [idx.setdefault(kind, []).append(name)] for
    every dataset. *)
Definition _build_kind_index (datasets : dict Table) : dict (list string) :=
  fold_left
    (fun idx item =>
       let kind := _classify_dataset (snd item) in
       set idx kind
           (match get idx kind with
            | Some names => names ++ [fst item]
            | None => [fst item]
            end)%list)
    datasets [].

(** The six metrics of [_extract_features_for_country], each with the
    dataset kinds it prefers. *)
Definition feature_requests : list (string * list string) :=
  [ ("production_mt", ["resource_score1"; "resource_score2"; "resource_score3"]);
    ("proven_reserves_mt", ["resource_score1"; "resource_score3"]);
    ("r_p_ratio", ["resource_score1"]);
    ("land_mined_share", ["resource_score1"]);
    ("water_usage_share", ["resource_score2"]);
    ("production_share", ["resource_score3"]) ].

Fixpoint extract_requests (datasets : dict Table) (kind_index : dict (list string))
  (country : string) (requests : list (string * list string))
  : outcome (dict (option F)) :=
  match requests with
  | [] => Ok []
  | (column, preferences) :: rest =>
      bind (_get_metric_from_kinds py_float datasets kind_index country preferences column)
        (fun v =>
           bind (extract_requests datasets kind_index country rest)
             (fun feats => Ok ((column, v) :: feats)))
  end.

(** [_extract_features_for_country]: the metrics that were found. *)
Definition _extract_features_for_country (datasets : dict Table)
  (kind_index : dict (list string)) (country : string) : outcome (dict F) :=
  bind (extract_requests datasets kind_index country feature_requests) (fun feats =>
    Ok (flat_map (fun kv => match snd kv with
                            | Some v => [(fst kv, v)]
                            | None => []
                            end) feats)).

(** [_fallback_resource_scores] *)
Definition _fallback_resource_scores (country_list : list string) : dict F :=
  let country_list :=
    match country_list with
    | [] => [ "India"; "China"; "Germany"; "USA"; "Australia"; "Indonesia";
              "South Africa"; "Poland" ]
    | _ => country_list
    end in
  let fallback : dict F :=
    [ ("India", of_Q 70); ("China", of_Q 85); ("Germany", of_Q 45);
      ("USA", of_Q 80); ("Australia", of_Q 90); ("Indonesia", of_Q 75);
      ("South Africa", of_Q 60); ("Poland", of_Q 55) ] in
  fold_left
    (fun scores c =>
       set scores c (match get fallback c with
                     | Some v => v
                     | None => of_Q 60
                     end))
    country_list [].

(** The names that a country column of a dataset contributes to
    [_extract_countries_from_data]: the standard forms, when not empty,
    of its distinct values that are not missing. *)
Definition names_in (df : Table) (col : string) : list string :=
  flat_map
    (fun name =>
       match standardize_country_name (as_name py_str name) with
       | Some std => if String.eqb std "" then [] else [std]
       | None => []
       end)
    (unique_cells (filter cell_notna (map (field df col) (trows df)))).

(** [sorted(seen)] for a set of strings, given by the list of what was
    added to it. *)
Definition sorted_set (added : list string) : list string :=
  sort_by String.leb (fvi_aggregator.unique added).

(** [_extract_countries_from_data] *)
Definition _extract_countries_from_data (datasets : dict Table) : list string :=
  sorted_set
    (flat_map
       (fun item =>
          flat_map (fun col => if has_column (snd item) col
                               then names_in (snd item) col else [])
                   COUNTRY_COLS)
       datasets).

(** The loop of [calculate_resource_score] over the countries. *)
Fixpoint score_each (datasets : dict Table) (kind_index : dict (list string))
  (country_list : list string) (scores : dict F) : outcome (dict F) :=
  match country_list with
  | [] => Ok scores
  | country :: rest =>
      bind (_extract_features_for_country datasets kind_index country) (fun feats =>
        score_each datasets kind_index rest
          (set scores country (_score_from_features log10 feats)))
  end.

(** The part of [calculate_resource_score] that follows the loading of
    the datasets; [country_list] is [None] when the caller gives no
    list. *)
Definition score_loaded (datasets : dict Table) (country_list : option (list string))
  : outcome (dict F) :=
  match datasets with
  | [] =>
      Ok (_fallback_resource_scores
            (match country_list with Some l => l | None => [] end))
  | _ =>
      let country_list :=
        match country_list with
        | Some l => l
        | None => _extract_countries_from_data datasets
        end in
      let kind_index := _build_kind_index datasets in
      score_each datasets kind_index country_list []
  end.

End Pipeline.

End resource_pipeline.

(* ================================================================== *)
(** * Properties of the aggregator that hold for any arithmetic         *)
(* ================================================================== *)

Module aggregator_frame.

Import fvi_aggregator.

Section Frame.

Context {N : Num}.

Lemma store_fresh (h : list DataFrame) (x y : DataFrame) :
  store (h ++ [x]) (List.length h) y = h ++ [y].
Proof.
  induction h as [|a h IH]; simpl; [reflexivity | now rewrite IH].
Qed.

Lemma firstn_prefix {A} (h ext : list A) : firstn (List.length h) (h ++ ext) = h.
Proof.
  induction h as [|a h IH]; simpl; [now destruct ext | now rewrite IH].
Qed.





(** The five ways through [compute_fvi]. *)
Inductive fvi_run (l : loc) (w : World) : Result Series -> Prop :=
| run_dangling :
    nth_error (heap w) l = None ->
    fvi_run l w (Raise TypeError, w, [])
| run_empty df :
    nth_error (heap w) l = Some df ->
    empty df = true ->
    fvi_run l w (Ok [], w, log_empty)
| run_no_overlap df :
    nth_error (heap w) l = Some df ->
    empty df = false ->
    intersection (columns (rename_columns df)) (keys (current_weights (self w))) = [] ->
    fvi_run l w
      (Ok [],
       {| heap := heap w ++ [rename_columns df];
          self := set_scores_df (self w) (List.length (heap w)) |},
       log_no_overlap)
| run_raise df e df2 :
    nth_error (heap w) l = Some df ->
    empty df = false ->
    intersection (columns (rename_columns df)) (keys (current_weights (self w))) <> [] ->
    fill_missing
      (intersection (columns (rename_columns df)) (keys (current_weights (self w))))
      (rename_columns df) = (Raise e, df2) ->
    fvi_run l w
      (Raise e,
       {| heap := heap w ++ [df2];
          self := set_scores_df (self w) (List.length (heap w)) |},
       [])
| run_ok df u df2 :
    nth_error (heap w) l = Some df ->
    empty df = false ->
    intersection (columns (rename_columns df)) (keys (current_weights (self w))) <> [] ->
    fill_missing
      (intersection (columns (rename_columns df)) (keys (current_weights (self w))))
      (rename_columns df) = (Ok u, df2) ->
    fvi_run l w
      (Ok (weighted_index df2 (current_weights (self w))
             (intersection (columns (rename_columns df))
                           (keys (current_weights (self w))))),
       {| heap := heap w ++ [df2];
          self := set_scores_df (self w) (List.length (heap w)) |},
       log_computed).

Lemma compute_fvi_run (l : loc) (w : World) : fvi_run l w (compute_fvi l w).
Proof.
  unfold compute_fvi.
  destruct (nth_error (heap w) l) as [df|] eqn:Hl; [|now constructor].
  destruct (empty df) eqn:He; [now econstructor; eauto|].
  unfold alloc.
  change (current_weights (set_scores_df (self w) (List.length (heap w))))
    with (current_weights (self w)).
  destruct (intersection _ _) as [|c cs] eqn:Hi.
  - rewrite store_fresh. now apply run_no_overlap.
  - destruct (fill_missing (c :: cs) (rename_columns df)) as [[u|e] df2] eqn:Hf;
      rewrite store_fresh.
    + pose proof (@run_ok l w df u df2 Hl He) as R. rewrite Hi in R.
      apply R; [discriminate | exact Hf].
    + pose proof (@run_raise l w df e df2 Hl He) as R. rewrite Hi in R.
      apply R; [discriminate | exact Hf].
Qed.

(** What a call of [compute_fvi] does to the world: the aggregator's
    weights and persona are kept, the heap is extended by at most one new
    frame (the working copy), and [scores_df] is kept or points there. *)
Definition extends (w w' : World) : Prop :=
  weights (self w') = weights (self w) /\
  current_persona (self w') = current_persona (self w) /\
  current_weights (self w') = current_weights (self w) /\
  (w' = w \/
   exists df', heap w' = heap w ++ [df'] /\
               scores_df (self w') = Some (List.length (heap w))).

Lemma compute_fvi_extends (l : loc) (w : World) :
  extends w (snd (fst (compute_fvi l w))).
Proof.
  unfold extends.
  destruct (compute_fvi_run l w); simpl; repeat split; eauto.
Qed.

Lemma extends_heap (w w' : World) :
  extends w w' -> exists ext, heap w' = heap w ++ ext.
Proof.
  intros (_ & _ & _ & [-> | [df' [H _]]]).
  - exists []. now rewrite app_nil_r.
  - now exists [df'].
Qed.

Lemma extends_lookup (w w' : World) (l : loc) :
  extends w w' -> (l < List.length (heap w))%nat ->
  nth_error (heap w') l = nth_error (heap w) l.
Proof.
  intros E H. destruct (extends_heap E) as [ext ->].
  now apply nth_error_app1.
Qed.

(** The outcome of [compute_fvi] is a function of the caller's frame and
    of the active weight vector alone. *)
Lemma compute_fvi_outcome_ext (l : loc) (w1 w2 : World) :
  nth_error (heap w1) l = nth_error (heap w2) l ->
  current_weights (self w1) = current_weights (self w2) ->
  fst (fst (compute_fvi l w1)) = fst (fst (compute_fvi l w2)) /\
  snd (compute_fvi l w1) = snd (compute_fvi l w2).
Proof.
  intros H1 H2. unfold compute_fvi, alloc. rewrite H1.
  destruct (nth_error (heap w2) l) as [df|]; [|now split].
  destruct (empty df); [now split|].
  change (current_weights (set_scores_df (self w1) (List.length (heap w1))))
    with (current_weights (self w1)).
  change (current_weights (set_scores_df (self w2) (List.length (heap w2))))
    with (current_weights (self w2)).
  rewrite H2.
  destruct (intersection _ _) as [|c cs]; [now split|].
  destruct (fill_missing (c :: cs) (rename_columns df)) as [[u|e] df2]; now split.
Qed.

(** [set_persona] touches the persona and the weight vector only. *)
Lemma set_persona_frame (p : string) (w : World) :
  let w' := snd (fst (set_persona p w)) in
  heap w' = heap w /\
  scores_df (self w') = scores_df (self w) /\
  weights (self w') = weights (self w).
Proof.
  unfold set_persona.
  destruct (get (weights (self w)) _); simpl; tauto.
Qed.

(** Frames that existed before a call are still there after it. *)
Lemma compute_fvi_heap_prefix (l : loc) (w : World) :
  let w' := snd (fst (compute_fvi l w)) in
  (forall l0, nth_error (heap w) l0 <> None ->
              nth_error (heap w') l0 = nth_error (heap w) l0) /\
  nth_error (heap w') l = nth_error (heap w) l /\
  firstn (List.length (heap w)) (heap w') = heap w.
Proof.
  destruct (compute_fvi_run l w) as [H|df H|df H|df e df2 H|df u df2 H]; simpl.
  1, 2: repeat split; intros; try reflexivity; apply firstn_all.
  all: repeat split; [| |apply firstn_prefix].
  all: intros; apply nth_error_app1, nth_error_Some; congruence.
Qed.

(** ** Personas *)

(** The invariant of the class: the active weight vector is the profile of
    the active persona; the only persona that may lack a profile is the
    initial "analyst" (a configuration that does not define it). *)
Definition consistent (a : FVI_Aggregator) : Prop :=
  match get (weights a) (current_persona a) with
  | Some cw => current_weights a = cw
  | None => current_persona a = "analyst"%string
  end.

(** The worlds a program can bring about: an aggregator is built by
    [__init__] and then changed by its methods only, while the caller is
    free to create and change frames. *)
Inductive reachable : World -> Prop :=
| reach_init pw h :
    reachable {| heap := h; self := __init__ pw |}
| reach_frames w h :
    reachable w -> reachable {| heap := h; self := self w |}
| reach_set_persona w p :
    reachable w -> reachable (snd (fst (set_persona p w)))
| reach_compute_fvi w l :
    reachable w -> reachable (snd (fst (compute_fvi l w)))
| reach_compare_personas w l :
    reachable w -> reachable (snd (fst (compare_personas l w))).

Lemma init_consistent pw : consistent (__init__ pw).
Proof.
  unfold consistent, __init__; simpl.
  now destruct (get _ "analyst"%string).
Qed.

Lemma set_persona_consistent p w :
  consistent (self (snd (fst (set_persona p w)))).
Proof.
  unfold consistent, set_persona.
  destruct (has_key (weights (self w)) p) eqn:K.
  - destruct (get (weights (self w)) p) as [cw|] eqn:G; simpl; rewrite G.
    + reflexivity.
    + apply get_has_key in K. destruct K as [v K]. congruence.
  - destruct (get (weights (self w)) "analyst"%string) as [cw|] eqn:G; simpl; now rewrite G.
Qed.

Lemma compute_fvi_consistent l w :
  consistent (self w) -> consistent (self (snd (fst (compute_fvi l w)))).
Proof.
  destruct (compute_fvi_extends l w) as (Hw & Hp & Hc & _).
  unfold consistent. now rewrite Hw, Hp, Hc.
Qed.

Lemma compare_loop_consistent personas l : forall w results log,
  consistent (self w) ->
  consistent (self (snd (fst (compare_loop personas l w results log)))).
Proof.
  induction personas as [|p rest IH]; intros w results log Hc; simpl; [assumption|].
  pose proof (set_persona_consistent p w) as H1.
  destruct (set_persona p w) as [[[u|e] w1] log1]; simpl in *; [|assumption].
  pose proof (compute_fvi_consistent l w1 H1) as H2.
  destruct (compute_fvi l w1) as [[[fvi|e] w2] log2]; simpl in *; [|assumption].
  now apply IH.
Qed.

Lemma compare_personas_consistent l w :
  consistent (self w) -> consistent (self (snd (fst (compare_personas l w)))).
Proof.
  intros Hc. unfold compare_personas.
  pose proof (compare_loop_consistent (keys (weights (self w))) l w [] [] Hc) as H1.
  destruct (compare_loop _ l w [] []) as [[[r|e] w1] log1]; simpl in *; [|assumption].
  pose proof (set_persona_consistent (current_persona (self w)) w1) as H2.
  now destruct (set_persona _ w1) as [[[u|e] w2] log2].
Qed.

Lemma reachable_consistent w : reachable w -> consistent (self w).
Proof.
  induction 1; simpl.
  - apply init_consistent.
  - assumption.
  - apply set_persona_consistent.
  - now apply compute_fvi_consistent.
  - now apply compare_personas_consistent.
Qed.

(** The composite index of the frame at [l] for the weight vector [cw]:
    what [compute_fvi] returns when [cw] is the active weight vector.
    Nothing else of the aggregator enters (see [compute_fvi_outcome_ext]),
    and no call of [set_persona] is involved. *)
Definition index_with (l : loc) (w : World) (cw : dict F) : outcome Series :=
  fst (fst (compute_fvi l
              (with_self w {| weights := weights (self w);
                              current_persona := current_persona (self w);
                              current_weights := cw;
                              scores_df := scores_df (self w) |}))).

Lemma get_set_same {V} (d : dict V) k v : get (set d k v) k = Some v.
Proof.
  induction d as [|[k' v'] r IH]; simpl.
  - now rewrite String.eqb_refl.
  - destruct (String.eqb k k') eqn:E; simpl; rewrite E; [reflexivity | exact IH].
Qed.

Lemma get_set_other {V} (d : dict V) k k' v : k' <> k -> get (set d k v) k' = get d k'.
Proof.
  intros Hne. induction d as [|[k0 v0] r IH]; simpl.
  - destruct (String.eqb k' k) eqn:E; [apply String.eqb_eq in E; contradiction | reflexivity].
  - destruct (String.eqb k k0) eqn:E; simpl.
    + apply String.eqb_eq in E. subst k0.
      destruct (String.eqb k' k) eqn:E'; [apply String.eqb_eq in E'; contradiction | reflexivity].
    + destruct (String.eqb k' k0); [reflexivity | exact IH].
Qed.

Lemma set_persona_known p w cw :
  get (weights (self w)) p = Some cw ->
  exists log,
    set_persona p w =
      (Ok tt,
       with_self w {| weights := weights (self w); current_persona := p;
                      current_weights := cw; scores_df := scores_df (self w) |},
       log).
Proof.
  intros G. unfold set_persona.
  assert (has_key (weights (self w)) p = true) as K by (apply get_has_key; eauto).
  rewrite K, G. simpl. eauto.
Qed.

(** The loop of [compare_personas], when it runs to its end: each persona
    of the list is mapped to its index, the other entries of [results] are
    kept, and neither the profiles nor the caller's frame change. *)
Lemma compare_loop_ok l w0 personas : forall w results log r w' log',
  weights (self w) = weights (self w0) ->
  nth_error (heap w) l = nth_error (heap w0) l ->
  (forall p, In p personas -> has_key (weights (self w0)) p = true) ->
  compare_loop personas l w results log = (Ok r, w', log') ->
  weights (self w') = weights (self w0) /\
  nth_error (heap w') l = nth_error (heap w0) l /\
  (forall p cw, In p personas -> get (weights (self w0)) p = Some cw ->
     exists fvi, get r p = Some fvi /\ index_with l w0 cw = Ok fvi) /\
  (forall p, ~ In p personas -> get r p = get results p).
Proof.
  induction personas as [|p rest IH]; intros w results log r w' log' Hw Hl Hk Hrun;
    simpl in Hrun.
  - inversion Hrun; subst. repeat split; auto. intros p cw [].
  - assert (exists cw, get (weights (self w0)) p = Some cw) as [cw G]
      by (apply get_has_key, Hk; now left).
    destruct (@set_persona_known p w cw) as [log1 S1]; [now rewrite Hw|].
    rewrite S1 in Hrun.
    set (w1 := with_self w _) in *.
    pose proof (compute_fvi_extends l w1) as E.
    pose proof (compute_fvi_heap_prefix l w1) as (_ & P & _).
    assert (fst (fst (compute_fvi l w1)) = index_with l w0 cw) as O.
    { unfold index_with. apply compute_fvi_outcome_ext; simpl; auto. }
    destruct (compute_fvi l w1) as [[[fvi|e] w2] log2]; simpl in *; [|discriminate].
    destruct E as (Ew & _ & _ & _).
    assert (weights (self w2) = weights (self w0)) as Hw2
      by (rewrite Ew; subst w1; simpl; exact Hw).
    assert (nth_error (heap w2) l = nth_error (heap w0) l) as Hl2
      by (rewrite P; subst w1; simpl; exact Hl).
    apply IH in Hrun; [|exact Hw2 | exact Hl2 | intros; apply Hk; now right].
    destruct Hrun as (R1 & R2 & R3 & R4). repeat split; auto.
    + intros q cq [->|Hq] Gq.
      * destruct (in_dec string_dec q rest) as [Hin|Hnin]; [now apply R3|].
        assert (cq = cw) as -> by congruence.
        exists fvi. rewrite (R4 _ Hnin), get_set_same. split; [reflexivity | now rewrite <- O].
      * now apply R3.
    + intros q Hq. rewrite R4 by tauto. apply get_set_other. intros ->. apply Hq. now left.
Qed.

End Frame.

(** C10.  [compute_fvi] never changes the caller's data frame: whatever
    the call returns or raises, every frame that existed before the call
    (the argument [l] among them) is found unchanged afterwards, labels and
    values alike; renaming and filling act on a copy allocated behind
    them. *)
Theorem compute_fvi_leaves_argument_unchanged :
  forall (N : Num) (l : loc) (w : World),
    let w' := snd (fst (compute_fvi l w)) in
    nth_error (heap w') l = nth_error (heap w) l /\
    firstn (List.length (heap w)) (heap w') = heap w.
Proof.
  intros N l w. apply (compute_fvi_heap_prefix l w).
Qed.

(** C8.  When [compare_personas] returns, the active persona and the
    active weight vector are what they were before the call, the stored
    profiles are untouched, and the result holds for each defined persona
    [p] exactly the composite index of the frame for the profile
    [weights[p]] (and nothing for any other name).  [set_persona] itself
    changes the persona and the weight vector only: the heap of frames,
    the reference [scores_df] and the profiles stay as they were; and on a
    defined persona it makes that persona the active one and its profile
    the active weight vector. *)
Theorem compare_personas_restores_persona :
  forall (N : Num) (l : loc) (w w' : World) (results : dict Series)
         (log : list log_record),
    reachable w ->
    compare_personas l w = (Ok results, w', log) ->
    current_persona (self w') = current_persona (self w) /\
    current_weights (self w') = current_weights (self w) /\
    weights (self w') = weights (self w) /\
    (forall p cw, get (weights (self w)) p = Some cw ->
       exists fvi, get results p = Some fvi /\ index_with l w cw = Ok fvi) /\
    (forall p, ~ In p (keys (weights (self w))) -> get results p = None) /\
    (forall p w0,
       let w1 := snd (fst (set_persona p w0)) in
       heap w1 = heap w0 /\
       scores_df (self w1) = scores_df (self w0) /\
       weights (self w1) = weights (self w0) /\
       forall cw, get (weights (self w0)) p = Some cw ->
                  current_persona (self w1) = p /\
                  current_weights (self w1) = cw).
Proof.
  intros N l w w' results log Hr Hrun.
  apply reachable_consistent in Hr.
  assert (forall p w0,
             let w1 := snd (fst (set_persona p w0)) in
             heap w1 = heap w0 /\
             scores_df (self w1) = scores_df (self w0) /\
             weights (self w1) = weights (self w0) /\
             forall cw, get (weights (self w0)) p = Some cw ->
                        current_persona (self w1) = p /\
                        current_weights (self w1) = cw) as Frame.
  { intros p w0. destruct (set_persona_frame p w0) as (F1 & F2 & F3).
    cbv zeta. split; [exact F1|]. split; [exact F2|]. split; [exact F3|].
    intros cw G. destruct (@set_persona_known N p w0 cw G) as [lg ->]. now split. }
  unfold compare_personas in Hrun.
  destruct (compare_loop _ l w [] []) as [[[r|e] w1] log1] eqn:L; [|discriminate].
  apply compare_loop_ok with (w0 := w) in L; auto;
    [|intros p Hp; now apply mem_In].
  destruct L as (Lw & _ & L3 & L4).
  assert (forall p cw, get (weights (self w)) p = Some cw ->
            exists fvi, get r p = Some fvi /\ index_with l w cw = Ok fvi) as Each.
  { intros p cw G. apply (L3 p cw); [|exact G].
    apply mem_In. apply get_has_key. eauto. }
  unfold set_persona in Hrun. rewrite Lw in Hrun.
  unfold consistent in Hr.
  destruct (has_key (weights (self w)) (current_persona (self w))) eqn:K.
  - destruct (get (weights (self w)) (current_persona (self w))) as [cw|] eqn:G;
      [|discriminate].
    inversion Hrun; subst; simpl.
    split; [reflexivity|]. split; [reflexivity|].
    split; [first [reflexivity | exact Lw]|].
    split; [exact Each|]. split; [|exact Frame].
    intros p Hp. now rewrite (L4 p Hp).
  - destruct (get (weights (self w)) (current_persona (self w))) as [cw|] eqn:G.
    + assert (has_key (weights (self w)) (current_persona (self w)) = true)
        by (apply get_has_key; eauto). congruence.
    + rewrite <- Hr in Hrun. rewrite G in Hrun. discriminate.
Qed.

(** C3 (as amended).  When the normalised column names of the frame share
    no name with the keys of the active weight vector, [compute_fvi]
    returns the empty series, never a number.  On a frame that is not empty
    the three records it logs are errors; an empty frame is stopped by the
    guard before and gets the warning of that guard instead. *)
Theorem compute_fvi_no_overlap :
  forall (N : Num) (l : loc) (w : World) (df : DataFrame),
    nth_error (heap w) l = Some df ->
    intersection (map normalize_name (columns df))
                 (keys (current_weights (self w))) = [] ->
    fst (fst (compute_fvi l w)) = Ok [] /\
    (empty df = false ->
       snd (compute_fvi l w) = log_no_overlap /\
       logged ERROR (snd (compute_fvi l w)) = true) /\
    (empty df = true ->
       snd (compute_fvi l w) = log_empty /\
       logged ERROR (snd (compute_fvi l w)) = false).
Proof.
  intros N l w df Hl Hi.
  change (map normalize_name (columns df)) with (columns (rename_columns df)) in Hi.
  destruct (compute_fvi_run l w) as [H|df' H He|df' H He Hi'|df' e df2 H He Hi'|df' u df2 H He Hi'];
    simpl; try congruence.
  all: assert (df' = df) as -> by congruence; try congruence.
  all: split; [reflexivity|]; split; intros He'; try congruence.
  all: split; reflexivity.
Qed.

End aggregator_frame.

(* ================================================================== *)
(** * The aggregator in exact arithmetic                                *)
(* ================================================================== *)

Module aggregator_exact.

Import fvi_aggregator aggregator_frame.

#[local] Existing Instance xq_num.

Local Open Scope Q_scope.

(** Brings the operations of the interface, taken at [xq_num], to their
    definitions. *)
Ltac xq_norm :=
  change (@F xq_num) with xq in *;
  change (@nan xq_num) with NaN in *;
  change (@of_Q xq_num) with Fin in *;
  change (@fadd xq_num) with XQ.add in *;
  change (@fsub xq_num) with XQ.sub in *;
  change (@fmul xq_num) with XQ.mul in *;
  change (@fdiv xq_num) with XQ.div in *;
  change (@fltb xq_num) with XQ.ltb in *;
  change (@fleb xq_num) with XQ.leb in *;
  change (@feqb xq_num) with XQ.eqb in *;
  change (@is_nan xq_num) with XQ.isnan in *;
  change (@f0 xq_num) with (Fin 0) in *;
  change (@f1 xq_num) with (Fin 1) in *;
  change (@f2 xq_num) with (Fin 2) in *;
  change (@f50 xq_num) with (Fin 50) in *;
  change (@f100 xq_num) with (Fin 100) in *.

(** ** Finite values *)

Definition all_fin (l : list xq) : bool := forallb finite l.
Definition all_ok (l : list xq) : bool := forallb finite_or_nan l.

(** Every cell of the frame is a rational or missing. *)
Definition cells_ok (df : DataFrame) : bool := forallb all_ok (data df).

(** Every weight of the profile is a rational. *)
Definition weights_ok (cw : dict xq) : bool := forallb (fun kv => finite (snd kv)) cw.

Definition toQ (x : xq) : Q := match x with Fin q => q | _ => 0 end.

Lemma finite_inv x : finite x = true -> x = Fin (toQ x).
Proof. destruct x; simpl; congruence. Qed.



Lemma all_fin_nth l i : all_fin l = true -> (i < List.length l)%nat -> finite (nth i l NaN) = true.
Proof.
  unfold all_fin. rewrite forallb_forall. intros H Hi. apply H, nth_In, Hi.
Qed.

Ltac case_if :=
  match goal with
  | |- context [if ?b then _ else _] => destruct b eqn:?
  end.

Lemma insert_sorted_fin (x : xq) (l : list xq) :
  finite x = true -> all_fin l = true -> all_fin (insert_sorted x l) = true.
Proof.
  intros Hx. induction l as [|y r IH]; simpl; intros Hl.
  - now rewrite Hx.
  - apply andb_prop in Hl. destruct Hl as [Hy Hr].
    case_if; simpl; rewrite ?Hx, ?Hy, ?Hr, ?IH; auto.
Qed.

Lemma insert_sorted_length (x : xq) (l : list xq) :
  List.length (insert_sorted x l) = S (List.length l).
Proof.
  induction l as [|y r IH]; simpl; [reflexivity|].
  case_if; simpl; [reflexivity | f_equal; exact IH].
Qed.

Lemma sort_fin (l : list xq) : all_fin l = true -> all_fin (sort l) = true.
Proof.
  induction l as [|x r IH]; simpl; [reflexivity|]. intros H.
  apply andb_prop in H. destruct H as [Hx Hr]. apply insert_sorted_fin; auto.
Qed.

Lemma sort_length (l : list xq) : List.length (sort l) = List.length l.
Proof.
  induction l as [|x r IH]; simpl; [reflexivity|].
  xq_norm. rewrite insert_sorted_length. f_equal. exact IH.
Qed.

Lemma dropna_fin (l : list xq) : all_ok l = true -> all_fin (dropna l) = true.
Proof.
  unfold all_ok, all_fin, dropna. rewrite !forallb_forall. intros H x Hx.
  apply filter_In in Hx. destruct Hx as [Hin Hn]. specialize (H x Hin).
  destruct x; try reflexivity; try discriminate H. discriminate Hn.
Qed.

(** The median of rationals and missing values is a rational, or NaN when
    every value is missing. *)
Lemma median_fin_or_nan (s : list xq) :
  all_ok s = true -> median s = NaN \/ finite (median s) = true.
Proof.
  intros H. unfold median.
  pose proof (sort_fin _ (dropna_fin _ H)) as Hv.
  set (v := sort (dropna s)) in *.
  destruct (Nat.eqb_spec (List.length v) 0) as [|Hn]; [now left|]. right.
  assert (List.length v / 2 < List.length v)%nat as H2
    by (apply Nat.div_lt; lia).
  xq_norm.
  destruct (Nat.odd (List.length v)).
  - now apply all_fin_nth.
  - rewrite (@finite_inv _ (@all_fin_nth v _ Hv H2)).
    assert (List.length v / 2 - 1 < List.length v)%nat as H1 by lia.
    rewrite (@finite_inv _ (@all_fin_nth v _ Hv H1)). reflexivity.
Qed.

(** The value that fills a column: its median, or 50. *)
Definition fill_value (s : list xq) : xq :=
  if is_nan (median s) then f50 else median s.

Lemma fill_value_fin (s : list xq) : all_ok s = true -> finite (fill_value s) = true.
Proof.
  intros H. unfold fill_value.
  destruct (median_fin_or_nan s H) as [-> | Hf]; [reflexivity|].
  destruct (median s); simpl in *; congruence.
Qed.


(** ** Columns by label *)

Lemma combine_map2 {A B} (f : A -> B -> B) (ks : list A) : forall ds,
  combine ks (map2 f ks ds) = map (fun p => (fst p, f (fst p) (snd p))) (combine ks ds).
Proof.
  induction ks as [|k ks IH]; intros [|d ds]; simpl; try reflexivity.
  now rewrite IH.
Qed.

Lemma select_assign_aux (kv : list (string * list xq)) (c c' : string) (v : list xq) :
  map snd (filter (fun p => String.eqb (fst p) c')
             (map (fun p => (fst p, if String.eqb (fst p) c then v else snd p)) kv)) =
    if String.eqb c' c
    then map (fun _ => v) (map snd (filter (fun p => String.eqb (fst p) c') kv))
    else map snd (filter (fun p => String.eqb (fst p) c') kv).
Proof.
  induction kv as [|[k d] r IH]; simpl.
  - now destruct (String.eqb c' c).
  - destruct (String.eqb k c') eqn:E; simpl.
    + apply String.eqb_eq in E. subst k.
      destruct (String.eqb c' c) eqn:E'; simpl; now rewrite IH, ?E'.
    + rewrite IH. reflexivity.
Qed.

Lemma select_assign (df : DataFrame) (c c' : string) (v : list xq) :
  select (assign df c v) c' =
    if String.eqb c' c then map (fun _ => v) (select df c') else select df c'.
Proof.
  unfold select, assign; simpl. rewrite combine_map2. apply select_assign_aux.
Qed.

Lemma select_in_data (df : DataFrame) (c : string) (s : list xq) :
  In s (select df c) -> In s (data df).
Proof.
  unfold select. intros H. apply in_map_iff in H. destruct H as [[k d] [<- H]].
  apply filter_In in H. destruct H as [H _]. now apply in_combine_r in H.
Qed.

Lemma select_ok (df : DataFrame) (c : string) (s : list xq) :
  cells_ok df = true -> In s (select df c) -> all_ok s = true.
Proof.
  unfold cells_ok. rewrite forallb_forall. intros H Hs.
  apply H. eapply select_in_data, Hs.
Qed.




(** ** Rescaling the weights *)











Lemma weights_ok_get (cw : dict xq) k x :
  weights_ok cw = true -> get cw k = Some x -> finite x = true.
Proof.
  unfold weights_ok. induction cw as [|[k' v] r IH]; simpl; [discriminate|].
  intros H. apply andb_prop in H. destruct H as [Hv Hr].
  destruct (String.eqb k k'); [intros [= <-]; exact Hv | now apply IH].
Qed.


Lemma Qlt_bool_iff a b : Qlt_bool a b = true <-> a < b.
Proof.
  unfold Qlt_bool. rewrite negb_true_iff. split.
  - intros H. apply Qnot_le_lt. intros Hle. apply Qle_bool_iff in Hle. congruence.
  - intros H. destruct (Qle_bool b a) eqn:E; [|reflexivity].
    apply Qle_bool_iff in E. lra.
Qed.


#[local] Instance Qlt_bool_comp : Proper (Qeq ==> Qeq ==> eq) Qlt_bool.
Proof. intros a a' Ha b b' Hb. unfold Qlt_bool. now rewrite Ha, Hb. Qed.

#[local] Instance Qeq_bool_comp : Proper (Qeq ==> Qeq ==> eq) Qeq_bool.
Proof.
  intros a a' Ha b b' Hb. destruct (Qeq_bool a' b') eqn:E.
  - apply Qeq_bool_iff in E. apply Qeq_bool_iff. now rewrite Ha, Hb.
  - apply Qeq_bool_neq in E. destruct (Qeq_bool a b) eqn:E'; [|reflexivity].
    apply Qeq_bool_iff in E'. exfalso. apply E. now rewrite <- Ha, <- Hb.
Qed.








(** ** The composite index as a weighted mean *)

(** What the specification names: the score of a country in a column
    once the gaps are filled (the score itself, else the median of the
    column, else 50), the weight of a column, and the weighted mean. *)
Definition column (df : DataFrame) (c : string) : list xq := hd [] (select df c).

Definition filled_score (s : list xq) (i : nat) : Q :=
  match nth i s NaN with
  | Fin q => q
  | _ => toQ (fill_value s)
  end.

Definition weight (cw : dict xq) (c : string) : Q :=
  match get cw c with
  | Some x => toQ x
  | None => 0
  end.

Definition Qsum (l : list Q) : Q := fold_right Qplus 0 l.

Definition weighted_mean (df : DataFrame) (cw : dict xq) (cols : list string) (i : nat) : Q :=
  Qsum (map (fun c => filled_score (column df c) i * weight cw c) cols)
  / Qsum (map (weight cw) cols).

Definition clamp (x : Q) : Q :=
  if Qlt_bool x 0 then 0 else if Qlt_bool 100 x then 100 else x.

(** A frame as pandas builds it: one list of cells per column label, each
    as long as the index. *)
Definition well_formed (df : DataFrame) : bool :=
  (List.length (data df) =? List.length (columns df))%nat &&
  forallb (fun s => (List.length s =? List.length (index df))%nat) (data df).

Lemma clamp_range x : 0 <= clamp x <= 100.
Proof.
  unfold clamp. destruct (Qlt_bool x 0) eqn:E1; [lra|].
  destruct (Qlt_bool 100 x) eqn:E2; [lra|].
  assert (~ x < 0) as N1 by (intros A; apply Qlt_bool_iff in A; congruence).
  assert (~ 100 < x) as N2 by (intros A; apply Qlt_bool_iff in A; congruence).
  lra.
Qed.

#[local] Instance clamp_comp : Proper (Qeq ==> Qeq) clamp.
Proof.
  intros a b H. unfold clamp.
  assert (Qlt_bool a 0 = Qlt_bool b 0) as -> by now rewrite H.
  assert (Qlt_bool 100 a = Qlt_bool 100 b) as -> by now rewrite H.
  destruct (Qlt_bool b 0); [reflexivity|]. destruct (Qlt_bool 100 b); [reflexivity|exact H].
Qed.


(** ** Row sums *)

(** [l] holds, row by row, the rationals [f 0], ..., [f (n-1)]. *)
Definition rows (n : nat) (f : nat -> Q) (l : list xq) : Prop :=
  List.length l = n /\
  forall i, (i < n)%nat -> exists q, nth_error l i = Some (Fin q) /\ q == f i.







(** ** The filling loop, column by column *)

Lemma In_unique l x : In x (unique l) <-> In x l.
Proof.
  induction l as [|y r IH]; simpl; [tauto|].
  rewrite filter_In, IH, negb_true_iff.
  destruct (String.eqb y x) eqn:E.
  - apply String.eqb_eq in E. intuition congruence.
  - apply String.eqb_neq in E. intuition congruence.
Qed.

Lemma NoDup_unique l : NoDup (unique l).
Proof.
  induction l as [|y r IH]; simpl; constructor.
  - rewrite filter_In, String.eqb_refl. simpl. intros [_ H]. discriminate.
  - now apply NoDup_filter.
Qed.

Lemma In_intersection left right x :
  In x (intersection left right) <-> In x left /\ mem x right = true.
Proof. unfold intersection. now rewrite In_unique, filter_In. Qed.

Lemma fill_missing_spec cols : forall (df : DataFrame),
  NoDup cols ->
  (forall c, In c cols -> exists s, select df c = [s]) ->
  exists df2,
    fill_missing cols df = (Ok tt, df2) /\
    index df2 = index df /\
    (forall c s, In c cols -> select df c = [s] ->
                 select df2 c = [fillna (fill_value s) s]) /\
    (forall c, ~ In c cols -> select df2 c = select df c).
Proof.
  induction cols as [|a rest IH]; intros df Hnd Hs; simpl.
  - exists df. repeat split; auto. intros c s [].
  - destruct (Hs a (or_introl eq_refl)) as [s Ha]. xq_norm. rewrite Ha.
    inversion Hnd as [|? ? Hnin Hnd']; subst.
    set (df' := assign df a (fillna (if XQ.isnan (median s) then Fin 50 else median s) s)).
    assert (forall c, c <> a -> select df' c = select df c) as Hother.
    { intros c Hc. unfold df'. rewrite select_assign.
      destruct (String.eqb c a) eqn:E; [apply String.eqb_eq in E; contradiction | reflexivity]. }
    destruct (IH df' Hnd') as (df2 & R1 & R2 & R3 & R4).
    { intros c Hc. rewrite Hother; [apply Hs; now right | intros ->; contradiction]. }
    exists df2. split; [exact R1|]. split; [exact R2|]. split.
    + intros c s0 [<-|Hc] Hc0.
      * rewrite R4 by assumption. unfold df'. rewrite select_assign, String.eqb_refl, Ha.
        assert (s0 = s) as -> by congruence. reflexivity.
      * apply R3; [assumption|]. rewrite Hother; [assumption | intros ->; contradiction].
    + intros c Hc. rewrite R4 by tauto. apply Hother. intros ->. apply Hc. now left.
Qed.

Lemma select_length (ks : list string) (c : string) : forall (ds : list (list xq)),
  List.length ds = List.length ks ->
  List.length (map snd (filter (fun p => String.eqb (fst p) c) (combine ks ds)))
  = count_occ string_dec ks c.
Proof.
  induction ks as [|k ks IH]; intros [|d ds] H; simpl in *; try discriminate; [reflexivity|].
  injection H as H. destruct (string_dec k c) as [->|Hne].
  - rewrite String.eqb_refl. simpl. now rewrite IH.
  - apply String.eqb_neq in Hne. rewrite Hne. now apply IH.
Qed.

Lemma select_singleton (df : DataFrame) (c : string) :
  well_formed df = true ->
  count_occ string_dec (columns df) c = 1%nat ->
  exists s, select df c = [s] /\ List.length s = List.length (index df).
Proof.
  unfold well_formed. intros Hwf Hc. apply andb_prop in Hwf. destruct Hwf as [H1 H2].
  apply Nat.eqb_eq in H1.
  assert (List.length (select df c) = 1%nat) as L
    by (unfold select; rewrite <- Hc; now apply select_length).
  destruct (select df c) as [|s [|s' t]] eqn:E; try discriminate.
  exists s. split; [reflexivity|].
  rewrite forallb_forall in H2. apply Nat.eqb_eq, H2.
  apply select_in_data with (c := c). rewrite E. now left.
Qed.







Lemma well_formed_rename (df : DataFrame) :
  well_formed (rename_columns df) = well_formed df.
Proof. unfold well_formed, rename_columns. simpl. now rewrite length_map. Qed.

(** Duplicate labels: none of the weighted names is carried by two
    columns. *)
Definition weighted_once (df : DataFrame) (cols : list string) : Prop :=
  forall c, In c cols ->
    count_occ string_dec (map normalize_name (columns df)) c = 1%nat.

(** ** The built-in personas *)

Definition positive_weights (cw : dict xq) : bool :=
  weights_ok cw && forallb (fun k => Qlt_bool 0 (weight cw k)) (keys cw).

Lemma get_In {V} (d : dict V) (k : string) (v : V) : get d k = Some v -> In (k, v) d.
Proof.
  induction d as [|[k' v'] d IH]; simpl; [discriminate|].
  destruct (String.eqb k k') eqn:E.
  - apply String.eqb_eq in E. intros H. injection H as <-. subst. now left.
  - intros H. right. now apply IH.
Qed.

Lemma Qsum_positive (f : string -> Q) (l : list string) :
  l <> [] -> (forall c, In c l -> 0 < f c) -> 0 < Qsum (map f l).
Proof.
  destruct l as [|a l]; [congruence|]. intros _ H.
  assert (0 <= Qsum (map f l)) as Hl.
  { induction l as [|b l IH]; simpl; [lra|].
    assert (0 < f b) by (apply H; right; now left).
    assert (0 <= Qsum (map f l)) by (apply IH; intros c [<-|Hc]; apply H; simpl; auto).
    lra. }
  simpl. assert (0 < f a) by (apply H; now left). lra.
Qed.

(** Every weight of the five default profiles is a positive rational, so
    whatever dimensions a frame shares with one of them, the weights are
    usable and their sum is not zero. *)
Lemma default_weights_positive (p : string) (cw : dict xq) (names : list string) :
  get default_weights p = Some cw ->
  intersection names (keys cw) <> [] ->
  weights_ok cw = true /\ ~ Qsum (map (weight cw) (intersection names (keys cw))) == 0.
Proof.
  intros G Hne.
  assert (forallb (fun pcw => positive_weights (snd pcw)) default_weights = true) as Hall
    by (vm_compute; reflexivity).
  rewrite forallb_forall in Hall. specialize (Hall _ (get_In _ _ G)).
  unfold positive_weights in Hall. cbn [snd] in Hall.
  apply andb_true_iff in Hall. destruct Hall as [Hw Hp]. split; [exact Hw|].
  rewrite forallb_forall in Hp.
  assert (0 < Qsum (map (weight cw) (intersection names (keys cw)))) as Hs.
  { apply Qsum_positive; [exact Hne|]. intros c Hc.
    apply In_intersection in Hc. destruct Hc as [_ Hc].
    apply mem_In in Hc. apply Qlt_bool_iff. now apply Hp. }
  lra.
Qed.



End aggregator_exact.

(* ================================================================== *)
(** * Properties of the utilities                                       *)
(* ================================================================== *)

Module utils_properties.

Import utils.

Local Open Scope string_scope.

(** C9.  [standardize_country_name] returns [None] exactly on [None] and
    on a missing value.  On a string it returns a string: the canonical
    name when the trimmed string, in upper case, is a known ISO3 code;
    else the canonical name when the trimmed string is a known alias; else
    the trimmed string itself.  The function is total: it has no step
    that can raise. *)
Theorem standardize_country_name_cases :
  forall name : pyval,
    (standardize_country_name name = None <-> name = VNone \/ name = VNaN) /\
    (forall s, name = VStr s ->
       (forall canonical,
          get COUNTRY_MAPPING (upper (strip s)) = Some canonical ->
          standardize_country_name name = Some canonical) /\
       (forall canonical,
          get COUNTRY_MAPPING (upper (strip s)) = None ->
          get aliases (strip s) = Some canonical ->
          standardize_country_name name = Some canonical) /\
       (get COUNTRY_MAPPING (upper (strip s)) = None ->
        get aliases (strip s) = None ->
        standardize_country_name name = Some (strip s))).
Proof.
  intros name. split.
  - destruct name as [| |s]; [simpl; tauto | simpl; tauto |].
    unfold standardize_country_name.
    split; [intros H; exfalso | intros [H|H]; discriminate].
    destruct (get COUNTRY_MAPPING (upper (strip s))); [discriminate|].
    destruct (get aliases (strip s)); discriminate.
  - intros s ->. unfold standardize_country_name.
    repeat split.
    + intros c ->. reflexivity.
    + intros c -> ->. reflexivity.
    + intros -> ->. reflexivity.
Qed.

Example standardize_iso3_lower_case :
  standardize_country_name (VStr "  usa ") = Some "United States".
Proof. reflexivity. Qed.

Example standardize_alias :
  standardize_country_name (VStr "Russian Federation") = Some "Russia".
Proof. reflexivity. Qed.

Example standardize_unknown_is_trimmed :
  standardize_country_name (VStr " Atlantis  ") = Some "Atlantis".
Proof. reflexivity. Qed.

Section Direction.

Context {N : Num}.
Variable zscore : list F -> list F.
Variable zscore_keeps_labels : bool.
Variable percentileofscore : list F -> F -> F.

(** The number of entries before position [i] that are not missing: the
    position of entry [i] among the values that are scaled. *)
Definition present_before (series : list F) (i : nat) : nat :=
  List.length (dropna (firstn i series)).

Lemma dropna_cons_present (x : F) (r : list F) :
  is_nan x = false -> dropna (x :: r) = x :: dropna r.
Proof. intros H. unfold dropna, notna. simpl. now rewrite H. Qed.

Lemma dropna_cons_missing (x : F) (r : list F) :
  is_nan x = true -> dropna (x :: r) = dropna r.
Proof. intros H. unfold dropna, notna. simpl. now rewrite H. Qed.

Lemma dropna_present (series : list F) : forall i x,
  nth_error series i = Some x -> is_nan x = false ->
  nth_error (dropna series) (present_before series i) = Some x.
Proof.
  unfold present_before.
  induction series as [|y r IH]; intros [|i] x Hx Hn;
    cbn [firstn nth_error] in *; try discriminate.
  - injection Hx as ->. now rewrite dropna_cons_present.
  - destruct (is_nan y) eqn:E.
    + rewrite !dropna_cons_missing by assumption. now apply IH.
    + rewrite !dropna_cons_present by assumption. cbn [List.length nth_error].
      now apply IH.
Qed.

Lemma update_present (series : list F) : forall normalized i x v,
  nth_error series i = Some x -> is_nan x = false ->
  nth_error normalized (present_before series i) = Some v ->
  nth_error (update series normalized) i = Some (if is_nan v then f50 else v).
Proof.
  unfold present_before.
  induction series as [|y r IH]; intros n [|i] x v Hx Hn Hv;
    cbn [firstn nth_error update] in *; try discriminate.
  - injection Hx as ->. rewrite Hn.
    destruct n as [|v0 n]; cbn [nth_error List.length] in *; [discriminate|].
    now injection Hv as ->.
  - destruct (is_nan y) eqn:E.
    + rewrite dropna_cons_missing in Hv by assumption. cbn [nth_error]. eapply IH; eauto.
    + rewrite dropna_cons_present in Hv by assumption. cbn [List.length] in Hv.
      destruct n as [|v0 n]; cbn [nth_error] in *; [discriminate|]. eapply IH; eauto.
Qed.

Lemma update_missing (series : list F) : forall normalized i x,
  nth_error series i = Some x -> is_nan x = true ->
  nth_error (update series normalized) i = Some f50.
Proof.
  induction series as [|y r IH]; intros n [|i] x Hx Hn;
    cbn [nth_error update] in *; try discriminate.
  - injection Hx as ->. now rewrite Hn.
  - destruct (is_nan y); [eapply IH; eauto|].
    destruct n; cbn [nth_error]; eapply IH; eauto.
Qed.

(** The direction of [normalize_series], on every series.  Take an entry
    [x] of the series that is not missing and its scaled value [v], under
    a method whose scaled values carry the labels of the series (min-max
    and percentile always do).  With [higher_is_better] the result holds
    [v] unchanged at the entry's place; without it (higher is worse) the
    result holds [100 - v].  A value that is NaN leaves the neutral 50. *)
Lemma normalize_series_direction :
  forall (series : list F) (m : method) (scaled_values : list F)
         (i : nat) (x v : F),
    carries_labels zscore_keeps_labels m = true ->
    scale zscore percentileofscore m (dropna series) = Ok scaled_values ->
    nth_error series i = Some x ->
    is_nan x = false ->
    nth_error scaled_values (present_before series i) = Some v ->
    (exists result,
       normalize_series zscore zscore_keeps_labels percentileofscore series true m
         = Ok result /\
       nth_error result i = Some (if is_nan v then f50 else v)) /\
    (exists result,
       normalize_series zscore zscore_keeps_labels percentileofscore series false m
         = Ok result /\
       nth_error result i =
         Some (if is_nan (fsub f100 v) then f50 else fsub f100 v)).
Proof.
  intros series m n i x v Hm Hs Hx Hn Hv.
  pose proof (dropna_present series i Hx Hn) as Hd.
  unfold normalize_series.
  destruct (dropna series) as [|d ds] eqn:E; [destruct (present_before series i); discriminate|].
  rewrite Hs, Hm. simpl. split; eexists; (split; [reflexivity|]).
  - eapply update_present; eauto.
  - eapply update_present; eauto. rewrite nth_error_map, Hv. reflexivity.
Qed.

End Direction.

(** ** Degenerate ranges, in exact arithmetic *)

Section Degenerate.

Variable zscore : list xq -> list xq.
Variable zscore_keeps_labels : bool.
Variable percentileofscore : list xq -> xq -> xq.

(** All values of the series that are not missing are equal. *)
Definition constant_series (series : list xq) : Prop :=
  forall x y, In x (dropna series) -> In y (dropna series) -> xq_eq x y.

Lemma fold_pick_in (pick : xq -> xq -> bool) : forall (r : list xq) (x : xq),
  In (fold_left (fun m y => if pick y m then y else m) r x) (x :: r).
Proof.
  induction r as [|y r IH]; intros x; simpl; [now left|].
  destruct (IH (if pick y x then y else x)) as [H|H]; [|now right; right].
  destruct (pick y x); rewrite <- H; [right; now left | now left].
Qed.

Lemma series_min_in (s : list xq) : s <> [] -> In (series_min s) s.
Proof.
  destruct s as [|x r]; [congruence|]. intros _.
  apply (fold_pick_in (fun y m => XQ.ltb y m)).
Qed.

Lemma series_max_in (s : list xq) : s <> [] -> In (series_max s) s.
Proof.
  destruct s as [|x r]; [congruence|]. intros _.
  apply (fold_pick_in (fun y m => XQ.ltb m y)).
Qed.

Lemma xq_eq_eqb (x y : xq) :
  XQ.isnan x = false -> xq_eq x y -> XQ.eqb x y = true.
Proof.
  destruct x, y; simpl; try tauto; try discriminate.
  intros _ H. now apply Qeq_bool_iff.
Qed.

Lemma update_neutral (series : list xq) : forall (normalized : list xq),
  Forall (fun v => v = Fin 50) normalized ->
  update series normalized = map (fun _ => Fin 50) series.
Proof.
  induction series as [|x r IH]; intros n Hn; [reflexivity|].
  cbn [update map]. destruct (is_nan x).
  - f_equal. now apply IH.
  - destruct Hn as [|v n Hv Hn]; [f_equal; now apply IH|].
    subst v. cbn. f_equal. now apply IH.
Qed.

Lemma dropna_not_nan (series : list xq) (x : xq) :
  In x (dropna series) -> XQ.isnan x = false.
Proof.
  unfold dropna. rewrite filter_In. intros [_ H]. unfold notna in H.
  now apply negb_true_iff in H.
Qed.

(** C6.  When all values of a series that are not missing are equal --
    in particular when every value is missing -- min-max normalisation
    returns 50 at every place, in either direction, and nothing is
    divided.  Likewise [normalize_score] with [min_val == max_val] returns
    the default value it was given. *)
Theorem degenerate_range_is_neutral :
  forall (series : list xq) (higher_is_better : bool),
    (constant_series series ->
     normalize_series zscore zscore_keeps_labels percentileofscore series
       higher_is_better min_max
       = Ok (map (fun _ => Fin 50) series)) /\
    (forall (N : Num) (value : option F) (min_val max_val default : F),
       feqb min_val max_val = true ->
       normalize_score value min_val max_val default = default).
Proof.
  intros series hib. split.
  - intros Hc. unfold normalize_series.
    destruct (dropna series) as [|d ds] eqn:E; [reflexivity|].
    assert (d :: ds <> []) as Hne by discriminate. rewrite <- E in Hne.
    unfold scale.
    assert (feqb (series_min (dropna series)) (series_max (dropna series)) = true) as Heq.
    { pose proof (series_min_in Hne) as Hmin. pose proof (series_max_in Hne) as Hmax.
      apply xq_eq_eqb; [now apply dropna_not_nan with (series := series) | now apply Hc]. }
    rewrite E in Heq. rewrite Heq. cbn [bind]. f_equal.
    apply update_neutral.
    destruct hib; cbn [negb]; rewrite ?Forall_map; apply Forall_forall; reflexivity.
  - intros N value min_val max_val default H. unfold normalize_score.
    destruct value as [v|]; [|reflexivity].
    destruct (is_nan v); [reflexivity|]. now rewrite H.
Qed.

End Degenerate.

End utils_properties.

(* ================================================================== *)
(** * The metric extractor                                              *)
(* ================================================================== *)

Module extractor.

Import tables utils resource.

Local Open Scope string_scope.

Section SearchOrder.

Context {N : Num}.
Variable py_float : string -> option F.







Lemma In_insert_by {A} (leb : A -> A -> bool) (x y : A) (l : list A) :
  In y (insert_by leb x l) <-> y = x \/ In y l.
Proof.
  induction l as [|z r IH]; simpl; [intuition|].
  destruct (leb x z); simpl; [intuition|]. rewrite IH. intuition.
Qed.

Lemma In_sort_by {A} (leb : A -> A -> bool) (y : A) (l : list A) :
  In y (sort_by leb l) <-> In y l.
Proof.
  induction l as [|x r IH]; simpl; [tauto|].
  rewrite In_insert_by, IH. intuition.
Qed.

Lemma In_drop_duplicates_last (key : row -> cell) (r : row) (rows : list row) :
  In r (drop_duplicates_last key rows) -> In r rows.
Proof.
  induction rows as [|x rest IH]; simpl; [tauto|].
  destruct (existsb _ rest); simpl; intuition.
Qed.


Lemma last_row_In (rows : list row) (r : row) : last_row rows = Some r -> In r rows.
Proof.
  unfold last_row. intros H. apply in_rev.
  destruct (rev rows) as [|x l]; [discriminate|]. injection H as ->. now left.
Qed.








End SearchOrder.

(** ** The latest row of each country, in exact arithmetic *)

Section LatestRows.

Variable py_float : string -> option xq.

Lemma same_value_refl (c : @cell xq_num) : same_value c c = true.
Proof.
  destruct c as [x|s0]; simpl; [|apply String.eqb_refl].
  destruct x; simpl; try reflexivity. now rewrite Qeq_bool_refl.
Qed.

Lemma same_value_sym (a b : @cell xq_num) : same_value a b = same_value b a.
Proof.
  destruct a as [x|s1], b as [y|s2]; simpl; try reflexivity.
  - destruct x as [p| | |], y as [q| | |]; simpl; try reflexivity.
    now rewrite (Qeq_bool_comm p q).
  - apply String.eqb_sym.
Qed.

Lemma same_value_trans (a b c : @cell xq_num) :
  same_value a b = true -> same_value b c = true -> same_value a c = true.
Proof.
  destruct a as [x|s1], b as [y|s2], c as [z|s3]; simpl; try discriminate.
  - destruct x, y, z; simpl; try discriminate; try reflexivity.
    rewrite !orb_false_r. intros H1 H2.
    apply Qeq_bool_iff in H1. apply Qeq_bool_iff in H2. apply Qeq_bool_iff.
    now rewrite H1.
  - intros H1 H2. apply String.eqb_eq in H1. apply String.eqb_eq in H2. subst.
    apply String.eqb_refl.
Qed.









Lemma XQ_leb_fin (a b : Q) : XQ.leb (Fin a) (Fin b) = true <-> (a <= b)%Q.
Proof.
  unfold XQ.leb, XQ.ltb, XQ.eqb. rewrite orb_true_iff.
  rewrite aggregator_exact.Qlt_bool_iff, Qeq_bool_iff. split.
  - intros [H|H]; [now apply Qlt_le_weak | rewrite H; apply Qle_refl].
  - intros H. apply Qle_lt_or_eq in H. tauto.
Qed.

Section Sorting.

Variable df : @Table xq_num.
Hypothesis years : forall r, In r (trows df) -> exists q, field df "year" r = CNum (Fin q).

Let leb (a b : row) : bool := num_leb (field df "year" a) (field df "year" b).





End Sorting.

Lemma filter_none {A} (f : A -> bool) (l : list A) :
  (forall x, In x l -> f x = false) -> filter f l = [].
Proof.
  induction l as [|x r IH]; intros H; simpl; [reflexivity|].
  rewrite (H x (or_introl eq_refl)). apply IH. intros; apply H; now right.
Qed.





(** ** What a dataset offers for a country *)

(** The spellings under which a dataset may hold the country: its name,
    the name without blanks, its standard form, and for "USA" and "US"
    the two long forms; never the empty string. *)
Definition spelling (country n : string) : Prop :=
  n <> "" /\
  (n = country \/
   n = remove_char " " country \/
   standardize_country_name (VStr country) = Some n \/
   (In (upper country) ["USA"; "US"] /\
    In n ["United States"; "United States of America"])).

(** The row [r] names the country in the column [col]. *)
Definition names (df : @Table xq_num) (col country : string) (r : row) : Prop :=
  exists n, spelling country n /\ field df col r = CStr n.

















End LatestRows.

End extractor.

(* ================================================================== *)
(** * The aggregator on concrete frames                                 *)
(* ================================================================== *)

Module aggregator_examples.

Import fvi_aggregator aggregator_frame aggregator_exact.

Local Open Scope string_scope.
Local Open Scope Q_scope.

(** The sample of the module's self-test: four countries, seven
    dimensions. *)
Definition sample_data : @DataFrame xq_num :=
  {| index := ["India"; "China"; "Germany"; "USA"];
     columns := ["Infrastructure"; "Necessity"; "Resource"; "Artificial_Support";
                 "Ecological"; "Economic"; "Emissions"];
     data := map (map Fin)
       [ [65; 85; 45; 50]; [75; 80; 40; 55]; [70; 85; 45; 75]; [65; 80; 25; 45];
         [40; 30; 75; 55]; [60; 80; 25; 45]; [32; 25; 75; 68] ] |}.

Definition sample_world : @World xq_num :=
  {| heap := [sample_data]; self := __init__ [] |}.





(** A frame with a foreign column, with and without rows. *)
Definition foreign_column : @DataFrame xq_num :=
  {| index := ["India"]; columns := ["gdp"]; data := [[Fin 3]] |}.

Definition foreign_no_rows : @DataFrame xq_num :=
  {| index := []; columns := ["gdp"]; data := [[]] |}.

Definition foreign_world : @World xq_num :=
  {| heap := [foreign_column; foreign_no_rows]; self := __init__ [] |}.






(** C3, witness: a foreign column on a frame with a row. *)
Lemma compute_fvi_no_overlap_foreign :
  fst (fst (compute_fvi 0%nat foreign_world)) = Ok [] /\
  (empty foreign_column = false ->
     snd (compute_fvi 0%nat foreign_world) = log_no_overlap /\
     logged ERROR (snd (compute_fvi 0%nat foreign_world)) = true) /\
  (empty foreign_column = true ->
     snd (compute_fvi 0%nat foreign_world) = log_empty /\
     logged ERROR (snd (compute_fvi 0%nat foreign_world)) = false).
Proof.
  apply (@compute_fvi_no_overlap xq_num 0%nat foreign_world foreign_column);
    reflexivity.
Defined.

(** C3, counterexample: the same foreign column on a frame without rows.
    The intersection is empty and the result is the empty series, but the
    only record logged is a warning: no error is logged. *)
Lemma compute_fvi_no_overlap_without_error :
  intersection (map normalize_name (columns foreign_no_rows))
               (keys (current_weights (self foreign_world))) = [] /\
  compute_fvi 1%nat foreign_world = (Ok [], foreign_world, log_empty) /\
  logged ERROR log_empty = false.
Proof. repeat split; vm_compute; reflexivity. Qed.



(** Two countries and two dimensions, for the comparison of personas. *)
Definition two_by_two : @DataFrame xq_num :=
  {| index := ["India"; "Germany"]; columns := ["Economic"; "Emissions"];
     data := [[Fin 60; Fin 25]; [Fin 32; Fin 75]] |}.

Definition small_world : @World xq_num :=
  {| heap := [two_by_two]; self := __init__ [] |}.

(** What [compare_personas] returns on it. *)
Definition sample_comparison : Result (dict (@Series xq_num)) :=
  Eval vm_compute in compare_personas 0%nat small_world.

Definition sample_results : dict (@Series xq_num) :=
  match fst (fst sample_comparison) with
  | Ok r => r
  | Raise _ => []
  end.

(** The index of a frame of finite scores under a profile of finite
    weights that covers all its columns, worked out by hand: the weighted
    mean of each row. *)
Definition mean_of (weighted : list (Q * Q)) : Q :=
  Qsum (map (fun sw => fst sw * snd sw) weighted) / Qsum (map snd weighted).

Definition series_eqb (s : @Series xq_num) (expected : list (string * Q)) : bool :=
  (List.length s =? List.length expected)%nat &&
  forallb (fun p => String.eqb (fst (fst p)) (fst (snd p))
                    && XQ.eqb (snd (fst p)) (Fin (snd (snd p))))
          (combine s expected).

Definition result_is (p : string) (expected : list (string * Q)) : bool :=
  match get sample_results p with
  | Some fvi => series_eqb fvi expected
  | None => false
  end.

(** C8, witness: the comparison on [two_by_two], started under "analyst".
    The two columns are "economic" and "emissions"; the built-in profiles
    weigh them 0.143 and 0.143 (analyst), 0.25 and 0.20 (investor), and
    0.05 and 0.25 (ngo), so the indexes differ from persona to persona. *)
Lemma compare_personas_restores_persona_sample :
  let w := small_world in
  let w' := snd (fst sample_comparison) in
  (current_persona (self w') = current_persona (self w) /\
   current_weights (self w') = current_weights (self w) /\
   weights (self w') = weights (self w) /\
   (forall p cw, get (weights (self w)) p = Some cw ->
      exists fvi, get sample_results p = Some fvi /\ index_with 0%nat w cw = Ok fvi) /\
   (forall p, ~ In p (keys (weights (self w))) -> get sample_results p = None) /\
   (forall p (w0 : @World xq_num),
      let w1 := snd (fst (set_persona p w0)) in
      heap w1 = heap w0 /\
      scores_df (self w1) = scores_df (self w0) /\
      weights (self w1) = weights (self w0) /\
      forall cw, get (weights (self w0)) p = Some cw ->
                 current_persona (self w1) = p /\
                 current_weights (self w1) = cw)) /\
  result_is "analyst"
    [ ("India", mean_of [(60, 0.143); (32, 0.143)]);
      ("Germany", mean_of [(25, 0.143); (75, 0.143)]) ] = true /\
  result_is "investor"
    [ ("India", mean_of [(60, 0.25); (32, 0.20)]);
      ("Germany", mean_of [(25, 0.25); (75, 0.20)]) ] = true /\
  result_is "ngo"
    [ ("India", mean_of [(60, 0.05); (32, 0.25)]);
      ("Germany", mean_of [(25, 0.05); (75, 0.25)]) ] = true.
Proof.
  split.
  - apply (@compare_personas_restores_persona xq_num 0%nat small_world
             (snd (fst sample_comparison)) sample_results (snd sample_comparison)).
    + apply reach_init.
    + vm_cast_no_check
        (eq_refl (Ok sample_results, snd (fst sample_comparison), snd sample_comparison)).
  - repeat split; vm_compute; reflexivity.
Defined.

End aggregator_examples.

(* ================================================================== *)
(** * The utilities on concrete values                                 *)
(* ================================================================== *)

Module utils_examples.

Import utils utils_properties.

Local Open Scope string_scope.
Local Open Scope Q_scope.

(** The examples use the min-max method, which calls neither of the two
    scipy functions; identities stand for them. *)
Definition zscore_unused (s : list xq) : list xq := s.
Definition percentileofscore_unused (s : list xq) (x : xq) : xq := x.

Definition normalize_min_max (series : list xq) (higher_is_better : bool)
  : outcome (list xq) :=
  normalize_series zscore_unused false percentileofscore_unused series
    higher_is_better min_max.

Definition shares : list xq := [Fin 0; NaN; Fin 25; Fin 100].


(** The direction at the entry 25 of [shares], third of four, second of the
    values that are present. *)
Lemma normalize_series_direction_shares :
  (exists result,
     normalize_min_max shares true = Ok result /\
     nth_error result 2 = Some (Fin (100 * (25 - 0) / (100 - 0)))) /\
  (exists result,
     normalize_min_max shares false = Ok result /\
     nth_error result 2 = Some (Fin (100 - 100 * (25 - 0) / (100 - 0)))).
Proof.
  apply (@normalize_series_direction xq_num zscore_unused false percentileofscore_unused
           shares min_max
           (map (fun x => XQ.div (XQ.mul (Fin 100) (XQ.sub x (Fin 0)))
                                 (XQ.sub (Fin 100) (Fin 0)))
                [Fin 0; Fin 25; Fin 100])
           2%nat (Fin 25) (Fin (100 * (25 - 0) / (100 - 0))));
    reflexivity.
Defined.




Lemma sevens_constant : constant_series [Fin 7; NaN; Fin 7].
Proof.
  intros x y Hx Hy. vm_compute in Hx, Hy.
  destruct Hx as [<-|[<-|[]]]; destruct Hy as [<-|[<-|[]]]; reflexivity.
Qed.

(** C6, witness: a series whose values are all 7, or missing; and a
    single value scaled against the empty range from 3 to 3. *)
Lemma degenerate_range_is_neutral_sevens :
  normalize_min_max [Fin 7; NaN; Fin 7] false
    = Ok [Fin 50; Fin 50; Fin 50] /\
  @normalize_score xq_num (Some (Fin 3)) (Fin 3) (Fin 3) (Fin 50) = Fin 50.
Proof.
  destruct (@degenerate_range_is_neutral zscore_unused false percentileofscore_unused
              [Fin 7; NaN; Fin 7] false) as [H1 H2].
  split; [apply H1, sevens_constant | apply (H2 xq_num); reflexivity].
Defined.

(** C9, witness: a lower-case ISO3 code between blanks, an alias, an
    unknown name, and the two missing values. *)
Lemma standardize_country_name_cases_usa :
  standardize_country_name (VStr "  usa ") = Some "United States" /\
  standardize_country_name (VStr "S. Korea") = Some "South Korea" /\
  standardize_country_name (VStr " Atlantis  ") = Some "Atlantis" /\
  standardize_country_name VNaN = None.
Proof.
  split; [|split; [|split]].
  - destruct (standardize_country_name_cases (VStr "  usa ")) as [_ H].
    destruct (H "  usa " eq_refl) as [H1 _]. apply H1. reflexivity.
  - destruct (standardize_country_name_cases (VStr "S. Korea")) as [_ H].
    destruct (H "S. Korea" eq_refl) as (_ & H2 & _). apply H2; reflexivity.
  - destruct (standardize_country_name_cases (VStr " Atlantis  ")) as [_ H].
    destruct (H " Atlantis  " eq_refl) as (_ & _ & H3). apply H3; reflexivity.
  - apply (standardize_country_name_cases VNaN). now right.
Defined.

End utils_examples.

(* ================================================================== *)
(** * The dimension scorers on concrete datasets                        *)
(* ================================================================== *)

Module scorer_examples.

Import tables utils resource extractor infrastructure.

Local Open Scope string_scope.
Local Open Scope Q_scope.

(** ** The resource score stays in range *)

Lemma py_clamp_in_range (x : xq) :
  exists q, @py_min xq_num f100 (py_max f0 x) = Fin q /\ 0 <= q <= 100.
Proof.
  unfold py_min, py_max. aggregator_exact.xq_norm.
  destruct x as [t| | |]; simpl.
  - destruct (Qlt_bool 0 t) eqn:E1; simpl.
    + destruct (Qlt_bool t 100) eqn:E2.
      * apply aggregator_exact.Qlt_bool_iff in E1, E2. exists t. split; [reflexivity | lra].
      * exists 100. split; [reflexivity | lra].
    + exists 0. split; [reflexivity | lra].
  - exists 100. split; [reflexivity | lra].
  - exists 0. split; [reflexivity | lra].
  - exists 0. split; [reflexivity | lra].
Qed.

(** Whatever the features are, [_score_from_features] returns a number of
    [0,100]: 50 when no feature is present, else the clamped sum. *)
Lemma score_from_features_in_range (log10 : xq -> xq) (features : dict xq) :
  exists q, _score_from_features log10 features = Fin q /\ 0 <= q <= 100.
Proof.
  unfold _score_from_features.
  match goal with
  | |- context [match ?c with [] => _ | _ :: _ => _ end] => destruct c
  end.
  - exists 50. split; [reflexivity | lra].
  - apply py_clamp_in_range.
Qed.

(** ** The extractor *)

(** No text cell of the examples is read as a number. *)
Definition no_text_number (s : string) : option xq := None.

Definition score1 : @Table xq_num :=
  {| tcolumns := ["country"; "year"; "production_mt"; "r_p_ratio"];
     trows :=
       [ [CStr "China"; CNum (Fin 2019); CNum (Fin 4000); CNum (Fin 33)];
         [CStr "United States"; CNum (Fin 2020); CNum NaN; CNum (Fin 370)];
         [CStr "China"; CNum (Fin 2020); CNum (Fin 4362); CNum (Fin 33)];
         [CStr "United States"; CNum (Fin 2018); CNum (Fin 600); CNum (Fin 370)] ] |}.

Definition score2 : @Table xq_num :=
  {| tcolumns := ["country"; "production_mt"; "water_usage_share"];
     trows :=
       [ [CStr "China"; CNum (Fin 4300); CNum (Fin 0.5)];
         [CStr "United States"; CNum (Fin 500); CNum (Fin 0.2)];
         [CStr "United States"; CNum (Fin 524); CNum (Fin 0.2)] ] |}.

Definition loaded : dict (@Table xq_num) := [("score1", score1); ("score2", score2)].








(** ** The infrastructure score leaves the range *)

(** No number of the examples stands in a country column. *)
Definition no_number_name (x : xq) : string := "".

Definition hazards : @Table xq_num :=
  {| tcolumns := ["country_name"; "hazard_score"];
     trows := [ [CStr "India"; CNum (Fin 250)]; [CStr "China"; CNum (Fin (-0.5))] ] |}.

Definition dependency : @Table xq_num :=
  {| tcolumns := ["country_name"; "coal_dependency_score"];
     trows := [ [CStr "India"; CNum (Fin 250)]; [CStr "China"; CNum (Fin (-0.5))] ] |}.

Definition cell_eqb (c : @cell xq_num) (q : Q) : bool :=
  match c with
  | CNum x => XQ.eqb x (Fin q)
  | CStr _ => false
  end.

Definition scores_are {A} (eqb : A -> Q -> bool) (o : outcome (dict A))
  (expected : list (string * Q)) : bool :=
  match o with
  | Ok d =>
      (List.length d =? List.length expected)%nat &&
      forallb (fun p => String.eqb (fst (fst p)) (fst (snd p))
                        && eqb (snd (fst p)) (snd (snd p)))
              (combine d expected)
  | Raise _ => false
  end.

Definition per_dataset (t : @Table xq_num) (name : string) : dict (@cell xq_num) :=
  match _calculate_scores_for_dataset no_number_name t name ["India"; "China"] with
  | Ok d => d
  | Raise _ => []
  end.

(** C2, the code at the failing input.  Two datasets, so that the
    per-dataset path runs; the score columns hold 250 for India and -0.5
    for China.  The per-dataset scores are 250 and -50, and so is their
    weighted aggregate: above 100 and below 0. *)
Lemma infrastructure_scores_leave_range :
  scores_are cell_eqb
    (_calculate_scores_for_dataset no_number_name hazards "hazards" ["India"; "China"])
    [("India", 250); ("China", -50)] = true /\
  scores_are cell_eqb
    (_calculate_scores_for_dataset no_number_name dependency "dependency" ["India"; "China"])
    [("India", 250); ("China", -50)] = true /\
  scores_are (fun x q => XQ.eqb x (Fin q))
    (_aggregate_infrastructure_scores
       [ ("hazards", per_dataset hazards "hazards");
         ("dependency", per_dataset dependency "dependency") ]
       ["India"; "China"])
    [("India", 250); ("China", -50)] = true.
Proof. repeat split; vm_compute; reflexivity. Qed.

End scorer_examples.

(* ================================================================== *)
(** * The utilities: ranges and order                                   *)
(* ================================================================== *)

Module utils_ranges.

Import utils utils_properties aggregator_exact.

#[local] Existing Instance xq_num.

Local Open Scope Q_scope.

(** A rational of [0,100]. *)
Definition in_range (x : xq) : Prop :=
  exists q, x = Fin q /\ 0 <= q <= 100.

Lemma Qlt_bool_false a b : Qlt_bool a b = false <-> b <= a.
Proof.
  unfold Qlt_bool. rewrite negb_false_iff. apply Qle_bool_iff.
Qed.

Ltac qbool :=
  repeat match goal with
  | H : Qlt_bool _ _ = true |- _ => apply Qlt_bool_iff in H
  | H : Qlt_bool _ _ = false |- _ => apply Qlt_bool_false in H
  | H : Qeq_bool _ _ = true |- _ => apply Qeq_bool_iff in H
  | H : Qeq_bool _ _ = false |- _ => apply Qeq_bool_neq in H
  | H : Qle_bool _ _ = true |- _ => apply Qle_bool_iff in H
  end.

(** Python's [max(0.0, min(100.0, x))]: the clamped value of a rational,
    and 100, 0 and 100 on the three special values. *)
Lemma py_clamp (x : xq) :
  exists p, py_max (Fin 0) (py_min (Fin 100) x) = Fin p /\
    match x with
    | Fin q => p == clamp q
    | NInf => p == 0
    | PInf | NaN => p == 100
    end.
Proof.
  unfold py_max, py_min, clamp. xq_norm.
  destruct x as [q| | |]; simpl; try (eexists; split; [reflexivity|reflexivity]).
  destruct (Qlt_bool q 100) eqn:E1; simpl.
  - destruct (Qlt_bool 0 q) eqn:E2; destruct (Qlt_bool q 0) eqn:E3;
      destruct (Qlt_bool 100 q) eqn:E4; qbool; eexists; (split; [reflexivity|]); lra.
  - destruct (Qlt_bool q 0) eqn:E3; destruct (Qlt_bool 100 q) eqn:E4; qbool;
      eexists; (split; [reflexivity|]); lra.
Qed.

Lemma py_clamp_range (x : xq) : in_range (py_max (Fin 0) (py_min (Fin 100) x)).
Proof.
  destruct (py_clamp x) as [p [E H]]. exists p. split; [exact E|].
  destruct x as [q| | |]; try lra. pose proof (clamp_range q). lra.
Qed.

(** X1.  [validate_score_range] always answers with a score of [0,100]:
    the neutral 50 for a missing value, the score itself when it lies in
    the range, the nearer bound otherwise (100 for plus infinity, 0 for
    minus infinity).  Validating twice changes nothing. *)
Theorem validate_score_range_clamps :
  forall score : xq,
    in_range (validate_score_range score) /\
    match score with
    | NaN => validate_score_range score = Fin 50
    | Fin q => exists p, validate_score_range score = Fin p /\ p == clamp q
    | PInf => validate_score_range score = Fin 100
    | NInf => validate_score_range score = Fin 0
    end /\
    xq_eq (validate_score_range (validate_score_range score))
          (validate_score_range score).
Proof.
  intros score. unfold validate_score_range. xq_norm.
  destruct score as [q| | |]; cbn [XQ.isnan].
  - destruct (py_clamp (Fin q)) as [p [E H]]. rewrite E. cbn [XQ.isnan].
    split; [|split].
    + exists p. split; [reflexivity|]. pose proof (clamp_range q). lra.
    + exists p. now split.
    + destruct (py_clamp (Fin p)) as [p' [E' H']]. rewrite E'. simpl.
      rewrite H'. unfold clamp. pose proof (clamp_range q).
      destruct (Qlt_bool p 0) eqn:E1; destruct (Qlt_bool 100 p) eqn:E2; qbool; lra.
  - split; [|split]; [exists 100; split; [reflexivity|lra]| reflexivity | reflexivity].
  - split; [|split]; [exists 0; split; [reflexivity|lra]| reflexivity | reflexivity].
  - split; [|split]; [exists 50; split; [reflexivity|lra]| reflexivity | reflexivity].
Qed.

(** ** [normalize_score] *)

Lemma Qdiv_pos_bounds a d : 0 < d -> 0 <= a <= d -> 0 <= a / d <= 1.
Proof.
  intros Hd [H0 H1]. split.
  - apply Qle_shift_div_l; [exact Hd | lra].
  - apply Qle_shift_div_r; [exact Hd | lra].
Qed.

Lemma Qdiv_mono a b d : 0 < d -> a <= b -> a / d <= b / d.
Proof.
  intros Hd H. unfold Qdiv. apply Qmult_le_compat_r; [exact H|].
  apply Qlt_le_weak, Qinv_lt_0_compat, Hd.
Qed.

Lemma clamp_mono a b : a <= b -> clamp a <= clamp b.
Proof.
  intros H. unfold clamp.
  destruct (Qlt_bool a 0) eqn:A0; destruct (Qlt_bool b 0) eqn:B0;
  destruct (Qlt_bool 100 a) eqn:A1; destruct (Qlt_bool 100 b) eqn:B1; qbool; lra.
Qed.

(** The position of [value] in the range from [min_val] to [max_val], in
    percent. *)
Definition percent_of (value min_val max_val : Q) : Q :=
  100 * (value - min_val) / (max_val - min_val).

(** X2.  With a range of two different rationals, [normalize_score] returns
    the default for a missing value and a score of [0,100] for every
    other: the clamped position of a rational in the range, and a bound
    for an infinity.  When [min_val < max_val] the score does not decrease
    as the value grows. *)
Theorem normalize_score_clamps :
  forall (value : option xq) (min_val max_val : Q) (default : xq),
    ~ min_val == max_val ->
    match value with
    | None | Some NaN =>
        normalize_score value (Fin min_val) (Fin max_val) default = default
    | Some (Fin v) =>
        exists p,
          normalize_score value (Fin min_val) (Fin max_val) default = Fin p /\
          p == clamp (percent_of v min_val max_val)
    | Some _ => in_range (normalize_score value (Fin min_val) (Fin max_val) default)
    end /\
    (min_val < max_val ->
     forall v v' p p',
       v <= v' ->
       normalize_score (Some (Fin v)) (Fin min_val) (Fin max_val) default = Fin p ->
       normalize_score (Some (Fin v')) (Fin min_val) (Fin max_val) default = Fin p' ->
       p <= p').
Proof.
  intros value mn mx default Hne.
  assert (Qeq_bool mn mx = false) as E.
  { destruct (Qeq_bool mn mx) eqn:E; [|reflexivity]. qbool. contradiction. }
  assert (Qeq_bool (mx + - mn) 0 = false) as E0.
  { destruct (Qeq_bool (mx + - mn) 0) eqn:E0; [|reflexivity]. qbool. exfalso. apply Hne. lra. }
  assert (forall v, normalize_score (Some (Fin v)) (Fin mn) (Fin mx) default
                    = py_max (Fin 0) (py_min (Fin 100) (Fin (percent_of v mn mx)))) as Hv.
  { intros v. unfold normalize_score. xq_norm. cbn [XQ.isnan XQ.eqb]. rewrite E.
    unfold XQ.sub, XQ.opp, XQ.add, XQ.mul, XQ.div. rewrite E0. reflexivity. }
  split.
  - destruct value as [[v| | |]|]; try reflexivity.
    + rewrite Hv. apply (py_clamp (Fin (percent_of v mn mx))).
    + unfold normalize_score. xq_norm. cbn [XQ.isnan XQ.eqb]. rewrite E.
      apply py_clamp_range.
    + unfold normalize_score. xq_norm. cbn [XQ.isnan XQ.eqb]. rewrite E.
      apply py_clamp_range.
  - intros Hlt v v' p p' Hle. rewrite !Hv. intros H1 H2.
    destruct (py_clamp (Fin (percent_of v mn mx))) as [q [Eq Hq]].
    destruct (py_clamp (Fin (percent_of v' mn mx))) as [q' [Eq' Hq']].
    assert (q = p) by congruence. assert (q' = p') by congruence. subst.
    rewrite Hq, Hq'. apply clamp_mono. unfold percent_of.
    apply Qdiv_mono; lra.
Qed.

(** ** [normalize_series], min-max *)

Section MinMax.

Variable zscore : list xq -> list xq.
Variable zscore_keeps_labels : bool.
Variable percentileofscore : list xq -> xq -> xq.

Lemma ltb_chain (a b c : xq) :
  XQ.isnan a = false -> XQ.isnan b = false -> XQ.isnan c = false ->
  XQ.ltb a b = true -> XQ.ltb c b = false -> XQ.ltb c a = false.
Proof.
  destruct a as [a| | |], b as [b| | |], c as [c| | |]; simpl;
    try discriminate; try reflexivity; intros _ _ _ H1 H2.
  destruct (Qlt_bool c a) eqn:E; [|reflexivity]. qbool. lra.
Qed.

Lemma ltb_chain_max (a b c : xq) :
  XQ.isnan a = false -> XQ.isnan b = false -> XQ.isnan c = false ->
  XQ.ltb b a = true -> XQ.ltb b c = false -> XQ.ltb a c = false.
Proof.
  destruct a as [a| | |], b as [b| | |], c as [c| | |]; simpl;
    try discriminate; try reflexivity; intros _ _ _ H1 H2.
  destruct (Qlt_bool a c) eqn:E; [|reflexivity]. qbool. lra.
Qed.

Lemma ltb_irrefl (a : xq) : XQ.ltb a a = false.
Proof.
  destruct a as [a| | |]; simpl; try reflexivity.
  destruct (Qlt_bool a a) eqn:E; [|reflexivity]. qbool. lra.
Qed.

Lemma fold_min_below (r : list xq) : forall (x : xq) (seen : list xq),
  XQ.isnan x = false ->
  (forall y, In y r -> XQ.isnan y = false) ->
  (forall y, In y seen -> XQ.isnan y = false /\ XQ.ltb y x = false) ->
  forall y, In y seen \/ y = x \/ In y r ->
    XQ.ltb y (fold_left (fun m z => if XQ.ltb z m then z else m) r x) = false.
Proof.
  induction r as [|z r IH]; intros x seen Hx Hr Hs y Hy; simpl.
  - destruct Hy as [Hy|[->|[]]]; [apply Hs, Hy | apply ltb_irrefl].
  - assert (XQ.isnan z = false) as Hz by (apply Hr; now left).
    destruct (XQ.ltb z x) eqn:E.
    + apply (IH z (x :: seen)); auto.
      * intros; apply Hr; now right.
      * intros y' [<-|Hy'].
        -- split; [exact Hx|]. apply ltb_chain with (b := x); auto. apply ltb_irrefl.
        -- destruct (Hs y' Hy') as [N L]. split; [exact N|].
           now apply ltb_chain with (b := x).
      * destruct Hy as [Hy|[->|[->|Hy]]]; simpl; auto.
    + apply (IH x (z :: seen)); auto.
      * intros; apply Hr; now right.
      * intros y' [<-|Hy']; [split; assumption | apply Hs, Hy'].
      * destruct Hy as [Hy|[->|[->|Hy]]]; simpl; auto.
Qed.

Lemma fold_max_above (r : list xq) : forall (x : xq) (seen : list xq),
  XQ.isnan x = false ->
  (forall y, In y r -> XQ.isnan y = false) ->
  (forall y, In y seen -> XQ.isnan y = false /\ XQ.ltb x y = false) ->
  forall y, In y seen \/ y = x \/ In y r ->
    XQ.ltb (fold_left (fun m z => if XQ.ltb m z then z else m) r x) y = false.
Proof.
  induction r as [|z r IH]; intros x seen Hx Hr Hs y Hy; simpl.
  - destruct Hy as [Hy|[->|[]]]; [apply Hs, Hy | apply ltb_irrefl].
  - assert (XQ.isnan z = false) as Hz by (apply Hr; now left).
    destruct (XQ.ltb x z) eqn:E.
    + apply (IH z (x :: seen)); auto.
      * intros; apply Hr; now right.
      * intros y' [<-|Hy'].
        -- split; [exact Hx|]. apply ltb_chain_max with (b := x); auto. apply ltb_irrefl.
        -- destruct (Hs y' Hy') as [N L]. split; [exact N|].
           now apply ltb_chain_max with (b := x).
      * destruct Hy as [Hy|[->|[->|Hy]]]; simpl; auto.
    + apply (IH x (z :: seen)); auto.
      * intros; apply Hr; now right.
      * intros y' [<-|Hy']; [split; assumption | apply Hs, Hy'].
      * destruct Hy as [Hy|[->|[->|Hy]]]; simpl; auto.
Qed.

(** No value of a series without NaN lies below its minimum or above its
    maximum. *)
Lemma series_min_below (s : list xq) (y : xq) :
  (forall x, In x s -> XQ.isnan x = false) -> In y s ->
  XQ.ltb y (series_min s) = false.
Proof.
  destruct s as [|x r]; [intros _ []|]. intros H Hy.
  apply (@fold_min_below r x []); auto.
  - apply H; now left.
  - intros; apply H; now right.
  - intros ? [].
  - destruct Hy; auto.
Qed.

Lemma series_max_above (s : list xq) (y : xq) :
  (forall x, In x s -> XQ.isnan x = false) -> In y s ->
  XQ.ltb (series_max s) y = false.
Proof.
  destruct s as [|x r]; [intros _ []|]. intros H Hy.
  apply (@fold_max_above r x []); auto.
  - apply H; now left.
  - intros; apply H; now right.
  - intros ? [].
  - destruct Hy; auto.
Qed.

(** The min-max formula on one value. *)
Definition min_max_value (mn mx x : xq) : xq :=
  XQ.div (XQ.mul (Fin 100) (XQ.sub x mn)) (XQ.sub mx mn).

Lemma fifty_in_range : in_range (Fin 50).
Proof. exists 50. split; [reflexivity | lra]. Qed.

Lemma min_max_run (series : list xq) (higher_is_better : bool) :
  normalize_series zscore zscore_keeps_labels percentileofscore series
    higher_is_better min_max =
  Ok (match dropna series with
      | [] => map (fun _ => Fin 50) series
      | s =>
          let mn := series_min s in
          let mx := series_max s in
          let normalized :=
            if XQ.eqb mn mx then map (fun _ => Fin 50) s
            else map (min_max_value mn mx) s in
          update series
            (if higher_is_better then normalized
             else map (fun v => XQ.sub (Fin 100) v) normalized)
      end).
Proof.
  unfold normalize_series, scale, carries_labels. xq_norm.
  destruct (dropna series) as [|d ds]; [reflexivity|].
  destruct (XQ.eqb _ _); destruct higher_is_better; reflexivity.
Qed.

Lemma min_max_run_present (series : list xq) (higher_is_better : bool) :
  dropna series <> [] ->
  normalize_series zscore zscore_keeps_labels percentileofscore series
    higher_is_better min_max =
  Ok (update series
        (if higher_is_better
         then (if XQ.eqb (series_min (dropna series)) (series_max (dropna series))
               then map (fun _ => Fin 50) (dropna series)
               else map (min_max_value (series_min (dropna series))
                                       (series_max (dropna series))) (dropna series))
         else map (fun v => XQ.sub (Fin 100) v)
                (if XQ.eqb (series_min (dropna series)) (series_max (dropna series))
                 then map (fun _ => Fin 50) (dropna series)
                 else map (min_max_value (series_min (dropna series))
                                         (series_max (dropna series))) (dropna series)))).
Proof.
  intros Hne. rewrite min_max_run.
  destruct (dropna series) as [|d ds]; [congruence | reflexivity].
Qed.

(** The score of the rational [x] when the present values range from [a]
    to [b]. *)
Definition min_max_score (higher_is_better : bool) (a b x : Q) : Q :=
  let v := if Qeq_bool a b then 50 else 100 * (x - a) / (b - a) in
  if higher_is_better then v else 100 - v.

Lemma all_ok_present (series : list xq) (x : xq) :
  all_ok series = true -> In x (dropna series) -> exists q, x = Fin q.
Proof.
  intros H Hx. pose proof (dropna_fin _ H) as Hf. unfold all_fin in Hf.
  rewrite forallb_forall in Hf. specialize (Hf x Hx). destruct x; try discriminate. eauto.
Qed.

Lemma min_max_entry (series : list xq) (higher_is_better : bool) (i : nat) (x : Q) :
  all_ok series = true ->
  nth_error series i = Some (Fin x) ->
  exists a b result p,
    series_min (dropna series) = Fin a /\
    series_max (dropna series) = Fin b /\
    a <= x <= b /\
    normalize_series zscore zscore_keeps_labels percentileofscore series
      higher_is_better min_max = Ok result /\
    nth_error result i = Some (Fin p) /\
    p == min_max_score higher_is_better a b x.
Proof.
  intros Hok Hx.
  pose proof (@dropna_present xq_num series i (Fin x) Hx eq_refl) as Hd.
  assert (In (Fin x) (dropna series)) as Hin by (eapply nth_error_In; exact Hd).
  assert (dropna series <> []) as Hne by (intros E; rewrite E in Hin; destruct Hin).
  assert (forall z, In z (dropna series) -> XQ.isnan z = false) as Hn
    by (intros z; apply dropna_not_nan).
  destruct (@all_ok_present series _ Hok (series_min_in Hne)) as [a Ha].
  destruct (@all_ok_present series _ Hok (series_max_in Hne)) as [b Hb].
  pose proof (@series_min_below _ _ Hn Hin) as L1. pose proof (@series_max_above _ _ Hn Hin) as L2.
  rewrite Ha in L1. rewrite Hb in L2. simpl in L1, L2. qbool.
  exists a, b. rewrite (@min_max_run_present series higher_is_better Hne).
  rewrite Ha, Hb. cbn [XQ.eqb]. xq_norm.
  set (normalized := if Qeq_bool a b then _ else _).
  assert (exists v, nth_error normalized (present_before series i) = Some (Fin v) /\
                    v == (if Qeq_bool a b then 50 else 100 * (x - a) / (b - a)))
    as (v & Hv & Ev).
  { unfold normalized. destruct (Qeq_bool a b) eqn:Q.
    - exists 50. split; [|reflexivity]. rewrite nth_error_map, Hd. reflexivity.
    - qbool. eexists. split.
      + rewrite nth_error_map, Hd. unfold min_max_value. simpl.
        assert (Qeq_bool (b + - a) 0 = false) as ->.
        { destruct (Qeq_bool (b + - a) 0) eqn:E0; [|reflexivity]. qbool. exfalso. apply Q. lra. }
        reflexivity.
      + unfold Qminus. reflexivity. }
  destruct higher_is_better.
  - eexists. exists v. repeat split; try reflexivity; try lra.
    + exact (@update_present xq_num series normalized i (Fin x) (Fin v) Hx eq_refl Hv).
    + unfold min_max_score. exact Ev.
  - eexists. exists (100 + - v). repeat split; try reflexivity; try lra.
    + refine (@update_present xq_num series _ i (Fin x) (Fin (100 + - v)) Hx eq_refl _).
      rewrite nth_error_map, Hv. reflexivity.
    + unfold min_max_score. rewrite Ev. unfold Qminus. reflexivity.
Qed.

(** X4.  Min-max normalisation keeps the order of the data when higher is
    better and reverses it otherwise: of two rationals of a series of
    rationals and missing values, the greater gets the greater score, or
    the smaller one when [higher_is_better] is false. *)
Theorem normalize_series_min_max_monotone :
  forall (series : list xq) (higher_is_better : bool) (i j : nat) (x y : Q),
    all_ok series = true ->
    nth_error series i = Some (Fin x) ->
    nth_error series j = Some (Fin y) ->
    x <= y ->
    exists result p q,
      normalize_series zscore zscore_keeps_labels percentileofscore series
        higher_is_better min_max = Ok result /\
      nth_error result i = Some (Fin p) /\
      nth_error result j = Some (Fin q) /\
      (if higher_is_better then p <= q else q <= p).
Proof.
  intros series hib i j x y Hok Hx Hy Hle.
  destruct (@min_max_entry series hib i x Hok Hx) as (a & b & r & p & A & B & Hab & R & P & Ep).
  destruct (@min_max_entry series hib j y Hok Hy) as (a' & b' & r' & q & A' & B' & Hab' & R' & Q & Eq).
  assert (a' = a) as -> by congruence. assert (b' = b) as -> by congruence.
  assert (r' = r) as -> by congruence.
  exists r, p, q. repeat split; auto.
  assert ((if Qeq_bool a b then 50 else 100 * (x - a) / (b - a))
          <= (if Qeq_bool a b then 50 else 100 * (y - a) / (b - a))) as Hv.
  { destruct (Qeq_bool a b) eqn:E; [lra|]. qbool.
    apply Qdiv_mono; [|lra]. assert (~ a == b) by exact E. lra. }
  unfold min_max_score in Ep, Eq. cbv zeta in Ep, Eq.
  destruct hib; rewrite Ep, Eq; lra.
Qed.

(** X5.  When the present values are not all equal, the smallest of them
    gets the score 0 when higher is better, and 100 otherwise. *)
Theorem normalize_series_min_max_least :
  forall (series : list xq) (higher_is_better : bool) (i j : nat) (x y : Q),
    all_ok series = true ->
    nth_error series i = Some (Fin x) ->
    nth_error series j = Some (Fin y) ->
    x < y ->
    (forall k z, nth_error series k = Some (Fin z) -> x <= z) ->
    exists result p,
      normalize_series zscore zscore_keeps_labels percentileofscore series
        higher_is_better min_max = Ok result /\
      nth_error result i = Some (Fin p) /\
      p == (if higher_is_better then 0 else 100).
Proof.
  intros series hib i j x y Hok Hx Hy Hlt Hall.
  destruct (@min_max_entry series hib i x Hok Hx) as (a & b & r & p & A & B & Hab & R & P & Ep).
  destruct (@min_max_entry series hib j y Hok Hy) as (a' & b' & r' & q & A' & B' & Hab' & _).
  assert (a' = a) as -> by congruence. assert (b' = b) as -> by congruence.
  assert (In (Fin x) (dropna series)) as Hin
    by (eapply nth_error_In, (@dropna_present xq_num series i (Fin x) Hx eq_refl)).
  assert (dropna series <> []) as Hne by (intros E; rewrite E in Hin; destruct Hin).
  assert (forall z, In (Fin z) (dropna series) -> x <= z) as Hbound.
  { intros z Hz. apply filter_In in Hz. destruct Hz as [Hz _].
    apply In_nth_error in Hz. destruct Hz as [k Hk]. eapply Hall; eauto. }
  pose proof (series_min_in Hne) as Ma. rewrite A in Ma. apply Hbound in Ma.
  assert (a == x) as Eax by lra.
  exists r, p. split; [exact R|]. split; [exact P|].
  rewrite Ep. unfold min_max_score.
  assert (Qeq_bool a b = false) as ->.
  { destruct (Qeq_bool a b) eqn:E; [|reflexivity]. qbool. lra. }
  assert (100 * (x - a) / (b - a) == 0) as V.
  { assert (x - a == 0) as W by lra. unfold Qdiv. rewrite W. ring. }
  destruct hib; cbv zeta; rewrite V; lra.
Qed.

End MinMax.

End utils_ranges.

Module country_names.

Import utils aggregator_exact.

Local Open Scope string_scope.

(** A string that does not begin with white space. *)
Definition starts_clean (s : string) : Prop :=
  match s with
  | EmptyString => True
  | String c _ => is_space c = false
  end.

Lemma lstrip_clean (s : string) : starts_clean (lstrip s).
Proof.
  induction s as [|c r IH]; simpl; [exact I|].
  destruct (is_space c) eqn:E; [exact IH | exact E].
Qed.

Lemma lstrip_of_clean (s : string) : starts_clean s -> lstrip s = s.
Proof. destruct s as [|c r]; simpl; [reflexivity|]. now intros ->. Qed.

Lemma rstrip_clean (s : string) : starts_clean s -> starts_clean (rstrip s).
Proof.
  destruct s as [|c r]; simpl; [trivial|]. intros H.
  destruct (rstrip r); [rewrite H|]; exact H.
Qed.

Lemma rstrip_idempotent (s : string) : rstrip (rstrip s) = rstrip s.
Proof.
  induction s as [|c r IH]; simpl; [reflexivity|].
  destruct (rstrip r) as [|c' r'] eqn:E.
  - destruct (is_space c) eqn:S; simpl; [reflexivity | now rewrite S].
  - simpl in *. now rewrite IH.
Qed.

Lemma strip_idempotent (s : string) : strip (strip s) = strip s.
Proof.
  unfold strip.
  rewrite (@lstrip_of_clean _ (@rstrip_clean _ (lstrip_clean s))).
  apply rstrip_idempotent.
Qed.

(** [standardize_country_name] leaves the string as it is. *)
Definition fixed (canonical : string) : bool :=
  match standardize_country_name (VStr canonical) with
  | Some r => String.eqb r canonical
  | None => false
  end.

Lemma fixed_values (d : dict string) (k v : string) :
  forallb (fun kv => fixed (snd kv)) d = true ->
  get d k = Some v -> standardize_country_name (VStr v) = Some v.
Proof.
  intros H G. rewrite forallb_forall in H. specialize (H _ (@get_In _ _ _ _ G)).
  unfold fixed in H. cbn [snd] in H.
  destruct (standardize_country_name (VStr v)) as [r|]; [|discriminate].
  apply String.eqb_eq in H. now subst.
Qed.

(** X6.  [standardize_country_name] is idempotent: what it returns for a
    name is returned unchanged when it is standardised again.  Every
    canonical name of the two tables and every trimmed unknown name is a
    fixed point. *)
Theorem standardize_country_name_idempotent :
  forall (name : pyval) (canonical : string),
    standardize_country_name name = Some canonical ->
    standardize_country_name (VStr canonical) = Some canonical.
Proof.
  intros [| |s] canonical; try discriminate.
  unfold standardize_country_name at 1.
  destruct (get COUNTRY_MAPPING (upper (strip s))) as [c|] eqn:M.
  - intros H. injection H as <-.
    apply (@fixed_values COUNTRY_MAPPING (upper (strip s)) c); [|exact M].
    vm_compute. reflexivity.
  - destruct (get aliases (strip s)) as [c|] eqn:A.
    + intros H. injection H as <-.
      apply (@fixed_values aliases (strip s) c); [|exact A].
      vm_compute. reflexivity.
    + intros H. injection H as <-.
      unfold standardize_country_name. rewrite strip_idempotent, M, A. reflexivity.
Qed.

End country_names.

Module mapping_properties.

Import tables utils utils_mapping aggregator_frame.

Local Open Scope string_scope.

Section Mapping.

Context {N : Num}.

(** A name of the data matches a target. *)
Definition matches (data_country target_country : string) : Prop :=
  lower data_country = lower target_country \/
  standardize_country_name (VStr data_country) = Some target_country.

Lemma first_target_sound (d : string) : forall cl t,
  first_target d cl = Some t -> In t cl /\ matches d t.
Proof.
  induction cl as [|x rest IH]; intros t H; cbn [first_target] in H; [discriminate|].
  destruct (String.eqb (lower d) (lower x)) eqn:E.
  - injection H as <-. apply String.eqb_eq in E. split; [now left | now left].
  - destruct (standardize_country_name (VStr d)) as [std|] eqn:S.
    + destruct (String.eqb std x) eqn:E'.
      * injection H as <-. apply String.eqb_eq in E'. subst std.
        split; [now left | now right].
      * destruct (IH t H) as [H1 H2]. split; [now right | exact H2].
    + destruct (IH t H) as [H1 H2]. split; [now right | exact H2].
Qed.

Lemma first_target_complete (d : string) : forall cl t,
  In t cl -> matches d t -> exists t', first_target d cl = Some t'.
Proof.
  induction cl as [|x rest IH]; intros t Hin Hm; [destruct Hin|].
  cbn [first_target].
  destruct (String.eqb (lower d) (lower x)) eqn:E; [eauto|].
  destruct Hin as [->|Hin].
  - destruct Hm as [Hm|Hm].
    + rewrite Hm, String.eqb_refl in E. discriminate.
    + rewrite Hm, String.eqb_refl. eauto.
  - destruct (standardize_country_name (VStr d)) as [std|]; [|now apply (IH t)].
    destruct (String.eqb std x); [eauto | now apply (IH t)].
Qed.

(** What the loop has put into the mapping so far. *)
Definition filled (country_list : list string) (seen : list cell) (m : dict string) : Prop :=
  forall d, get m d = (if existsb (fun c => cell_is c d) seen
                       then first_target d country_list else None).

Lemma map_countries_filled (country_list : list string) : forall rest seen m result,
  filled country_list seen m ->
  map_countries rest country_list m = Mapping result ->
  filled country_list (seen ++ rest) result.
Proof.
  induction rest as [|c rest IH]; intros seen m result Hm H; cbn [map_countries] in H.
  - injection H as <-. now rewrite app_nil_r.
  - replace (seen ++ c :: rest)%list with ((seen ++ [c]) ++ rest)%list
      by (now rewrite <- app_assoc).
    destruct c as [x|s].
    + destruct country_list as [|t0 tl]; [|discriminate].
      apply (IH (seen ++ [CNum x])%list m result); [|exact H].
      intros d. rewrite (Hm d), existsb_app. cbn [existsb cell_is].
      now rewrite !orb_false_r.
    + apply (IH (seen ++ [CStr s])%list _ result) in H; [exact H|].
      intros d. rewrite existsb_app. cbn [existsb cell_is]. rewrite orb_false_r.
      destruct (String.eqb s d) eqn:E.
      * apply String.eqb_eq in E. subst d. rewrite orb_true_r.
        destruct (first_target s country_list) as [t|] eqn:F.
        -- apply get_set_same.
        -- rewrite (Hm s).
           destruct (existsb (fun c => cell_is c s) seen); [exact F | reflexivity].
      * rewrite orb_false_r. rewrite <- (Hm d).
        destruct (first_target s country_list) as [t|]; [|reflexivity].
        apply get_set_other. intros ->. rewrite String.eqb_refl in E. discriminate.
Qed.

End Mapping.

(** X21.  When [create_country_mapping] returns a mapping, it maps the
    names of the first country column, and only them, each to the first
    country of the list that it matches -- by its lower-case form or as
    its standard form: a mapped name is a string of that column, its
    target is a country of the list that it matches, and a string of the
    column that matches some country of the list is mapped. *)
Theorem create_country_mapping_matches :
  forall (N : Num) (df : Table) (country_list : list string) (mapping : dict string),
    create_country_mapping df country_list = Mapping mapping ->
    (forall data_country target_country,
        get mapping data_country = Some target_country ->
        In target_country country_list /\
        matches data_country target_country /\
        first_target data_country country_list = Some target_country /\
        exists country_col r,
          find (fun col => contains "country" (lower col)) (tcolumns df)
            = Some country_col /\
          In r (trows df) /\ field df country_col r = CStr data_country) /\
    (forall country_col r data_country target_country,
        find (fun col => contains "country" (lower col)) (tcolumns df)
          = Some country_col ->
        In r (trows df) -> field df country_col r = CStr data_country ->
        In target_country country_list -> matches data_country target_country ->
        has_key mapping data_country = true).
Proof.
  intros N df country_list mapping. unfold create_country_mapping.
  assert (forall (f : string -> bool) l,
             find f l = match filter f l with [] => None | x :: _ => Some x end) as Find.
  { intros f l. induction l as [|x l IH]; [reflexivity|]. simpl.
    destruct (f x); [reflexivity | exact IH]. }
  rewrite Find.
  destruct (filter (fun col => contains "country" (lower col)) (tcolumns df))
    as [|country_col others].
  - intros H. injection H as <-. split.
    + intros d t G. discriminate G.
    + intros c r d t F. discriminate F.
  - intros H.
    set (cells := unique_cells (filter cell_notna (map (field df country_col) (trows df)))) in *.
    pose proof (@map_countries_filled N country_list cells [] [] mapping
                  (fun d => eq_refl) H) as Filled.
    cbn [app] in Filled.
    assert (forall d, existsb (fun c => cell_is c d) cells = true <->
                      exists r, In r (trows df) /\ field df country_col r = CStr d) as Cells.
    { intros d. split.
      - intros E. apply existsb_exists in E. destruct E as [c [Hc Hd]].
        destruct c as [x|s]; [discriminate|]. cbn [cell_is] in Hd.
        apply String.eqb_eq in Hd. subst s.
        assert (forall cs c, In c (unique_cells cs) -> In c cs) as Sub.
        { induction cs as [|c0 cs IH]; intros c; cbn [unique_cells]; [tauto|].
          intros [<-|Hin]; [now left|]. right. apply IH. apply filter_In in Hin. tauto. }
        apply Sub in Hc. apply filter_In in Hc. destruct Hc as [Hc _].
        apply in_map_iff in Hc. destruct Hc as [r [E Hr]]. eauto.
      - intros [r [Hr E]]. apply existsb_exists. exists (CStr d).
        split; [|cbn [cell_is]; apply String.eqb_refl].
        assert (forall cs, In (CStr d) cs -> In (CStr d) (unique_cells cs)) as Keep.
        { induction cs as [|c0 cs IH]; intros Hin; [destruct Hin|].
          cbn [unique_cells]. destruct Hin as [->|Hin]; [now left|].
          destruct (same_value c0 (CStr d)) eqn:S.
          - left. destruct c0 as [x|t]; [discriminate|]. cbn [same_value] in S.
            apply String.eqb_eq in S. now subst.
          - right. apply filter_In. split; [now apply IH | now rewrite S]. }
        apply Keep. apply filter_In. split; [|reflexivity].
        apply in_map_iff. exists r. auto. }
    split.
    + intros d t G. rewrite (Filled d) in G.
      destruct (existsb (fun c => cell_is c d) cells) eqn:E; [|discriminate].
      destruct (@first_target_sound d country_list t G) as [H1 H2].
      split; [exact H1|]. split; [exact H2|]. split; [exact G|].
      apply Cells in E. destruct E as [r [Hr E]]. exists country_col, r. auto.
    + intros c r d t F Hr E Hin Hm. injection F as <-.
      apply get_has_key.
      rewrite (Filled d), (proj2 (Cells d)) by eauto.
      destruct (@first_target_complete d country_list t Hin Hm) as [t1 ->]. eauto.
Qed.

End mapping_properties.

(* ================================================================== *)
(** * The aggregator: repeated calls, rankings, breakdowns              *)
(* ================================================================== *)

Module aggregator_calls.

Import fvi_aggregator aggregator_frame fvi_aggregator_queries tables.

Local Open Scope string_scope.

(** X9.  A second call of [compute_fvi] on the same frame, in the state
    that the first call has left, returns the same series and logs the
    same records: the copy that the first call stored and the heap that
    has grown do not matter. *)
Theorem compute_fvi_repeatable :
  forall (N : Num) (l : loc) (w : World),
    let first := compute_fvi l w in
    let second := compute_fvi l (snd (fst first)) in
    fst (fst second) = fst (fst first) /\ snd second = snd first.
Proof.
  intros N l w. cbv zeta.
  apply compute_fvi_outcome_ext.
  - apply (compute_fvi_heap_prefix l w).
  - apply (compute_fvi_extends l w).
Qed.

(** ** Sorting *)

Section InsertionSort.

Variable A : Type.
Variable leb : A -> A -> bool.
Variable dom : A -> Prop.
Hypothesis leb_total : forall a b, dom a -> dom b -> leb a b = false -> leb b a = true.
Hypothesis leb_trans :
  forall a b c, dom a -> dom b -> dom c ->
    leb a b = true -> leb b c = true -> leb a c = true.

Let R (a b : A) : Prop := leb a b = true.

Lemma insert_by_perm (x : A) (l : list A) : Permutation (insert_by leb x l) (x :: l).
Proof.
  induction l as [|y r IH]; simpl; [reflexivity|].
  destruct (leb x y); [reflexivity|].
  rewrite IH. apply perm_swap.
Qed.

Lemma sort_by_perm (l : list A) : Permutation (sort_by leb l) l.
Proof.
  induction l as [|x r IH]; simpl; [reflexivity|].
  unfold sort_by in *. simpl. rewrite insert_by_perm. now constructor.
Qed.

Lemma insert_by_strongly_sorted (x : A) (l : list A) :
  dom x -> Forall dom l -> StronglySorted R l -> StronglySorted R (insert_by leb x l).
Proof.
  intros Hx Hl Hs. induction Hs as [|y r Hr IH Hy]; simpl.
  - repeat constructor.
  - inversion Hl as [|? ? Dy Dr]; subst.
    destruct (leb x y) eqn:E.
    + constructor; [now constructor|]. constructor; [exact E|].
      rewrite Forall_forall in *. intros z Hz. apply leb_trans with (b := y); auto.
      now apply Hy.
    + constructor; [now apply IH|].
      rewrite (Forall_forall). intros z Hz.
      apply (Permutation_in _ (insert_by_perm x r)) in Hz. destruct Hz as [<-|Hz].
      * now apply leb_total.
      * rewrite Forall_forall in Hy. now apply Hy.
Qed.

Lemma sort_by_strongly_sorted (l : list A) :
  Forall dom l -> StronglySorted R (sort_by leb l).
Proof.
  induction l as [|x r IH]; intros H; [constructor|].
  inversion H; subst. unfold sort_by in *. simpl.
  apply insert_by_strongly_sorted; auto.
  eapply Permutation_Forall; [symmetry; apply sort_by_perm | assumption].
Qed.

End InsertionSort.

End aggregator_calls.

Module aggregator_reports.

Import fvi_aggregator aggregator_frame aggregator_exact fvi_aggregator_queries tables
       aggregator_calls.

#[local] Existing Instance xq_num.

Local Open Scope string_scope.

(** The order of floats that are not NaN. *)
Definition xq_le (a b : xq) : Prop := XQ.leb a b = true.

Definition present (e : string * xq) : Prop := XQ.isnan (snd e) = false.

Lemma xq_leb_total (a b : xq) :
  XQ.isnan a = false -> XQ.isnan b = false -> XQ.leb a b = false -> XQ.leb b a = true.
Proof.
  unfold XQ.leb.
  destruct a as [a| | |], b as [b| | |]; simpl; try discriminate; try reflexivity.
  intros _ _ H. apply orb_false_iff in H. destruct H as [H1 H2].
  apply orb_true_iff. left. apply Qlt_bool_iff.
  destruct (Qlt_le_dec b a) as [L|L]; [exact L|].
  apply Qle_lt_or_eq in L. destruct L as [L|L].
  - apply Qlt_bool_iff in L. congruence.
  - apply Qeq_bool_iff in L. congruence.
Qed.

Lemma xq_leb_trans (a b c : xq) :
  XQ.isnan a = false -> XQ.isnan b = false -> XQ.isnan c = false ->
  XQ.leb a b = true -> XQ.leb b c = true -> XQ.leb a c = true.
Proof.
  destruct a as [a| | |], b as [b| | |], c as [c| | |]; simpl;
    try discriminate; try reflexivity; intros _ _ _.
  rewrite !extractor.XQ_leb_fin. intros. now apply Qle_trans with (y := b).
Qed.

Lemma filter_all {A} (f : A -> bool) (l : list A) :
  (forall x, In x l -> f x = true) -> filter f l = l.
Proof.
  induction l as [|x r IH]; intros H; simpl; [reflexivity|].
  rewrite (H x (or_introl eq_refl)). f_equal. apply IH. intros; apply H; now right.
Qed.

Lemma sorted_entries_ranked (leb : xq -> xq -> bool) (fvi : Series) :
  (forall a b, XQ.isnan a = false -> XQ.isnan b = false ->
               leb a b = false -> leb b a = true) ->
  (forall a b c, XQ.isnan a = false -> XQ.isnan b = false -> XQ.isnan c = false ->
                 leb a b = true -> leb b c = true -> leb a c = true) ->
  Forall present fvi ->
  Permutation (sorted_entries leb fvi) fvi /\
  StronglySorted (fun a b => leb (snd a) (snd b) = true) (sorted_entries leb fvi).
Proof.
  intros Htot Htrans Hp. unfold sorted_entries.
  rewrite (@filter_all _ (fun e : string * F => notna (snd e)) fvi).
  2:{ rewrite Forall_forall in Hp. intros e He. pose proof (Hp e He) as X.
      destruct e as [k [v| | |]]; try reflexivity. discriminate X. }
  rewrite (@extractor.filter_none _ (fun e : string * F => is_nan (snd e)) fvi).
  2:{ rewrite Forall_forall in Hp. intros e He. apply (Hp e He). }
  rewrite app_nil_r. split; [apply sort_by_perm|].
  apply (@sort_by_strongly_sorted _ (fun a b : string * xq => leb (snd a) (snd b)) present).
  - intros a b Ha Hb. now apply Htot.
  - intros a b c Ha Hb Hc. now apply Htrans.
  - exact Hp.
Qed.

(** X11.  [get_top_countries] returns the leading [n] entries of the index
    that [compute_fvi] yields, ranked: the index sorted by value,
    ascending for the lowest scores and descending for the highest.  It
    returns nothing for [n <= 0] and the whole ranking when [n] exceeds
    the number of countries. *)
Theorem get_top_countries_leads_ranking :
  forall (l : loc) (n : Z) (ascending : bool) (w w' : World) (top : Series)
         (log : list log_record),
    get_top_countries l n ascending w = (Ok top, w', log) ->
    exists fvi,
      compute_fvi l w = (Ok fvi, w', log) /\
      (Forall present fvi ->
       exists ranking,
         Permutation ranking fvi /\
         StronglySorted
           (fun a b => if ascending then xq_le (snd a) (snd b)
                       else xq_le (snd b) (snd a)) ranking /\
         top = firstn (Z.to_nat n) ranking /\
         List.length top = Nat.min (Z.to_nat n) (List.length fvi)).
Proof.
  intros l n asc w w' top log. unfold get_top_countries.
  destruct (compute_fvi l w) as [[[fvi|e] w1] log1]; [|discriminate].
  intros H. injection H as <- <- <-. exists fvi. split; [reflexivity|]. intros Hp.
  assert (forall ranking : Series,
            (if (n <=? 0)%Z then [] else firstn (Z.to_nat n) ranking)
            = firstn (Z.to_nat n) ranking) as Hn.
  { intros r. destruct (Z.leb_spec n 0) as [L|L]; [|reflexivity].
    replace (Z.to_nat n) with 0%nat by lia. reflexivity. }
  destruct asc.
  - destruct (@sorted_entries_ranked XQ.leb fvi xq_leb_total xq_leb_trans Hp) as [P S].
    exists (sorted_entries fleb fvi). repeat split; auto.
    + unfold nsmallest. apply Hn.
    + unfold nsmallest. rewrite Hn, length_firstn.
      f_equal. exact (Permutation_length P).
  - destruct (@sorted_entries_ranked (fun a b => XQ.leb b a) fvi) as [P S]; auto.
    + intros a b Ha Hb. now apply xq_leb_total.
    + intros a b c Ha Hb Hc H1 H2. now apply xq_leb_trans with (b := b).
    + exists (sorted_entries (fun a b => fleb b a) fvi). repeat split; auto.
      * unfold nlargest. apply Hn.
      * unfold nlargest. rewrite Hn, length_firstn.
        f_equal. exact (Permutation_length P).
Qed.

(** ** The stored copy *)

Lemma fill_missing_labels cols : forall (df : DataFrame) r df2,
  fill_missing cols df = (r, df2) ->
  columns df2 = columns df /\ index df2 = index df.
Proof.
  induction cols as [|a rest IH]; intros df r df2 H; simpl in H.
  - injection H as <- <-. now split.
  - destruct (select df a) as [|s [|s' t]]; try (injection H as <- <-; now split).
    apply IH in H. exact H.
Qed.

Lemma fill_missing_singles cols : forall (df : DataFrame) u df2,
  fill_missing cols df = (Ok u, df2) ->
  forall c, In c cols -> exists s, select df c = [s].
Proof.
  induction cols as [|a rest IH]; intros df u df2 H c Hc; simpl in H; [destruct Hc|].
  destruct (select df a) as [|s [|s' t]] eqn:Hs; try discriminate.
  destruct Hc as [<-|Hc]; [eauto|].
  destruct (IH _ _ _ H c Hc) as [s1 H1]. rewrite select_assign in H1.
  destruct (String.eqb c a) eqn:E.
  - apply String.eqb_eq in E. subst c. eauto.
  - eauto.
Qed.

Lemma fill_value_present (s : list xq) : XQ.isnan (fill_value s) = false.
Proof.
  unfold fill_value. xq_norm. destruct (XQ.isnan (median s)) eqn:E; [reflexivity | exact E].
Qed.

Lemma fillna_present (v : xq) (s : list xq) :
  XQ.isnan v = false -> Forall (fun x => XQ.isnan x = false) (fillna v s).
Proof.
  intros Hv. unfold fillna. apply Forall_map, Forall_forall. intros x _. xq_norm.
  destruct (XQ.isnan x) eqn:E; assumption.
Qed.

(** X10.  When [compute_fvi] computes an index, the frame it leaves in
    [self.scores_df] is a new one, with the countries of the caller's
    frame and the normalised labels; each weighted column holds the
    caller's scores with every gap filled by the column's median (50 when
    the column is all gaps), so that no value is missing there, and every
    other column is as the caller has it. *)
Theorem compute_fvi_stores_filled_copy :
  forall (l : loc) (w w' : World) (df : DataFrame) (fvi : Series)
         (log : list log_record),
    nth_error (heap w) l = Some df ->
    empty df = false ->
    intersection (map normalize_name (columns df))
                 (keys (current_weights (self w))) <> [] ->
    compute_fvi l w = (Ok fvi, w', log) ->
    exists stored,
      scores_df (self w') = Some (List.length (heap w)) /\
      heap w' = (heap w ++ [stored])%list /\
      index stored = index df /\
      columns stored = map normalize_name (columns df) /\
      (forall c,
         In c (intersection (map normalize_name (columns df))
                            (keys (current_weights (self w)))) ->
         exists s,
           select (rename_columns df) c = [s] /\
           select stored c = [fillna (fill_value s) s] /\
           Forall (fun x => XQ.isnan x = false) (fillna (fill_value s) s)) /\
      (forall c,
         ~ In c (intersection (map normalize_name (columns df))
                              (keys (current_weights (self w)))) ->
         select stored c = select (rename_columns df) c).
Proof.
  intros l w w' df fvi log Hl He Hcols Hrun.
  destruct (compute_fvi_run l w) as [H|d H He'|d H He' Hi|d e d2 H He' Hi Hf|d u d2 H He' Hi Hf];
    try congruence.
  all: assert (d = df) as -> by congruence; try congruence.
  - exfalso. apply Hcols. exact Hi.
  - injection Hrun as <- <- <-. exists d2.
    change (columns (rename_columns df)) with (map normalize_name (columns df)) in *.
    set (cols := intersection (map normalize_name (columns df))
                              (keys (current_weights (self w)))) in *.
    destruct (fill_missing_labels _ _ Hf) as [L1 L2].
    pose proof (fill_missing_singles _ _ Hf) as Hs.
    destruct (@fill_missing_spec cols (rename_columns df) (NoDup_unique _) Hs)
      as (df2 & F1 & F2 & F3 & F4).
    assert (df2 = d2) as -> by congruence.
    repeat split; auto.
    intros c Hc. destruct (Hs c Hc) as [s S]. exists s. repeat split; auto.
    apply fillna_present, fill_value_present.
Qed.

(** ** The breakdown by dimension *)

Local Open Scope Q_scope.

Lemma positions_from_absent (label : string) (labels : list string) : forall k,
  mem label labels = false -> positions_from k label labels = [].
Proof.
  induction labels as [|x r IH]; intros k H; simpl in *; [reflexivity|].
  apply orb_false_iff in H. destruct H as [H1 H2].
  rewrite String.eqb_sym, H1. simpl. now apply IH.
Qed.

Lemma positions_from_bound (label : string) (labels : list string) : forall k i,
  In i (positions_from k label labels) -> (k <= i < k + List.length labels)%nat.
Proof.
  induction labels as [|x r IH]; intros k i H; simpl in *; [destruct H|].
  apply in_app_or in H. destruct H as [H|H].
  - destruct (String.eqb x label); [|destruct H]. destruct H as [<-|[]]. lia.
  - apply IH in H. lia.
Qed.

Lemma set_fresh {V} (d : dict V) (k : string) (v : V) :
  ~ In k (keys d) -> set d k v = (d ++ [(k, v)])%list.
Proof.
  induction d as [|[k' v'] r IH]; simpl; intros H; [reflexivity|].
  destruct (String.eqb k k') eqn:E.
  - apply String.eqb_eq in E. subst. exfalso. apply H. now left.
  - f_equal. apply IH. intros Hin. apply H. now right.
Qed.

Lemma get_app_fresh {V} (d : dict V) (k : string) (v : V) :
  ~ In k (keys d) -> get (d ++ [(k, v)])%list k = Some v.
Proof.
  induction d as [|[k' v'] r IH]; simpl; intros H.
  - now rewrite String.eqb_refl.
  - destruct (String.eqb k k') eqn:E.
    + apply String.eqb_eq in E. subst. exfalso. apply H. now left.
    + apply IH. intros Hin. apply H. now right.
Qed.

Lemma get_app_other {V} (d : dict V) (k k' : string) (v : V) :
  k <> k' -> get (d ++ [(k', v)])%list k = get d k.
Proof.
  intros Hne. induction d as [|[k0 v0] r IH]; simpl.
  - destruct (String.eqb k k') eqn:E; [apply String.eqb_eq in E; contradiction | reflexivity].
  - destruct (String.eqb k k0); [reflexivity | exact IH].
Qed.

Lemma get_map_entry {V} (f : string -> V) (l : list string) (c : string) :
  In c l -> get (map (fun c => (c, f c)) l) c = Some (f c).
Proof.
  induction l as [|x r IH]; simpl; intros H; [destruct H|].
  destruct (String.eqb c x) eqn:E.
  - apply String.eqb_eq in E. now subst.
  - destruct H as [->|H]; [rewrite String.eqb_refl in E; discriminate | now apply IH].
Qed.

Lemma filled_nth (s : list xq) (i : nat) :
  all_ok s = true -> (i < List.length s)%nat ->
  nth i (fillna (fill_value s) s) NaN = Fin (filled_score s i).
Proof.
  intros Hok Hi. unfold fillna, filled_score.
  set (f := fun x : xq => if is_nan x then fill_value s else x).
  rewrite (nth_indep _ NaN (f NaN)) by (rewrite length_map; exact Hi).
  rewrite map_nth.
  assert (finite_or_nan (nth i s NaN) = true) as Hc.
  { unfold all_ok in Hok. rewrite forallb_forall in Hok. apply Hok, nth_In, Hi. }
  unfold f. xq_norm. destruct (nth i s NaN) as [q| | |]; try discriminate; simpl.
  - reflexivity.
  - apply finite_inv, fill_value_fin, Hok.
Qed.

(** The rational percentages of a report. *)
Definition percentages (report : dict (@report_entry xq_num)) : list Q :=
  flat_map (fun e => match snd e with
                     | Contribution _ _ _ (Fin p) => [p]
                     | _ => []
                     end) report.

Section Breakdown.

Variable stored : DataFrame.
Variable i : nat.
Variable cw : dict xq.

(** The score of the row [i] of [stored] in the column [c]. *)
Definition score_q (c : string) : Q := toQ (nth i (column stored c) NaN).

Definition entry (c : string) : string * @report_entry xq_num :=
  (c, Contribution (Fin (score_q c)) (Fin (weight cw c))
        (Fin (score_q c * weight cw c)) (Fin 0)).

Definition readable (c : string) : Prop :=
  exists s q wq,
    select stored c = [s] /\ nth i s NaN = Fin q /\ get cw c = Some (Fin wq).

Lemma contribution_loop_spec (dims : list string) :
  forall (contributions : dict (@report_entry xq_num)) (a b : Q),
    (forall c, In c dims -> readable c) ->
    NoDup dims ->
    (forall c, In c dims -> ~ In c (keys contributions)) ->
    exists a' b',
      contribution_loop stored [i] cw dims contributions (Fin a) (Fin b)
        = Ok ((contributions ++ map entry dims)%list, Fin a', Fin b') /\
      a' == a + Qsum (map (fun c => score_q c * weight cw c) dims) /\
      b' == b + Qsum (map (weight cw) dims).
Proof.
  induction dims as [|c rest IH]; intros contributions a b Hr Hnd Hfresh.
  - exists a, b. simpl. rewrite app_nil_r. repeat split; lra.
  - destruct (Hr c (or_introl eq_refl)) as (s & q & wq & S & Q & G).
    inversion Hnd as [|? ? Hc Hrest]; subst.
    assert (contribution_loop stored [i] cw (c :: rest) contributions (Fin a) (Fin b)
            = contribution_loop stored [i] cw rest
                (contributions ++ [(c, Contribution (Fin q) (Fin wq) (Fin (q * wq)) (Fin 0))])%list
                (Fin (a + q * wq)) (Fin (b + wq))) as Step.
    { cbn [contribution_loop]. unfold score_at. rewrite S. cbv beta iota. cbn [bind].
      xq_norm. rewrite G, Q. cbn [XQ.mul XQ.add].
      now rewrite (@set_fresh _ contributions c _ (Hfresh c (or_introl eq_refl))). }
    destruct (IH (contributions ++ [(c, Contribution (Fin q) (Fin wq) (Fin (q * wq)) (Fin 0))])%list
                 (a + q * wq) (b + wq)) as (a' & b' & L & A & B).
    + intros; apply Hr; now right.
    + exact Hrest.
    + intros c' Hc' Hin. unfold keys in Hin. rewrite map_app in Hin.
      apply in_app_or in Hin. destruct Hin as [Hin|[<-|[]]].
      * apply (Hfresh c' (or_intror Hc')). exact Hin.
      * contradiction.
    + exists a', b'. split; [|split].
      * rewrite Step, L. rewrite <- app_assoc. cbn [map app].
        unfold entry at 2. unfold score_q, column, weight. rewrite S, G. cbn [hd].
        xq_norm. rewrite Q. reflexivity.
      * rewrite A. cbn [map Qsum fold_right].
        unfold score_q at 2. unfold column, weight at 2. rewrite S, G. cbn [hd].
        xq_norm. rewrite Q.
        simpl toQ. unfold Qsum. lra.
      * rewrite B. cbn [map Qsum fold_right]. unfold weight at 2. rewrite G.
        simpl toQ. unfold Qsum. lra.
Qed.

End Breakdown.

Lemma Qsum_map_ext {A} (f g : A -> Q) (l : list A) :
  (forall c, In c l -> f c == g c) -> Qsum (map f l) == Qsum (map g l).
Proof.
  induction l as [|x r IH]; intros H; simpl; [reflexivity|].
  rewrite (H x (or_introl eq_refl)), IH; [reflexivity|]. intros; apply H; now right.
Qed.

Lemma Qsum_map_share {A} (f : A -> Q) (t : Q) (l : list A) :
  ~ t == 0 -> Qsum (map (fun c => f c / t * 100) l) == Qsum (map f l) / t * 100.
Proof.
  intros Ht. induction l as [|x r IH]; simpl.
  - field. exact Ht.
  - rewrite IH. field. exact Ht.
Qed.

Lemma percentages_app (r1 r2 : dict (@report_entry xq_num)) :
  percentages (r1 ++ r2)%list = (percentages r1 ++ percentages r2)%list.
Proof. unfold percentages. apply flat_map_app. Qed.

(** X12.  For a country that labels one row of a frame on which the index
    is a weighted mean, [get_dimension_contribution] reports, for each
    weighted dimension, the score after filling, its weight and their
    product; the summary holds the number of dimensions, the sum of their
    weights and, when that sum is positive, the weighted mean itself,
    before it is clamped; and when the weighted scores add up to a
    positive number the percentages of the dimensions add up to 100. *)
Theorem get_dimension_contribution_breakdown :
  forall (l : loc) (w : World) (df : DataFrame) (country : string) (i : nat),
    nth_error (heap w) l = Some df ->
    well_formed df = true ->
    cells_ok df = true ->
    positions country (index df) = [i] ->
    let cw := current_weights (self w) in
    let cols := intersection (map normalize_name (columns df)) (keys cw) in
    let filled := fun c => filled_score (column (rename_columns df) c) i in
    cols <> [] ->
    weights_ok cw = true ->
    weighted_once df cols ->
    ~ In "_summary" cols ->
    exists report total used,
      fst (fst (get_dimension_contribution l country w)) = Ok report /\
      get report "_summary"
        = Some (Summary (Fin total) (Fin used) (List.length cols)) /\
      used == Qsum (map (weight cw) cols) /\
      (0 < used -> total == weighted_mean (rename_columns df) cw cols i) /\
      (forall c, In c cols ->
         exists pct,
           get report c =
             Some (Contribution (Fin (filled c)) (Fin (weight cw c))
                     (Fin (filled c * weight cw c)) (Fin pct))) /\
      (0 < Qsum (map (fun c => filled c * weight cw c) cols) ->
       Qsum (percentages report) == 100).
Proof.
  intros l w df country i Hl Hwf Hok Hpos cw cols filled Hcols Hw Honce Hsum.
  set (df1 := rename_columns df).
  assert (i < List.length (index df))%nat as Hi.
  { pose proof (@positions_from_bound country (index df) 0 i) as B.
    unfold positions in Hpos. rewrite Hpos in B. specialize (B (or_introl eq_refl)). lia. }
  assert (mem country (index df) = true) as Hmem.
  { destruct (mem country (index df)) eqn:E; [reflexivity|].
    unfold positions in Hpos. rewrite (@positions_from_absent country (index df) 0%nat E) in Hpos. discriminate. }
  assert (empty df = false) as Hne.
  { unfold empty. apply orb_false_iff. split; apply Nat.eqb_neq.
    - lia.
    - intros E. apply Hcols. unfold cols.
      destruct (columns df); [reflexivity | discriminate]. }
  assert (forall c, In c cols ->
            exists s, select df1 c = [s] /\ List.length s = List.length (index df)) as Hsel.
  { intros c Hc. apply (@select_singleton df1 c); [|now apply Honce].
    unfold df1. now rewrite well_formed_rename. }
  destruct (@fill_missing_spec cols df1 (NoDup_unique _)) as (df2 & F1 & F2 & F3 & _).
  { intros c Hc. destruct (Hsel c Hc) as [s [Hs _]]. eauto. }
  destruct (@fill_missing_labels _ _ _ _ F1) as [L1 _].
  assert (forall c, In c cols -> exists q, get cw c = Some (Fin q)) as Hget.
  { intros c Hc. apply In_intersection in Hc. destruct Hc as [_ Hc].
    apply (proj1 (get_has_key cw c)) in Hc. destruct Hc as [x G].
    pose proof (@weights_ok_get cw c x Hw G) as Hx. destruct x; try discriminate. eauto. }
  assert (forall c, In c cols ->
            readable df2 i cw c /\ score_q df2 i c = filled c) as Hread.
  { intros c Hc. destruct (Hsel c Hc) as [s [S1 S2]]. destruct (Hget c Hc) as [wq G].
    assert (all_ok s = true) as Hs by (apply (@select_ok df1 c s Hok); rewrite S1; now left).
    assert (i < List.length s)%nat as Hlen by (rewrite S2; exact Hi).
    pose proof (@filled_nth s i Hs Hlen) as Hn.
    split.
    - exists (fillna (fill_value s) s), (filled_score s i), wq.
      repeat split; auto.
    - unfold score_q, filled, column. change (rename_columns df) with df1.
      rewrite (F3 c s Hc S1), S1. cbn [hd].
      xq_norm. rewrite Hn. reflexivity. }
  destruct (@contribution_loop_spec df2 i cw cols [] 0 0) as (a' & b' & L & A & B).
  { intros c Hc. apply Hread, Hc. }
  { apply NoDup_unique. }
  { intros c _ []. }
  assert (a' == Qsum (map (fun c => filled c * weight cw c) cols)) as A'.
  { rewrite A, Qplus_0_l. apply Qsum_map_ext. intros c Hc.
    now rewrite (proj2 (Hread c Hc)). }
  assert (b' == Qsum (map (weight cw) cols)) as B' by (rewrite B; apply Qplus_0_l).
  (* the run *)
  assert (compute_fvi l w =
            (Ok (weighted_index df2 cw cols),
             {| heap := (heap w ++ [df2])%list;
                self := set_scores_df (self w) (List.length (heap w)) |},
             log_computed)) as Hrun.
  { destruct (compute_fvi_run l w) as [H|d H He|d H He Hi'|d e d2 H He Hi' Hf|d u d2 H He Hi' Hf];
      try congruence.
    all: assert (d = df) as -> by congruence; try congruence.
    - exfalso. apply Hcols. exact Hi'.
    - exfalso. change (fill_missing cols df1 = (Raise e, d2)) in Hf. congruence.
    - change (fill_missing cols df1 = (Ok u, d2)) in Hf.
      assert (d2 = df2) as -> by congruence. reflexivity. }
  set (pct := fun c => if Qlt_bool 0 a' then score_q df2 i c * weight cw c / a' * 100 else 0).
  set (total := if Qlt_bool 0 b' then a' / b' else 0).
  set (body := map (fun c => (c, Contribution (Fin (score_q df2 i c)) (Fin (weight cw c))
                                  (Fin (score_q df2 i c * weight cw c)) (Fin (pct c)))) cols).
  assert (with_percentages (Fin a') (map (entry df2 i cw) cols) = body) as Hbody.
  { unfold with_percentages, body, pct. rewrite map_map. apply map_ext. intros c.
    unfold entry. cbn [snd fst]. xq_norm. cbn [XQ.ltb].
    destruct (Qlt_bool 0 a') eqn:E; [|reflexivity].
    cbn [XQ.div XQ.mul].
    assert (Qeq_bool a' 0 = false) as ->.
    { destruct (Qeq_bool a' 0) eqn:E0; [|reflexivity].
      apply Qeq_bool_iff in E0. apply Qlt_bool_iff in E. lra. }
    reflexivity. }
  assert (keys body = cols) as Hkeys.
  { unfold keys, body. rewrite map_map. cbn [fst]. apply map_id. }
  exists (body ++ [("_summary", Summary (Fin total) (Fin b') (List.length cols))])%list,
         total, b'.
  split; [|split; [|split; [|split; [|split]]]].
  - unfold get_dimension_contribution. rewrite Hl, Hmem. cbn [negb]. rewrite Hrun.
    cbn [self heap set_scores_df scores_df].
    rewrite nth_error_app2 by lia. rewrite Nat.sub_diag. cbn [nth_error].
    rewrite F2. change (index df1) with (index df). rewrite Hpos.
    rewrite L1. change (columns df1) with (map normalize_name (columns df)).
    change (current_weights (set_scores_df (self w) (List.length (heap w)))) with cw.
    fold cols. xq_norm. rewrite L. cbn [app fst snd].
    rewrite Hbody. rewrite set_fresh by (rewrite Hkeys; exact Hsum).
    do 3 f_equal. unfold total. cbn [XQ.ltb].
    destruct (Qlt_bool 0 b') eqn:E; [|reflexivity]. cbn [XQ.div].
    assert (Qeq_bool b' 0 = false) as ->.
    { destruct (Qeq_bool b' 0) eqn:E0; [|reflexivity].
      apply Qeq_bool_iff in E0. apply Qlt_bool_iff in E. lra. }
    reflexivity.
  - apply get_app_fresh. rewrite Hkeys. exact Hsum.
  - exact B'.
  - intros Hpos'. unfold total.
    assert (Qlt_bool 0 b' = true) as -> by (apply Qlt_bool_iff; exact Hpos').
    unfold weighted_mean. fold df1. rewrite A', B'. reflexivity.
  - intros c Hc. exists (pct c).
    rewrite get_app_other by (intros ->; contradiction).
    unfold body.
    rewrite (@get_map_entry _ (fun c => Contribution (Fin (score_q df2 i c)) (Fin (weight cw c))
                                          (Fin (score_q df2 i c * weight cw c)) (Fin (pct c)))
               cols c Hc).
    now rewrite (proj2 (Hread c Hc)).
  - intros Hpos'. rewrite percentages_app. cbn [percentages flat_map snd app].
    rewrite app_nil_r.
    assert (percentages body = map pct cols) as ->.
    { unfold percentages, body. rewrite flat_map_concat_map, map_map. cbn [snd].
      rewrite <- flat_map_concat_map. clear. induction cols as [|c r IH]; simpl; congruence. }
    assert (0 < a') as Ha by (rewrite A'; exact Hpos').
    unfold pct. assert (Qlt_bool 0 a' = true) as -> by (apply Qlt_bool_iff; exact Ha).
    rewrite Qsum_map_share by lra.
    assert (Qsum (map (fun c => score_q df2 i c * weight cw c) cols) == a') as ->.
    { rewrite A, Qplus_0_l. reflexivity. }
    field. lra.
Qed.

End aggregator_reports.

(* ================================================================== *)
(** * The infrastructure scorer where it stays in range                 *)
(* ================================================================== *)

Module infrastructure_ranges.

Import tables utils infrastructure infrastructure_components.
Import aggregator_frame aggregator_exact utils_ranges.

#[local] Existing Instance xq_num.

Local Open Scope string_scope.
Local Open Scope Q_scope.

(** ** The weighted aggregate *)

(** The weight that [_aggregate_infrastructure_scores] gives a component
    among [n]. *)
Definition component_weight (n : nat) (component : string) : xq :=
  match get infrastructure.default_weights component with
  | Some w => w
  | None => fdiv f1 (of_Q (inject_Z (Z.of_nat n)))
  end.

Lemma component_weight_positive (n : nat) (component : string) :
  (0 < n)%nat -> exists wq, component_weight n component = Fin wq /\ 0 < wq.
Proof.
  intros Hn. unfold component_weight.
  destruct (get infrastructure.default_weights component) as [w|] eqn:G.
  - apply get_In in G.
    assert (forallb (fun kv : string * xq =>
                       match snd kv with Fin q => Qlt_bool 0 q | _ => false end)
                    infrastructure.default_weights = true) as H by (vm_compute; reflexivity).
    rewrite forallb_forall in H. specialize (H _ G). cbn [snd] in H.
    destruct w as [q| | |]; try discriminate. exists q. split; [reflexivity|].
    now apply Qlt_bool_iff.
  - xq_norm. cbn [XQ.div].
    assert (0 < inject_Z (Z.of_nat n)) as Hpos.
    { unfold Qlt. simpl. lia. }
    assert (Qeq_bool (inject_Z (Z.of_nat n)) 0 = false) as ->.
    { destruct (Qeq_bool _ 0) eqn:E; [|reflexivity]. apply Qeq_bool_iff in E. lra. }
    eexists. split; [reflexivity|]. apply Qlt_shift_div_l; lra.
Qed.

(** The scores are rationals between [lo] and [hi]. *)
Definition scores_within (lo hi : Q) (scores : dict (@cell xq_num)) : Prop :=
  forall country v, In (country, v) scores -> exists q, v = CNum (Fin q) /\ lo <= q <= hi.

Lemma weigh_within (lo hi : Q) (n : nat) (ccs : dict (@cell xq_num)) :
  (0 < n)%nat ->
  scores_within lo hi ccs ->
  forall a b,
    lo * b <= a <= hi * b -> 0 <= b ->
    exists a' b',
      weigh n ccs (Fin a) (Fin b) = Ok (Fin a', Fin b') /\
      lo * b' <= a' <= hi * b' /\ b <= b' /\ (ccs <> [] -> b < b').
Proof.
  intros Hn. induction ccs as [|[component v] rest IH]; intros Hs a b Hab Hb.
  - exists a, b. simpl. repeat split; try lra. congruence.
  - destruct (Hs component v (or_introl eq_refl)) as [q [-> Hq]].
    destruct (component_weight_positive component Hn) as [wq [W Wpos]].
    assert (weigh n ((component, CNum (Fin q)) :: rest) (Fin a) (Fin b)
            = weigh n rest (Fin (a + q * wq)) (Fin (b + wq))) as Step.
    { cbn [weigh].
      change (weigh n rest (fadd (Fin a) (fmul (Fin q) (component_weight n component)))
                (fadd (Fin b) (component_weight n component)) = 
              weigh n rest (Fin (a + q * wq)) (Fin (b + wq))).
      rewrite W. reflexivity. }
    destruct (IH (fun c v H => Hs c v (or_intror H)) (a + q * wq) (b + wq))
      as (a' & b' & R & Ha' & Hb' & _); [nra | lra |].
    exists a', b'. rewrite Step. repeat split; try lra. exact R.
Qed.

(** Some component knows the country. *)
Definition known (component_scores : dict (dict (@cell xq_num))) (country : string) : bool :=
  existsb (fun cs => has_key (snd cs) country) component_scores.

Lemma country_scores_known (component_scores : dict (dict (@cell xq_num))) (country : string) :
  flat_map (fun cs => match get (snd cs) country with
                      | Some v => [(fst cs, v)]
                      | None => []
                      end) component_scores = [] <->
  known component_scores country = false.
Proof.
  unfold known. induction component_scores as [|cs rest IH]; simpl; [tauto|].
  destruct (get (snd cs) country) as [v|] eqn:G.
  - assert (has_key (snd cs) country = true) as -> by (apply get_has_key; eauto).
    simpl. split; discriminate.
  - assert (has_key (snd cs) country = false) as ->.
    { destruct (has_key (snd cs) country) eqn:K; [|reflexivity].
      apply get_has_key in K. destruct K as [v K]. congruence. }
    simpl. exact IH.
Qed.

Lemma country_scores_within (lo hi : Q) (component_scores : dict (dict (@cell xq_num)))
  (country : string) :
  (forall component scores, In (component, scores) component_scores ->
                            scores_within lo hi scores) ->
  scores_within lo hi
    (flat_map (fun cs => match get (snd cs) country with
                         | Some v => [(fst cs, v)]
                         | None => []
                         end) component_scores).
Proof.
  intros H component v Hin. apply in_flat_map in Hin.
  destruct Hin as [[name scores] [Hcs Hv]]. cbn [fst snd] in Hv.
  destruct (get scores country) as [v'|] eqn:G; [|destruct Hv].
  destruct Hv as [Hv|[]]. injection Hv as <- <-.
  apply (H name scores Hcs country v'). now apply get_In.
Qed.

(** What the aggregate holds for a country: a rational between the bounds
    when some component knows the country, 50 otherwise. *)
Definition aggregated (lo hi : Q) (component_scores : dict (dict (@cell xq_num)))
  (final_scores : dict xq) (country : string) : Prop :=
  exists v,
    get final_scores country = Some (Fin v) /\
    (if known component_scores country then lo <= v <= hi else v == 50).

Lemma aggregate_loop_within (lo hi : Q) (component_scores : dict (dict (@cell xq_num))) :
  component_scores <> [] ->
  (forall component scores, In (component, scores) component_scores ->
                            scores_within lo hi scores) ->
  forall country_list final_scores,
    exists final,
      aggregate_loop component_scores country_list final_scores = Ok final /\
      (forall c, In c country_list -> aggregated lo hi component_scores final c) /\
      (forall c, ~ In c country_list -> get final c = get final_scores c).
Proof.
  intros Hne Hs.
  assert (0 < List.length component_scores)%nat as Hn
    by (destruct component_scores; [congruence | simpl; lia]).
  induction country_list as [|country rest IH]; intros final_scores.
  - exists final_scores. simpl. repeat split; auto. intros c [].
  - cbn [aggregate_loop].
    pose proof (country_scores_known component_scores country) as Hk.
    pose proof (@country_scores_within lo hi component_scores country Hs) as Hw.
    remember (flat_map (fun cs => match get (snd cs) country with
                                  | Some v => [(fst cs, v)]
                                  | None => []
                                  end) component_scores) as ccs eqn:Eccs.
    clear Eccs.
    assert (exists v, (if known component_scores country then lo <= v <= hi else v == 50) /\
              match ccs with
              | [] => aggregate_loop component_scores rest (set final_scores country f50)
              | _ :: _ =>
                  bind (weigh (List.length component_scores) ccs f0 f0)
                    (fun sums => let (weighted_sum, total_weight) := sums in
                       aggregate_loop component_scores rest
                         (set final_scores country
                            (if fltb f0 total_weight then fdiv weighted_sum total_weight
                             else f50)))
              end = aggregate_loop component_scores rest (set final_scores country (Fin v)))
      as (v & Hv & Step).
    { destruct ccs as [|cc ccs'].
      - exists 50. rewrite (proj1 Hk eq_refl). split; [reflexivity | reflexivity].
      - assert (known component_scores country = true) as ->.
        { destruct (known component_scores country) eqn:K; [reflexivity|].
          discriminate (proj2 Hk eq_refl). }
        destruct (@weigh_within lo hi _ (cc :: ccs') Hn Hw 0 0) as (a' & b' & R & Ha & _ & Hb);
          [lra | lra |].
        specialize (Hb ltac:(discriminate)).
        exists (a' / b'). split.
        + split; [apply Qle_shift_div_l | apply Qle_shift_div_r]; lra.
        + xq_norm. rewrite R. cbn [bind]. cbn [XQ.ltb XQ.div].
          assert (Qlt_bool 0 b' = true) as -> by (now apply Qlt_bool_iff).
          assert (Qeq_bool b' 0 = false) as ->.
          { destruct (Qeq_bool b' 0) eqn:E0; [|reflexivity]. apply Qeq_bool_iff in E0. lra. }
          reflexivity. }
    rewrite Step.
    destruct (IH (set final_scores country (Fin v))) as (final & R & In1 & Out1).
    exists final. split; [exact R|]. split.
    + intros c [<-|Hc].
      * destruct (in_dec string_dec country rest) as [Hin|Hnin]; [now apply In1|].
        exists v. split; [|exact Hv].
        refine (eq_trans (Out1 _ Hnin) _). apply get_set_same.
      * now apply In1.
    + intros c Hc. refine (eq_trans (Out1 c _) _); [intros Hin; apply Hc; now right|].
      apply get_set_other. intros ->. apply Hc. now left.
Qed.

(** ** The components of the single-dataset path *)

Lemma get_fold_set {V} (f : string -> V) (l : list string) : forall (init : dict V) c,
  (In c l -> get (fold_left (fun s c => set s c (f c)) l init) c = Some (f c)) /\
  (~ In c l -> get (fold_left (fun s c => set s c (f c)) l init) c = get init c).
Proof.
  induction l as [|x r IH]; intros init c; simpl.
  - split; [intros [] | reflexivity].
  - destruct (IH (set init x (f x)) c) as [I1 I2]. split.
    + intros [->|H].
      * destruct (in_dec string_dec c r) as [Hin|Hnin]; [now apply I1|].
        rewrite (I2 Hnin). apply get_set_same.
      * now apply I1.
    + intros H. rewrite I2 by tauto. apply get_set_other. intros ->. apply H. now left.
Qed.

Lemma fallback_infrastructure_scored (country_list : list string) (c : string) :
  In c country_list ->
  exists q, get (_fallback_infrastructure_scores country_list) c = Some (Fin q) /\
            35 <= q <= 80.
Proof.
  intros Hc. unfold _fallback_infrastructure_scores.
  destruct country_list as [|x r]; [destruct Hc|].
  set (table := [("India", of_Q 65); _; _; _; _; _; _; _]).
  rewrite (proj1 (@get_fold_set _ (fun country => match get table country with
                                                  | Some v => v
                                                  | None => of_Q 55
                                                  end) (x :: r) [] c) Hc).
  destruct (get table c) as [v|] eqn:G.
  - apply get_In in G.
    assert (forallb (fun kv : string * xq =>
                       match snd kv with
                       | Fin q => Qle_bool 35 q && Qle_bool q 80
                       | _ => false
                       end) table = true) as H by (vm_compute; reflexivity).
    rewrite forallb_forall in H. specialize (H _ G). cbn [snd] in H.
    destruct v as [q| | |]; try discriminate. apply andb_prop in H. destruct H as [H1 H2].
    apply Qle_bool_iff in H1, H2. exists q. split; [reflexivity | lra].
  - exists 55. split; [reflexivity | lra].
Qed.

Section SingleDataset.

Variable py_str : xq -> string.
Variable py_float : string -> option xq.

Definition values_in_range (scores : dict xq) : Prop :=
  forall country v, In (country, v) scores -> in_range v.

Lemma normalize_score_ranged (value : option xq) (min_val max_val default : xq) :
  in_range default -> in_range (normalize_score value min_val max_val default).
Proof.
  intros Hd. unfold normalize_score. destruct value as [v|]; [|exact Hd].
  destruct (is_nan v); [exact Hd|]. destruct (feqb min_val max_val); [exact Hd|].
  apply py_clamp_range.
Qed.

Lemma normalize_score_of_ranged (value : cell) (min_val max_val default : xq) :
  in_range default ->
  in_range (normalize_score_of py_float value min_val max_val default).
Proof.
  intros Hd. unfold normalize_score_of. destruct value as [x|s].
  - now apply normalize_score_ranged.
  - destruct (py_float s); [|exact Hd].
    destruct (feqb min_val max_val); [exact Hd|]. apply py_clamp_range.
Qed.

Lemma inverted_in_range (v : xq) : in_range v -> in_range (fsub f100 v).
Proof.
  intros [q [-> Hq]]. exists (100 + - q). split; [reflexivity | lra].
Qed.

Lemma score_of_factors_ranged (factors : list cell) (invert : bool) (v : xq) :
  score_of_factors factors invert = Ok v -> in_range v.
Proof.
  unfold score_of_factors. destruct factors as [|c r].
  - intros H. injection H as <-. apply fifty_in_range.
  - destruct (np_mean (c :: r)) as [avg|e]; [|discriminate]. cbn [bind].
    intros H. injection H as <-.
    pose proof (@normalize_score_ranged (Some avg) f0 f100 f50 fifty_in_range) as R.
    destruct invert; [now apply inverted_in_range | exact R].
Qed.

Lemma set_in_range (scores : dict xq) (country : string) (v : xq) :
  values_in_range scores -> in_range v -> values_in_range (set scores country v).
Proof.
  intros Hs Hv. induction scores as [|[k x] r IH]; simpl.
  - intros c y [H|[]]. injection H as <- <-. exact Hv.
  - destruct (String.eqb country k).
    + intros c y [H|H]; [injection H as <- <-; exact Hv | apply (Hs c y); now right].
    + intros c y [H|H]; [apply (Hs c y); now left|].
      apply (IH (fun c y H => Hs c y (or_intror H)) c y H).
Qed.

Lemma has_key_set {V} (d : dict V) (k k' : string) (v : V) :
  has_key (set d k v) k' = has_key d k' || String.eqb k' k.
Proof.
  unfold has_key, keys, mem. induction d as [|[k0 v0] r IH]; simpl.
  - now rewrite orb_false_r.
  - destruct (String.eqb k k0) eqn:E; simpl.
    + apply String.eqb_eq in E. subst k0.
      destruct (String.eqb k' k); simpl; [reflexivity|]. now rewrite orb_false_r.
    + rewrite IH. now rewrite orb_assoc.
Qed.

Lemma score_countries_ranged (df : Table) (country_col : string)
  (score_of : row -> outcome xq) :
  (forall latest v, score_of latest = Ok v -> in_range v) ->
  forall country_list scores result,
    values_in_range scores ->
    score_countries py_str df country_col score_of country_list scores = Ok result ->
    values_in_range result /\
    forall c, In c country_list \/ has_key scores c = true -> has_key result c = true.
Proof.
  intros Hscore. induction country_list as [|country rest IH]; intros scores result Hs H;
    cbn [score_countries] in H.
  - injection H as <-. split; [exact Hs|]. intros c [[]|Hc]; exact Hc.
  - destruct (last_row (country_rows py_str df country_col country)) as [latest|].
    + destruct (score_of latest) as [v|e] eqn:E; [|discriminate]. cbn [bind] in H.
      apply IH in H; [|apply set_in_range; eauto].
      destruct H as [H1 H2]. split; [exact H1|]. intros c Hc. apply H2.
      rewrite has_key_set. destruct Hc as [[<-|Hc]|Hc]; auto.
      * right. rewrite String.eqb_refl. apply orb_true_r.
      * right. rewrite Hc. reflexivity.
    + apply IH in H; [|apply set_in_range; auto; apply fifty_in_range].
      destruct H as [H1 H2]. split; [exact H1|]. intros c Hc. apply H2.
      rewrite has_key_set. destruct Hc as [[<-|Hc]|Hc]; auto.
      * right. rewrite String.eqb_refl. apply orb_true_r.
      * right. rewrite Hc. reflexivity.
Qed.

Lemma calculators_ranged (calc : string * (Table -> string -> list string -> outcome (dict xq)))
  (df : Table) (country_col : string) (country_list : list string) (scores : dict xq) :
  In calc (score_calculations py_str py_float) ->
  snd calc df country_col country_list = Ok scores ->
  values_in_range scores /\ forall c, In c country_list -> has_key scores c = true.
Proof.
  intros Hin H.
  assert (forall score_of,
            (forall latest v, score_of latest = Ok v -> in_range v) ->
            score_countries py_str df country_col score_of country_list [] = Ok scores ->
            values_in_range scores /\
            forall c, In c country_list -> has_key scores c = true) as Gen.
  { intros score_of Hs R.
    destruct (@score_countries_ranged df country_col score_of Hs country_list [] scores) as [A B];
      [intros ? ? [] | exact R |]. split; [exact A | intros c Hc; apply B; now left]. }
  destruct Hin as [<-|[<-|[<-|[<-|[<-|[]]]]]]; cbn [snd] in H.
  - eapply Gen; [|exact H]. intros latest v. apply score_of_factors_ranged.
  - eapply Gen; [|exact H]. intros latest v. apply score_of_factors_ranged.
  - eapply Gen; [|exact H]. intros latest v Hv. cbv beta zeta in Hv.
    destruct (has_column df "pm25_exposure");
      [destruct (cell_notna (field df "pm25_exposure" latest))|];
      injection Hv as <-; try apply fifty_in_range.
    apply normalize_score_of_ranged, fifty_in_range.
  - eapply Gen; [|exact H]. intros latest v. apply score_of_factors_ranged.
  - eapply Gen; [|exact H]. intros latest v Hv. cbv beta zeta in Hv.
    destruct (has_column df "control_corruption_index");
      [destruct (cell_notna (field df "control_corruption_index" latest))|];
      injection Hv as <-; try apply fifty_in_range.
    apply inverted_in_range, normalize_score_of_ranged, fifty_in_range.
Qed.

Lemma In_set {V} (d : dict V) (k k' : string) (v v' : V) :
  In (k, v) (set d k' v') -> v = v' \/ In (k, v) d.
Proof.
  induction d as [|[k0 v0] r IH]; simpl.
  - intros [H|[]]. injection H as <- <-. now left.
  - destruct (String.eqb k' k0).
    + intros [H|H]; [injection H as <- <-; now left | right; now right].
    + intros [H|H]; [right; now left|]. destruct (IH H); auto.
Qed.

(** The scores of a component: rationals of [0,100], one for every
    country of the list. *)
Definition component_ok (country_list : list string) (scores : dict xq) : Prop :=
  values_in_range scores /\ forall c, In c country_list -> has_key scores c = true.

Lemma extract_scores_ranged (df : Table) (country_list : list string)
  (component_scores : dict (dict xq)) :
  _extract_scores_from_single_dataset py_str py_float df country_list = Ok component_scores ->
  forall component scores,
    In (component, scores) component_scores -> component_ok country_list scores.
Proof.
  unfold _extract_scores_from_single_dataset.
  destruct (get_latest_data_by_country df) as [latest_df|e]; [|discriminate]. cbn [bind].
  destruct (filter _ (tcolumns latest_df)) as [|country_col cols].
  - intros H. injection H as <-. intros ? ? [].
  - intros H. injection H as <-.
    assert (forall calcs acc,
              (forall calc, In calc calcs -> In calc (score_calculations py_str py_float)) ->
              (forall component scores, In (component, scores) acc ->
                                        component_ok country_list scores) ->
              forall component scores,
                In (component, scores)
                   (fold_left
                      (fun component_scores calc =>
                         match snd calc latest_df country_col country_list with
                         | Ok ((_ :: _) as scores) => set component_scores (fst calc) scores
                         | Ok [] | Raise _ => component_scores
                         end) calcs acc) ->
                component_ok country_list scores) as Gen.
    { induction calcs as [|calc rest IH]; intros acc Hc Hacc; [exact Hacc|].
      cbn [fold_left]. apply IH; [intros; apply Hc; now right|].
      intros component scores. cbv beta.
      match goal with
      | |- context [match ?t with Ok _ => _ | Raise _ => _ end] =>
          destruct t as [[|kv r]|e] eqn:E
      end; intros Hin; try (now apply (Hacc component scores)).
      apply In_set in Hin. destruct Hin as [->|Hin].
      - apply (@calculators_ranged calc latest_df country_col country_list);
          [apply Hc; now left | exact E].
      - now apply (Hacc component scores). }
    exact (Gen (score_calculations py_str py_float) [] (fun _ H => H)
               (fun _ _ H => match H with end)).
Qed.

(** X14.  With a single dataset the infrastructure scorer stays in range
    whatever the cells hold: when the latest rows can be taken, the
    scoring that follows the loading returns, and it gives every country
    of the list a rational score of [0,100] -- each of the five component
    calculators clamps, a calculator that fails is skipped, and the
    aggregate is a weighted mean of what is left. *)
Theorem single_dataset_scores_in_range :
  forall (name : string) (df latest : Table) (country_list : list string),
    get_latest_data_by_country df = Ok latest ->
    exists final,
      score_loaded py_str py_float [(name, df)] country_list = Ok final /\
      forall country, In country country_list ->
        exists q, get final country = Some (Fin q) /\ 0 <= q <= 100.
Proof.
  intros name df latest country_list Hlatest.
  unfold score_loaded, _calculate_component_scores.
  destruct (_extract_scores_from_single_dataset py_str py_float df country_list)
    as [comps|e] eqn:E.
  2:{ unfold _extract_scores_from_single_dataset in E. rewrite Hlatest in E. cbn [bind] in E.
      destruct (filter _ (tcolumns latest)); discriminate. }
  pose proof (extract_scores_ranged _ _ E) as Hc. cbn [bind].
  set (cells := map (fun cs : string * dict xq =>
                       (fst cs, map (fun kv : string * xq => (fst kv, CNum (snd kv))) (snd cs)))
                    comps).
  change (exists final,
            match cells with
            | [] => Ok (_fallback_infrastructure_scores country_list)
            | _ :: _ => _aggregate_infrastructure_scores cells country_list
            end = Ok final /\
            forall country, In country country_list ->
              exists q, get final country = Some (Fin q) /\ 0 <= q <= 100).
  assert (forall component scores, In (component, scores) cells ->
                                   scores_within 0 100 scores) as Hcells.
  { intros component scores Hin. unfold cells in Hin. apply in_map_iff in Hin.
    destruct Hin as [[k sc] [Heq Hin]]. injection Heq as <- <-.
    intros country v Hv. cbn [snd] in Hv. apply in_map_iff in Hv.
    destruct Hv as [[c x] [Heq Hx]]. injection Heq as <- <-.
    destruct (Hc k sc Hin) as [Hr _]. destruct (Hr c x Hx) as [q [-> Hq]].
    exists q. split; [reflexivity | exact Hq]. }
  clearbody cells. destruct cells as [|cs rest].
  - eexists. split; [reflexivity|]. intros country Hin.
    destruct (@fallback_infrastructure_scored country_list country Hin) as [q [G Hq]].
    exists q. split; [exact G | lra].
  - destruct (@aggregate_loop_within 0 100 (cs :: rest) ltac:(discriminate) Hcells
                country_list []) as (final & R & H & _).
    exists final. split; [exact R|].
    intros country Hin. destruct (H country Hin) as [v [G Hv]].
    exists v. split; [exact G|].
    destruct (known (cs :: rest) country); lra.
Qed.

End SingleDataset.

(** ** The per-dataset scores *)

Section PerDataset.

Variable py_str : xq -> string.

Lemma idxmax_In (year : row -> @cell xq_num) (rows : list row) : forall best r,
  idxmax year rows best = Some r -> In r rows \/ best = Some r.
Proof.
  induction rows as [|x rest IH]; intros best r H; simpl in H; [now right|].
  assert (forall b, idxmax year rest b = Some r -> b = best \/ b = Some x ->
                    In r (x :: rest) \/ best = Some r) as Step.
  { intros b Hb [-> | ->]; destruct (IH _ _ Hb) as [Hin|Heq]; auto.
    - left. now right.
    - left. now right.
    - left. left. congruence. }
  revert H. destruct (year x) as [y|s].
  - destruct (XQ.isnan y).
    + intros H'. apply (Step best H'). now left.
    + destruct best as [b|].
      * destruct (year b) as [yb|sb].
        -- destruct (XQ.ltb yb y); intros H'.
           ++ apply (Step (Some x) H'). now right.
           ++ apply (Step (Some b) H'). now left.
        -- intros H'. apply (Step (Some b) H'). now left.
      * intros H'. apply (Step (Some x) H'). now right.
  - intros H'. apply (Step best H'). now left.
Qed.

Lemma collect_In {A} (P : A -> Prop) (l : list (outcome A)) : forall rows,
  (forall a, In (Ok a) l -> P a) -> collect l = Ok rows -> forall a, In a rows -> P a.
Proof.
  induction l as [|[a|e] r IH]; intros rows HP H; simpl in H.
  - injection H as <-. intros ? [].
  - destruct (collect r) as [rows'|e] eqn:E; [|discriminate]. cbn [bind] in H.
    injection H as <-. intros x [<-|Hx].
    + apply HP. now left.
    + eapply IH; eauto. intros; apply HP; now right.
  - discriminate.
Qed.

(** The latest rows are rows of the dataset, under the same labels. *)
Lemma get_latest_rows (df latest : Table) :
  get_latest_data_by_country df = Ok latest ->
  tcolumns latest = tcolumns df /\ forall r, In r (trows latest) -> In r (trows df).
Proof.
  unfold get_latest_data_by_country.
  destruct (tempty df || negb (has_column df "country_name")).
  - intros H. injection H as <-. auto.
  - destruct (has_column df "year").
    + destruct (existsb _ (trows df)); [discriminate|].
      match goal with
      | |- bind (collect ?l) _ = _ -> _ => destruct (collect l) as [rows|e] eqn:E
      end; [|discriminate].
      cbn [bind]. intros H. injection H as <-. split; [reflexivity|].
      cbn [trows with_rows].
      refine (@collect_In _ (fun r => In r (trows df)) _ _ _ E).
      intros a Ha. apply in_map_iff in Ha. destruct Ha as [k [Hk _]].
      match type of Hk with
      | match ?t with Some _ => _ | None => _ end = _ => destruct t as [r|] eqn:I
      end; [|discriminate].
      injection Hk as ->. apply idxmax_In in I. destruct I as [I|I]; [|discriminate].
      apply filter_In in I. destruct I as [I _]. apply filter_In in I. tauto.
    + intros H. injection H as <-. split; [reflexivity|].
      cbn [trows with_rows]. intros r Hr.
      eapply extractor.In_drop_duplicates_last; eauto.
Qed.

(** The columns that [_calculate_scores_for_dataset] reads hold shares or
    percentages: missing, or a rational of [0,100]. *)
Definition percent_cell (c : @cell xq_num) : Prop :=
  c = CNum NaN \/ exists q, c = CNum (Fin q) /\ 0 <= q <= 100.

Definition percent_columns (df : Table) : Prop :=
  forall r col,
    In r (trows df) ->
    In col (score_columns ++ ["electricity_coal_pct"])%list ->
    has_column df col = true ->
    percent_cell (field df col r).

Lemma to_percent_in_range (q : Q) :
  0 <= q <= 100 -> exists p, to_percent (Fin q) = Fin p /\ 0 <= p <= 100.
Proof.
  intros Hq. unfold to_percent. xq_norm. unfold XQ.leb. cbn [XQ.ltb XQ.eqb XQ.mul].
  destruct (Qlt_bool q 1 || Qeq_bool q 1) eqn:E.
  - eexists. split; [reflexivity|]. apply orb_true_iff in E.
    destruct E as [E|E]; qbool; nra.
  - exists q. split; [reflexivity | exact Hq].
Qed.

Lemma from_score_columns_ranged (t : Table) (latest : row) : forall cols r,
  (forall col, In col cols -> has_column t col = true -> percent_cell (field t col latest)) ->
  from_score_columns t latest cols = Ok r ->
  match r with
  | Some c => exists p, c = CNum (Fin p) /\ 0 <= p <= 100
  | None => True
  end.
Proof.
  induction cols as [|col rest IH]; intros r Hp H; simpl in H.
  - injection H as <-. exact I.
  - destruct (has_column t col) eqn:Hc.
    + destruct (Hp col (or_introl eq_refl) Hc) as [E|[q [E Hq]]]; rewrite E in H.
      * apply IH in H; [exact H | intros; apply Hp; auto; now right].
      * cbn in H. injection H as <-.
        destruct (to_percent_in_range Hq) as [p [-> Hp']]. eauto.
    + apply IH in H; [exact H | intros; apply Hp; auto; now right].
Qed.

Lemma score_of_country_ranged (latest_df : Table) (country_col country : string)
  (v : @cell xq_num) :
  percent_columns latest_df ->
  score_of_country py_str latest_df country_col country = Ok v ->
  exists p, v = CNum (Fin p) /\ 0 <= p <= 100.
Proof.
  intros Hp. unfold score_of_country.
  match goal with
  | |- match last_row ?rows with Some _ => _ | None => _ end = _ -> _ =>
      assert (forall r, In r rows -> In r (trows latest_df)) as Hsub;
      [|destruct (last_row rows) as [latest|] eqn:L]
  end.
  { intros r.
    destruct (filter _ (trows latest_df)) as [|x l] eqn:F.
    - destruct (find _ _) as [dc|]; [|intros []].
      intros Hr. apply filter_In in Hr. tauto.
    - rewrite <- F. intros Hr. apply filter_In in Hr. tauto. }
  - apply extractor.last_row_In in L. apply Hsub in L.
    destruct (from_score_columns latest_df latest score_columns) as [[c|]|e] eqn:Fs;
      try discriminate; cbn [bind].
    + intros H. injection H as <-.
      apply (@from_score_columns_ranged latest_df latest score_columns (Some c)); [|exact Fs].
      intros col Hc Hh. apply Hp; auto. apply in_or_app. now left.
    + destruct (has_column latest_df "electricity_coal_pct") eqn:Hc; cbn [andb].
      * destruct (Hp latest "electricity_coal_pct" L) as [E|[q [E Hq]]]; auto.
        -- apply in_or_app. right. now left.
        -- rewrite E. cbn. intros H. injection H as <-. exists 50. split; [reflexivity|lra].
        -- rewrite E. cbn. intros H. injection H as <-. eauto.
      * intros H. injection H as <-. exists 50. split; [reflexivity|lra].
  - intros H. injection H as <-. exists 50. split; [reflexivity|lra].
Qed.

Lemma scores_loop_ranged (latest_df : Table) (country_col : string) :
  percent_columns latest_df ->
  forall country_list scores result,
    scores_within 0 100 scores ->
    scores_loop py_str latest_df country_col country_list scores = Ok result ->
    scores_within 0 100 result /\
    forall c, In c country_list \/ has_key scores c = true -> has_key result c = true.
Proof.
  intros Hp. induction country_list as [|country rest IH]; intros scores result Hs H;
    cbn [scores_loop] in H.
  - injection H as <-. split; [exact Hs|]. intros c [[]|Hc]; exact Hc.
  - destruct (score_of_country py_str latest_df country_col country) as [v|e] eqn:E;
      [|discriminate]. cbn [bind] in H.
    destruct (score_of_country_ranged _ _ Hp E) as [p [-> Hp']].
    apply IH in H.
    + destruct H as [H1 H2]. split; [exact H1|]. intros c Hc. apply H2.
      rewrite has_key_set. destruct Hc as [[<-|Hc]|Hc]; auto.
      * right. rewrite String.eqb_refl. apply orb_true_r.
      * right. rewrite Hc. reflexivity.
    + intros c v Hin. apply In_set in Hin. destruct Hin as [->|Hin]; [eauto|].
      now apply (Hs c v).
Qed.

(** X15.  When the score columns and the coal share of a dataset hold
    shares or percentages (missing, or a rational of [0,100]), the
    per-dataset scores that [_calculate_scores_for_dataset] returns are
    rationals of [0,100], and when the dataset has a country column every
    country of the list has one.  The function does not clamp: the range
    is that of the data. *)
Theorem calculate_scores_for_dataset_in_range :
  forall (df : Table) (dataset_name : string) (country_list : list string)
         (scores : dict (@cell xq_num)),
    percent_columns df ->
    _calculate_scores_for_dataset py_str df dataset_name country_list = Ok scores ->
    scores_within 0 100 scores /\
    (existsb (fun col => contains "country" (lower col)) (tcolumns df) = true ->
     forall country, In country country_list -> has_key scores country = true).
Proof.
  intros df name country_list scores Hp. unfold _calculate_scores_for_dataset.
  destruct (get_latest_data_by_country df) as [latest|e] eqn:L; [|discriminate].
  cbn [bind]. destruct (@get_latest_rows df latest L) as [Hc Hr].
  assert (percent_columns latest) as Hp'.
  { intros r col Hin Hcol Hh. unfold field. rewrite Hc.
    apply (Hp r col); auto. unfold has_column in *. now rewrite <- Hc. }
  rewrite Hc.
  destruct (filter (fun col => contains "country" (lower col)) (tcolumns df))
    as [|country_col cols] eqn:F.
  - intros H. injection H as <-. split; [intros ? ? []|].
    intros E. apply existsb_exists in E. destruct E as [col [Hin Hcol]].
    assert (In col (filter (fun col => contains "country" (lower col)) (tcolumns df)))
      by (apply filter_In; auto).
    rewrite F in H. destruct H.
  - intros H. destruct (@scores_loop_ranged latest country_col Hp' country_list [] scores)
      as [H1 H2]; [intros ? ? [] | exact H |].
    split; [exact H1|]. intros _ country Hin. apply H2. now left.
Qed.

End PerDataset.

End infrastructure_ranges.

Module latest_data.

Import tables utils infrastructure extractor aggregator_reports infrastructure_ranges.

#[local] Existing Instance xq_num.

Local Open Scope string_scope.

Section Latest.

Variable df : @Table xq_num.

Definition country (r : row) : @cell xq_num := field df "country_name" r.
Definition year (r : row) : @cell xq_num := field df "year" r.

(** No two rows of the list are of the same country. *)
Definition one_per_country (rows : list row) : Prop :=
  ForallOrdPairs (fun a b => same_value (country a) (country b) = false) rows.

Definition distinct (cs : list (@cell xq_num)) : Prop :=
  ForallOrdPairs (fun a b => same_value a b = false) cs.

Lemma distinct_filter (f : @cell xq_num -> bool) (cs : list cell) :
  distinct cs -> distinct (filter f cs).
Proof.
  unfold distinct. induction 1 as [|c cs Hc Hcs IH]; cbn [filter]; [constructor|].
  destruct (f c); [|exact IH]. constructor; [|exact IH].
  rewrite Forall_forall in *. intros x Hx. apply filter_In in Hx. now apply Hc.
Qed.

Lemma unique_cells_distinct (cs : list (@cell xq_num)) : distinct (unique_cells cs).
Proof.
  induction cs as [|c rest IH]; cbn [unique_cells]; [constructor|].
  constructor; [|now apply distinct_filter].
  rewrite Forall_forall. intros x Hx. apply filter_In in Hx. destruct Hx as [_ Hx].
  now apply negb_true_iff in Hx.
Qed.

Lemma unique_cells_covers (cs : list (@cell xq_num)) : forall c,
  In c cs -> exists c', In c' (unique_cells cs) /\ same_value c' c = true.
Proof.
  induction cs as [|c0 rest IH]; intros c Hc; [destruct Hc|].
  cbn [unique_cells]. destruct Hc as [<-|Hc].
  - exists c0. split; [now left | apply same_value_refl].
  - destruct (IH c Hc) as [c' [Hin Hs]].
    destruct (same_value c0 c') eqn:E.
    + exists c0. split; [now left|]. now apply same_value_trans with (b := c').
    + exists c'. split; [|exact Hs]. right. apply filter_In. split; [exact Hin|].
      now rewrite E.
Qed.

Lemma insert_by_distinct (leb : cell -> cell -> bool) (x : @cell xq_num) (l : list cell) :
  Forall (fun a => same_value x a = false) l -> distinct l ->
  distinct (insert_by leb x l).
Proof.
  unfold distinct. intros Hx Hl. induction Hl as [|a l Ha Hl IH]; cbn [insert_by].
  - constructor; [constructor | constructor].
  - destruct (leb x a).
    + constructor; [exact Hx|]. now constructor.
    + apply Forall_cons_iff in Hx. destruct Hx as [Hxa Hx].
      constructor; [|now apply IH].
      rewrite Forall_forall in *. intros y Hy. apply In_insert_by in Hy.
      destruct Hy as [->|Hy]; [now rewrite same_value_sym | now apply Ha].
Qed.

Lemma sort_by_distinct (leb : cell -> cell -> bool) (l : list (@cell xq_num)) :
  distinct l -> distinct (sort_by leb l).
Proof.
  unfold distinct. induction 1 as [|a l Ha Hl IH]; cbn [sort_by]; [constructor|].
  apply insert_by_distinct; [|exact IH].
  rewrite Forall_forall in *. intros y Hy. apply In_sort_by in Hy. now apply Ha.
Qed.

Lemma not_ltb_leb (a b : xq) :
  XQ.isnan a = false -> XQ.isnan b = false -> XQ.ltb a b = false -> XQ.leb b a = true.
Proof.
  intros Na Nb L. destruct (XQ.leb a b) eqn:E; [|now apply xq_leb_total].
  unfold XQ.leb in E. rewrite L in E. simpl in E. unfold XQ.leb.
  destruct a as [p| | |], b as [q| | |]; simpl in *; try discriminate; try reflexivity.
  rewrite Qeq_bool_comm, E. apply orb_true_r.
Qed.

(** The row that [idxmax] picks has a year, and none of the rows has a
    later one. *)
Lemma idxmax_max (rows : list row) : forall best r',
  (forall b, best = Some b -> exists yb, year b = CNum yb /\ XQ.isnan yb = false) ->
  idxmax year rows best = Some r' ->
  exists y', year r' = CNum y' /\ XQ.isnan y' = false /\
             (forall b yb, best = Some b -> year b = CNum yb -> XQ.leb yb y' = true) /\
             (forall r y, In r rows -> year r = CNum y -> XQ.isnan y = false ->
                          XQ.leb y y' = true).
Proof.
  induction rows as [|x rest IH]; intros best r' Hb H; cbn [idxmax] in H.
  - subst best. destruct (Hb r' eq_refl) as [y' [E Hy]]. exists y'.
    split; [exact E|]. split; [exact Hy|]. split.
    + intros b yb Eb Ey. injection Eb as <-. rewrite E in Ey. injection Ey as <-.
      destruct y'; try discriminate; simpl; try reflexivity.
      unfold XQ.leb. simpl. rewrite Qeq_bool_refl. apply orb_true_r.
    + intros r y [].
  - assert (Skip : (forall y, year x = CNum y -> XQ.isnan y = true) ->
                   idxmax year rest best = Some r' ->
                   exists y', year r' = CNum y' /\ XQ.isnan y' = false /\
                     (forall b yb, best = Some b -> year b = CNum yb -> XQ.leb yb y' = true) /\
                     (forall r y, In r (x :: rest) -> year r = CNum y ->
                                  XQ.isnan y = false -> XQ.leb y y' = true)).
    { intros Hx H'. destruct (IH best r' Hb H') as (y' & E & Hy & Hbest & Hrows).
      exists y'. repeat split; auto.
      intros r y [<-|Hin] Ey Hn; [|now apply (Hrows r y)].
      rewrite (Hx y Ey) in Hn. discriminate. }
    destruct (year x) as [y|s] eqn:Ex.
    2:{ apply Skip; [intros y Ey; discriminate | exact H]. }
    change (@is_nan xq_num y) with (XQ.isnan y) in H.
    destruct (XQ.isnan y) eqn:Ny.
    { apply Skip; [intros y0 Ey; injection Ey as <-; exact Ny | exact H]. }
    destruct best as [b|].
    + destruct (Hb b eq_refl) as [yb [Eb Nb]]. rewrite Eb in H.
      change (@fltb xq_num yb y) with (XQ.ltb yb y) in H.
      destruct (XQ.ltb yb y) eqn:L.
      * destruct (IH (Some x) r') as (y' & E & Hy & Hbest & Hrows); [|exact H|].
        { intros b' Eb'. injection Eb' as <-. exists y. auto. }
        exists y'. repeat split; auto.
        -- intros b' yb' Eb' Ey'. injection Eb' as <-. rewrite Eb in Ey'.
           injection Ey' as <-.
           apply xq_leb_trans with (b := y); auto.
           ++ unfold XQ.leb. now rewrite L.
           ++ now apply (Hbest x y).
        -- intros r y0 [<-|Hin] Ey Hn; [|now apply (Hrows r y0)].
           rewrite Ex in Ey. injection Ey as <-. now apply (Hbest x y).
      * destruct (IH (Some b) r' Hb H) as (y' & E & Hy & Hbest & Hrows).
        exists y'. repeat split; auto.
        intros r y0 [<-|Hin] Ey Hn; [|now apply (Hrows r y0)].
        rewrite Ex in Ey. injection Ey as <-.
        apply xq_leb_trans with (b := yb); auto.
        -- now apply not_ltb_leb.
        -- now apply (Hbest b yb).
    + destruct (IH (Some x) r') as (y' & E & Hy & Hbest & Hrows); [|exact H|].
      { intros b' Eb'. injection Eb' as <-. exists y. auto. }
      exists y'. repeat split; auto.
      * intros b yb Eb. discriminate.
      * intros r y0 [<-|Hin] Ey Hn; [|now apply (Hrows r y0)].
        rewrite Ex in Ey. injection Ey as <-. now apply (Hbest x y).
Qed.

Lemma collect_all {A} (l : list (outcome A)) : forall rows,
  collect l = Ok rows -> Forall2 (fun o r => o = Ok r) l rows.
Proof.
  induction l as [|[a|e] l IH]; intros rows H; cbn [collect] in H.
  - injection H as <-. constructor.
  - destruct (collect l) as [rows'|e]; [|discriminate]. cbn [bind] in H.
    injection H as <-. constructor; [reflexivity | now apply IH].
  - discriminate.
Qed.

Definition named : list row := filter (fun r => cell_notna (country r)) (trows df).

Definition group (k : cell) : list row :=
  filter (fun r => same_value (country r) k) named.

Lemma same_value_notna (a b : @cell xq_num) :
  same_value a b = true -> cell_notna b = true -> cell_notna a = true.
Proof.
  destruct a as [x|s], b as [y|t]; simpl; try discriminate; try reflexivity.
  destruct x, y; simpl; try discriminate; reflexivity.
Qed.

Lemma Forall2_In_r {A B} (R : A -> B -> Prop) (l : list A) (l' : list B) :
  Forall2 R l l' -> forall b, In b l' -> exists a, In a l /\ R a b.
Proof.
  induction 1 as [|a b l l' H _ IH]; intros x Hx; [destruct Hx|].
  destruct Hx as [<-|Hx]; [exists a; split; [now left | exact H]|].
  destruct (IH x Hx) as [a' [Ha HR]]. exists a'. split; [now right | exact HR].
Qed.

Lemma Forall2_In_l {A B} (R : A -> B -> Prop) (l : list A) (l' : list B) :
  Forall2 R l l' -> forall a, In a l -> exists b, In b l' /\ R a b.
Proof.
  induction 1 as [|a b l l' H _ IH]; intros x Hx; [destruct Hx|].
  destruct Hx as [<-|Hx]; [exists b; split; [now left | exact H]|].
  destruct (IH x Hx) as [b' [Hb HR]]. exists b'. split; [now right | exact HR].
Qed.

(** The rows picked for groups that are distinct are of different
    countries. *)
Lemma picked_rows (groups : list cell) (rows : list row) :
  distinct groups ->
  Forall2 (fun k r => In r (group k)) groups rows ->
  one_per_country rows.
Proof.
  intros Hd H. revert Hd.
  induction H as [|k r' groups rows Hk H IH]; intros Hd; [constructor|].
  inversion Hd as [|? ? Hk' Hd']; subst.
  constructor; [|now apply IH].
  rewrite Forall_forall in *. intros b Hb.
  destruct (Forall2_In_r H b Hb) as [kb [Hkb Hbin]].
  specialize (Hk' kb Hkb). cbv beta in Hk'.
  apply filter_In in Hk, Hbin. destruct Hk as [_ Hk], Hbin as [_ Hbin].
  destruct (same_value (country r') (country b)) eqn:E; [|reflexivity].
  rewrite <- Hk'. symmetry.
  apply same_value_trans with (b := country r'); [now rewrite same_value_sym|].
  now apply same_value_trans with (b := country b).
Qed.

End Latest.

(** X8.  With a country and a year column, [get_latest_data_by_country]
    keeps, when it returns, one row for each country that is named: the
    rows are rows of the data, no two of them are of the same country,
    every named country has its row, and the row that is kept has a year
    that no row of its country exceeds. *)
Theorem get_latest_data_by_country_keeps_latest :
  forall (df latest : @Table xq_num),
    has_column df "country_name" = true ->
    has_column df "year" = true ->
    get_latest_data_by_country df = Ok latest ->
    one_per_country df (trows latest) /\
    (forall r, In r (trows df) -> cell_notna (country df r) = true ->
       exists r', In r' (trows latest) /\
                  same_value (country df r') (country df r) = true) /\
    (forall r', In r' (trows latest) ->
       In r' (trows df) /\
       exists y', year df r' = CNum y' /\ XQ.isnan y' = false /\
         forall r y, In r (trows df) ->
                     same_value (country df r) (country df r') = true ->
                     year df r = CNum y -> XQ.isnan y = false ->
                     XQ.leb y y' = true).
Proof.
  intros df latest Hc Hy. unfold get_latest_data_by_country. rewrite Hc, Hy.
  cbn [negb orb]. rewrite orb_false_r.
  destruct (tempty df) eqn:Em.
  - intros H. injection H as <-.
    assert (trows df = []) as E.
    { unfold tempty in Em. unfold has_column in Hc.
      destruct (trows df); [reflexivity|]. destruct (tcolumns df); [discriminate Hc | discriminate Em]. }
    rewrite E. split; [constructor|]. split; intros ? [].
  - destruct (existsb _ (trows df)); [discriminate|].
    change (filter (fun r => cell_notna (field df "country_name" r)) (trows df))
      with (named df).
    set (groups := sort_by key_leb (unique_cells (map (field df "country_name") (named df)))).
    match goal with
    | |- bind (collect ?l) _ = _ -> _ => destruct (collect l) as [rows|e] eqn:E
    end; [|discriminate].
    cbn [bind]. intros H. injection H as <-. cbn [trows with_rows].
    apply collect_all in E.
    assert (Forall2 (fun k r => idxmax (year df) (group df k) None = Some r) groups rows)
      as Picked.
    { clear -E. revert rows E. induction groups as [|k groups IH]; intros rows E.
      - inversion E. constructor.
      - cbn [map] in E. inversion E as [|? r ? rows' Hk Hrest]; subst.
        constructor; [|now apply IH].
        change (idxmax (field df "year")
                  (filter (fun r => same_value (field df "country_name" r) k) (named df)) None)
          with (idxmax (year df) (group df k) None) in Hk.
        destruct (idxmax (year df) (group df k) None); [congruence | discriminate]. }
    assert (Forall2 (fun k r => In r (group df k)) groups rows) as Members.
    { clear -Picked. induction Picked as [|k r groups rows Hk _ IH]; constructor; [|exact IH].
      apply idxmax_In in Hk. destruct Hk as [Hk|Hk]; [exact Hk | discriminate]. }
    split; [|split].
    + apply picked_rows with (groups := groups); [|exact Members].
      apply sort_by_distinct, unique_cells_distinct.
    + intros r Hr Hn.
      assert (In (country df r) (map (field df "country_name") (named df))) as Hin.
      { apply in_map_iff. exists r. split; [reflexivity|]. apply filter_In. auto. }
      apply unique_cells_covers in Hin. destruct Hin as [k [Hk Hs]].
      assert (In k groups) as Hg by (apply In_sort_by; exact Hk).
      destruct (Forall2_In_l Members k Hg) as [r' [Hr' Hm]].
      exists r'. split; [exact Hr'|]. apply filter_In in Hm. destruct Hm as [_ Hm].
      now apply same_value_trans with (b := k).
    + intros r' Hr'.
      destruct (Forall2_In_r Picked r' Hr') as [k [Hk Hp]].
      pose proof (idxmax_In _ _ _ Hp) as Hin. destruct Hin as [Hin|Hin]; [|discriminate].
      apply filter_In in Hin. destruct Hin as [Hnamed Hsame].
      pose proof Hnamed as Hnamed'. apply filter_In in Hnamed'. destruct Hnamed' as [Hdf Hn].
      split; [exact Hdf|].
      destruct (@idxmax_max df (group df k) None r') as (y' & Ey & Ny & _ & Hmax);
        [intros b Hb; discriminate | exact Hp |].
      exists y'. split; [exact Ey|]. split; [exact Ny|].
      intros r y Hr Hs Eyr Nyr. apply (Hmax r y); auto.
      apply filter_In. split.
      * apply filter_In. split; [exact Hr|]. now apply same_value_notna with (b := country df r').
      * now apply same_value_trans with (b := country df r').
Qed.


End latest_data.

(* ================================================================== *)
(** * The resource scorer                                               *)
(* ================================================================== *)

Module resource_properties.

Import tables utils resource extractor infrastructure resource_pipeline.
Import aggregator_frame aggregator_exact utils_ranges infrastructure_ranges.

Local Open Scope string_scope.

Section AnyArithmetic.

Context {N : Num}.
Variable py_float : string -> option F.

(** The names listed under a kind. *)
Definition names_of (idx : dict (list string)) (kind : string) : list string :=
  match get idx kind with
  | Some names => names
  | None => []
  end.

Lemma build_kind_index_from (items : dict Table) : forall (idx : dict (list string)) kind,
  names_of
    (fold_left
       (fun idx item =>
          let kind := _classify_dataset (snd item) in
          set idx kind
              (match get idx kind with
               | Some names => names ++ [fst item]
               | None => [fst item]
               end)%list)
       items idx) kind
  = (names_of idx kind ++
     map fst (filter (fun item => String.eqb (_classify_dataset (snd item)) kind) items))%list.
Proof.
  induction items as [|[name df] rest IH]; intros idx kind; cbn [fold_left filter map].
  - now rewrite app_nil_r.
  - rewrite IH. cbn [fst snd]. unfold names_of at 1.
    destruct (String.eqb (_classify_dataset df) kind) eqn:E.
    + apply String.eqb_eq in E. subst kind. rewrite get_set_same.
      cbn [map]. unfold names_of.
      destruct (get idx (_classify_dataset df)); cbn [app]; [now rewrite <- app_assoc | reflexivity].
    + rewrite get_set_other.
      * reflexivity.
      * intros ->. rewrite String.eqb_refl in E. discriminate.
Qed.

(** X17.  [_build_kind_index] lists under each kind exactly the datasets
    that [_classify_dataset] assigns to it, in the order in which they
    were loaded; so every dataset stands under one kind and no other. *)
Theorem build_kind_index_partitions :
  forall (datasets : dict Table) (kind : string),
    names_of (_build_kind_index datasets) kind
    = map fst (filter (fun item => String.eqb (_classify_dataset (snd item)) kind) datasets).
Proof.
  intros datasets kind. unfold _build_kind_index.
  rewrite build_kind_index_from. reflexivity.
Qed.

Lemma try_keys_absent (datasets : dict Table) (country column : string) :
  (forall name df, In (name, df) datasets -> has_column df column = false) ->
  forall ks, try_keys py_float datasets country column ks = Ok None.
Proof.
  intros H. induction ks as [|key rest IH]; simpl; [reflexivity|].
  destruct (get datasets key) as [df|] eqn:G; [|exact IH].
  apply get_In in G. rewrite (H _ _ G). exact IH.
Qed.

Lemma scan_all_absent (country column : string) (items : dict Table) :
  (forall name df, In (name, df) items -> has_column df column = false) ->
  scan_all py_float items country column = Ok None.
Proof.
  induction items as [|[key df] rest IH]; intros H; simpl; [reflexivity|].
  rewrite (H key df (or_introl eq_refl)). apply IH. intros; eapply H; right; eauto.
Qed.

Lemma get_metric_absent (datasets : dict Table) (kind_index : dict (list string))
  (country : string) (preferences : list string) (column : string) :
  (forall name df, In (name, df) datasets -> has_column df column = false) ->
  _get_metric_from_kinds py_float datasets kind_index country preferences column
  = Ok None.
Proof.
  intros H. unfold _get_metric_from_kinds.
  assert (try_kinds py_float datasets kind_index country column preferences = Ok None) as ->.
  { induction preferences as [|kind rest IH]; simpl; [reflexivity|].
    now rewrite (@try_keys_absent datasets country column H). }
  now apply scan_all_absent.
Qed.

Lemma extract_requests_absent (datasets : dict Table) (kind_index : dict (list string))
  (country : string) : forall requests,
  (forall name df column, In (name, df) datasets -> In column (map fst requests) ->
                          has_column df column = false) ->
  extract_requests py_float datasets kind_index country requests
  = Ok (map (fun r => (fst r, None)) requests).
Proof.
  induction requests as [|[column preferences] rest IH]; intros H; [reflexivity|].
  cbn [extract_requests].
  rewrite get_metric_absent by (intros name df Hin; apply (H name df column Hin); now left).
  cbn [bind]. rewrite IH by (intros name df c Hin Hc; apply (H name df c Hin); now right).
  reflexivity.
Qed.

End AnyArithmetic.

Section Countries.

Context {N : Num}.
Variable py_str : F -> string.

Lemma insert_by_adjacent (x : string) (l : list string) :
  Sorted (fun a b => String.leb a b = true) l ->
  Sorted (fun a b => String.leb a b = true) (insert_by String.leb x l).
Proof.
  induction 1 as [|a l Hl IH Ha]; cbn [insert_by].
  - constructor; constructor.
  - destruct (String.leb x a) eqn:E.
    + constructor; [now constructor | now constructor].
    + constructor; [exact IH|].
      assert (String.leb a x = true) as Hax
          by (destruct (String.leb_total x a); congruence).
      destruct l as [|b l]; cbn [insert_by]; [now constructor|].
      destruct (String.leb x b); constructor; [exact Hax|].
      now inversion Ha.
Qed.

Lemma sort_by_adjacent (l : list string) :
  Sorted (fun a b => String.leb a b = true) (sort_by String.leb l).
Proof.
  induction l as [|x l IH]; cbn [sort_by]; [constructor|].
  now apply insert_by_adjacent.
Qed.

Lemma unique_cells_keeps_string (s : string) (cs : list cell) :
  In (CStr s) cs -> In (CStr s) (unique_cells cs).
Proof.
  induction cs as [|c rest IH]; intros H; [destruct H|].
  cbn [unique_cells]. destruct H as [->|H]; [now left|].
  destruct (same_value c (CStr s)) eqn:E.
  - left. destruct c as [x|t]; [discriminate|]. cbn [same_value] in E.
    apply String.eqb_eq in E. now subst.
  - right. apply filter_In. split; [now apply IH | now rewrite E].
Qed.

Lemma unique_cells_from (cs : list cell) (c : cell) :
  In c (unique_cells cs) -> In c cs.
Proof.
  revert c. induction cs as [|c0 rest IH]; intros c; cbn [unique_cells]; [tauto|].
  intros [<-|H]; [now left|]. right. apply IH. apply filter_In in H. tauto.
Qed.

(** X18.  [_extract_countries_from_data] returns the standard names of the
    countries of the datasets, in lexicographic order and each one once:
    every name it lists is the standard form, not empty, of a cell that
    is not missing in a country column of a dataset, and the standard
    form of every such cell that holds a string is listed. *)
Theorem extract_countries_sorted_distinct :
  forall (datasets : dict Table),
    let names := _extract_countries_from_data py_str datasets in
    NoDup names /\
    Sorted (fun a b => String.leb a b = true) names /\
    (forall c, In c names ->
       c <> "" /\
       exists name df col r,
         In (name, df) datasets /\ In col COUNTRY_COLS /\ has_column df col = true /\
         In r (trows df) /\ cell_notna (field df col r) = true /\
         standardize_country_name (as_name py_str (field df col r)) = Some c) /\
    (forall name df col r s c,
       In (name, df) datasets -> In col COUNTRY_COLS -> has_column df col = true ->
       In r (trows df) -> field df col r = CStr s ->
       standardize_country_name (VStr s) = Some c -> c <> "" ->
       In c names).
Proof.
  intros datasets names. unfold names, _extract_countries_from_data, sorted_set.
  split; [|split; [|split]].
  - eapply Permutation_NoDup; [symmetry; apply aggregator_calls.sort_by_perm|].
    apply aggregator_exact.NoDup_unique.
  - apply sort_by_adjacent.
  - intros c Hc. apply (proj1 (extractor.In_sort_by _ _ _)) in Hc.
    apply (proj1 (aggregator_exact.In_unique _ _)) in Hc.
    apply in_flat_map in Hc. destruct Hc as [[name df] [Hd Hc]]. cbn [snd] in Hc.
    apply in_flat_map in Hc. destruct Hc as [col [Hcol Hc]].
    destruct (has_column df col) eqn:Hh; [|destruct Hc].
    unfold names_in in Hc. apply in_flat_map in Hc. destruct Hc as [v [Hv Hc]].
    apply unique_cells_from in Hv. apply filter_In in Hv. destruct Hv as [Hv Hn].
    apply in_map_iff in Hv. destruct Hv as [r [<- Hr]].
    destruct (standardize_country_name (as_name py_str (field df col r))) as [std|] eqn:Es;
      [|destruct Hc].
    destruct (String.eqb std "") eqn:Ee; [destruct Hc|].
    destruct Hc as [<-|[]]. split.
    + intros ->. discriminate.
    + exists name, df, col, r. auto 10.
  - intros name df col r s c Hd Hcol Hh Hr Hf Hs Hne.
    apply (proj2 (extractor.In_sort_by _ _ _)). apply (proj2 (aggregator_exact.In_unique _ _)).
    apply in_flat_map. exists (name, df). split; [exact Hd|]. cbn [snd].
    apply in_flat_map. exists col. split; [exact Hcol|]. rewrite Hh.
    unfold names_in. apply in_flat_map. exists (CStr s). split.
    + apply unique_cells_keeps_string. apply filter_In. split; [|reflexivity].
      apply in_map_iff. exists r. auto.
    + cbn [as_name]. rewrite Hs.
      destruct (String.eqb c "") eqn:Ee; [apply String.eqb_eq in Ee; contradiction|].
      now left.
Qed.

End Countries.

Section Exact.

#[local] Existing Instance xq_num.

Local Open Scope Q_scope.

Variable py_str : xq -> string.
Variable py_float : string -> option xq.
Variable log10 : xq -> xq.

Definition feature_names : list string :=
  [ "production_mt"; "proven_reserves_mt"; "r_p_ratio"; "land_mined_share";
    "water_usage_share"; "production_share" ]%string.

Definition fallback_value (country : string) : xq :=
  match get [ ("India", of_Q 70); ("China", of_Q 85); ("Germany", of_Q 45);
              ("USA", of_Q 80); ("Australia", of_Q 90); ("Indonesia", of_Q 75);
              ("South Africa", of_Q 60); ("Poland", of_Q 55) ] country with
  | Some v => v
  | None => of_Q 60
  end.

Lemma fallback_value_bounds (country : string) :
  exists q, fallback_value country = Fin q /\ 45 <= q <= 90.
Proof.
  unfold fallback_value.
  match goal with |- context [get ?t country] => set (table := t) end.
  destruct (get table country) as [v|] eqn:G.
  - apply get_In in G.
    assert (forallb (fun kv : string * xq =>
                       match snd kv with
                       | Fin q => Qle_bool 45 q && Qle_bool q 90
                       | _ => false
                       end) table = true) as H by (vm_compute; reflexivity).
    rewrite forallb_forall in H. specialize (H _ G). cbn [snd] in H.
    destruct v as [q| | |]; try discriminate. apply andb_prop in H. destruct H as [H1 H2].
    apply Qle_bool_iff in H1, H2. exists q. split; [reflexivity | lra].
  - exists 60. split; [reflexivity | lra].
Qed.

Lemma fold_set_in_range (f : string -> xq) :
  (forall c, in_range (f c)) ->
  forall l acc, values_in_range acc ->
                values_in_range (fold_left (fun s c => set s c (f c)) l acc).
Proof.
  intros Hf. induction l as [|x l IH]; intros acc Hacc; [exact Hacc|].
  cbn [fold_left]. apply IH. apply set_in_range; [exact Hacc | apply Hf].
Qed.

Lemma fallback_resource_values (country_list : list string) :
  values_in_range (_fallback_resource_scores country_list).
Proof.
  unfold _fallback_resource_scores. apply (@fold_set_in_range fallback_value).
  - intros c. destruct (fallback_value_bounds c) as [q [E Hq]].
    exists q. split; [exact E | lra].
  - intros ? ? [].
Qed.

Lemma fallback_resource_scored (country_list : list string) (c : string) :
  In c country_list ->
  exists q, get (_fallback_resource_scores country_list) c = Some (Fin q) /\
            45 <= q <= 90.
Proof.
  intros Hc. unfold _fallback_resource_scores.
  destruct country_list as [|x r]; [destruct Hc|].
  refine (let H := proj1 (@get_fold_set _ fallback_value (x :: r) [] c) Hc in _).
  destruct (fallback_value_bounds c) as [q [E Hq]].
  exists q. split; [|exact Hq]. rewrite <- E. exact H.
Qed.

(** X16.  The fallback scores cover the list they are given: every country
    of a list that is not empty gets a score, its entry in the table or
    the default (60 for the resource dimension, 55 for infrastructure),
    and all of them lie well inside [0,100]. *)
Theorem fallback_scores_cover_the_list :
  forall (country_list : list string) (country : string),
    In country country_list ->
    (exists q, get (_fallback_resource_scores country_list) country = Some (Fin q) /\
               45 <= q <= 90) /\
    (exists q, get (_fallback_infrastructure_scores country_list) country = Some (Fin q) /\
               35 <= q <= 80).
Proof.
  intros country_list country H. split.
  - now apply fallback_resource_scored.
  - now apply fallback_infrastructure_scored.
Qed.

Lemma score_each_ranged (datasets : dict Table) (kind_index : dict (list string)) :
  forall country_list scores result,
    values_in_range scores ->
    score_each py_float log10 datasets kind_index country_list scores = Ok result ->
    values_in_range result /\
    forall c, In c country_list \/ has_key scores c = true -> has_key result c = true.
Proof.
  induction country_list as [|country rest IH]; intros scores result Hs H;
    cbn [score_each] in H.
  - injection H as <-. split; [exact Hs|]. intros c [[]|Hc]; exact Hc.
  - destruct (_extract_features_for_country py_float datasets kind_index country)
      as [feats|e]; [|discriminate]. cbn [bind] in H.
    apply IH in H.
    + destruct H as [H1 H2]. split; [exact H1|]. intros c Hc. apply H2.
      rewrite has_key_set. destruct Hc as [[<-|Hc]|Hc]; auto.
      * right. rewrite String.eqb_refl. apply orb_true_r.
      * right. rewrite Hc. reflexivity.
    + apply set_in_range; [exact Hs|]. apply scorer_examples.score_from_features_in_range.
Qed.

(** X19.  Whatever the loaded datasets hold, the resource scores that are
    returned are rationals of [0,100], and every country of the caller's
    list has one: without datasets they are the fallback scores, with
    datasets each is the clamped sum of the components found. *)
Theorem resource_scores_in_range :
  forall (datasets : dict Table) (country_list : list string) (scores : dict xq),
    score_loaded py_str py_float log10 datasets (Some country_list) = Ok scores ->
    values_in_range scores /\
    forall country, In country country_list -> has_key scores country = true.
Proof.
  intros datasets country_list scores. unfold score_loaded.
  destruct datasets as [|item rest].
  - intros H. injection H as <-. split.
    + apply fallback_resource_values.
    + intros country Hin. apply get_has_key.
      destruct (@fallback_resource_scored country_list country Hin) as [q [G _]]. eauto.
  - intros H. apply score_each_ranged in H; [|intros ? ? []].
    destruct H as [H1 H2]. split; [exact H1|]. intros c Hc. apply H2. now left.
Qed.

(** X20.  Datasets that carry none of the six metric columns give every
    country of the list the neutral score 50: the scorer returns, finds
    no feature for anyone, and does not turn to the fallback table, which
    is used only when no dataset was loaded at all. *)
Theorem resource_scores_neutral_without_metrics :
  forall (datasets : dict Table) (country_list : list string),
    datasets <> [] ->
    (forall name df column,
        In (name, df) datasets -> In column feature_names ->
        has_column df column = false) ->
    exists scores,
      score_loaded py_str py_float log10 datasets (Some country_list) = Ok scores /\
      forall country, In country country_list -> get scores country = Some (Fin 50).
Proof.
  intros datasets country_list Hne H. unfold score_loaded.
  destruct datasets as [|item rest] eqn:E; [now destruct Hne|]. rewrite <- E in *.
  assert (forall cl acc,
             score_each py_float log10 datasets (_build_kind_index datasets) cl acc
             = Ok (fold_left (fun s c => set s c (Fin 50)) cl acc)) as Loop.
  { induction cl as [|c cl IH]; intros acc; [reflexivity|].
    cbn [score_each fold_left]. unfold _extract_features_for_country.
    rewrite extract_requests_absent by exact H. cbn [bind].
    change (flat_map _ (map _ feature_requests)) with (@nil (string * xq)).
    change (_score_from_features log10 []) with (Fin 50).
    apply IH. }
  rewrite Loop. eexists. split; [reflexivity|].
  intros country Hin.
  exact (proj1 (@get_fold_set _ (fun _ => Fin 50) country_list [] country) Hin).
Qed.

End Exact.

End resource_properties.

(* ================================================================== *)
(** * The further properties on concrete inputs                         *)
(* ================================================================== *)

Module range_examples.

Import utils utils_properties utils_examples aggregator_exact utils_ranges country_names.

Local Open Scope string_scope.
Local Open Scope Q_scope.

(** X2, witness: 30 on the scale from 0 to 120. *)
Lemma normalize_score_clamps_thirty :
  exists p,
    @normalize_score xq_num (Some (Fin 30)) (Fin 0) (Fin 120) (Fin 50) = Fin p /\
    p == clamp (percent_of 30 0 120).
Proof.
  refine (proj1 (@normalize_score_clamps (Some (Fin 30)) 0 120 (Fin 50) _)).
  intros H. vm_compute in H. discriminate H.
Defined.

(** X4, witness: the entries 0 and 25 of [shares]. *)
Lemma normalize_series_min_max_monotone_shares :
  exists result p q,
    normalize_min_max shares true = Ok result /\
    nth_error result 0 = Some (Fin p) /\
    nth_error result 2 = Some (Fin q) /\
    p <= q.
Proof.
  apply (@normalize_series_min_max_monotone zscore_unused false percentileofscore_unused
           shares true 0%nat 2%nat 0 25).
  - reflexivity.
  - reflexivity.
  - reflexivity.
  - vm_compute. discriminate.
Defined.

(** X5, witness: the least entry of [shares], and a greater one. *)
Lemma normalize_series_min_max_least_shares :
  exists result p,
    normalize_min_max shares false = Ok result /\
    nth_error result 0 = Some (Fin p) /\
    p == 100.
Proof.
  apply (@normalize_series_min_max_least zscore_unused false percentileofscore_unused
           shares false 0%nat 3%nat 0 100).
  - reflexivity.
  - reflexivity.
  - reflexivity.
  - reflexivity.
  - intros k z H.
    do 4 (destruct k as [|k]; [simpl in H; try discriminate H; injection H as <-; lra|]).
    destruct k; discriminate H.
Defined.

(** X6, witness: the canonical name of a lower-case ISO3 code. *)
Lemma standardize_country_name_idempotent_usa :
  standardize_country_name (VStr "United States") = Some "United States".
Proof.
  apply (@standardize_country_name_idempotent (VStr "  usa ") "United States").
  reflexivity.
Defined.

End range_examples.

Module report_examples.

Import fvi_aggregator aggregator_frame aggregator_exact aggregator_examples.
Import fvi_aggregator_queries aggregator_reports.

Local Open Scope string_scope.
Local Open Scope Q_scope.

(** What a call returned, [default] when it raised. *)
Definition returned {A} (default : A) (r : @Result xq_num A) : A :=
  match fst (fst r) with
  | Ok a => a
  | Raise _ => default
  end.

Definition world_after {A} (r : @Result xq_num A) : @World xq_num := snd (fst r).

(** The two countries of the sample with the highest index. *)
Definition top_two : @Result xq_num (@Series xq_num) :=
  get_top_countries 0%nat 2 false sample_world.

(** X11, witness: the two leading countries of the sample. *)
Lemma get_top_countries_leads_ranking_sample :
  exists fvi,
    compute_fvi 0%nat sample_world = (Ok fvi, world_after top_two, snd top_two) /\
    (Forall present fvi ->
     exists ranking,
       Permutation ranking fvi /\
       StronglySorted (fun a b => xq_le (snd b) (snd a)) ranking /\
       returned [] top_two = firstn 2 ranking /\
       List.length (returned [] top_two) = Nat.min 2 (List.length fvi)).
Proof.
  apply (@get_top_countries_leads_ranking 0%nat 2%Z false sample_world
           (world_after top_two) (returned [] top_two) (snd top_two)).
  vm_compute. reflexivity.
Defined.

Definition sample_run : @Result xq_num (@Series xq_num) := compute_fvi 0%nat sample_world.

Definition sample_columns : list string :=
  intersection (map normalize_name (columns sample_data))
               (keys (current_weights (self sample_world))).

(** X10, witness: the sample of the self-test; the copy is the second
    frame of the heap. *)
Lemma compute_fvi_stores_filled_copy_sample :
  exists stored,
    scores_df (self (world_after sample_run)) = Some 1%nat /\
    heap (world_after sample_run) = [sample_data; stored] /\
    index stored = index sample_data /\
    columns stored = map normalize_name (columns sample_data) /\
    (forall c, In c sample_columns ->
       exists s,
         select (rename_columns sample_data) c = [s] /\
         select stored c = [fillna (fill_value s) s] /\
         Forall (fun x => XQ.isnan x = false) (fillna (fill_value s) s)) /\
    (forall c, ~ In c sample_columns ->
       select stored c = select (rename_columns sample_data) c).
Proof.
  apply (@compute_fvi_stores_filled_copy 0%nat sample_world (world_after sample_run)
           sample_data (returned [] sample_run) (snd sample_run)).
  - reflexivity.
  - reflexivity.
  - vm_compute. discriminate.
  - vm_compute. reflexivity.
Defined.

(** X12, witness: the breakdown for India in the sample. *)
Lemma get_dimension_contribution_breakdown_india :
  exists report total used,
    fst (fst (get_dimension_contribution 0%nat "India" sample_world)) = Ok report /\
    get report "_summary"
      = Some (Summary (Fin total) (Fin used) (List.length sample_columns)) /\
    used == Qsum (map (weight (current_weights (self sample_world))) sample_columns) /\
    (0 < used ->
     total == weighted_mean (rename_columns sample_data)
                (current_weights (self sample_world)) sample_columns 0) /\
    (forall c, In c sample_columns ->
       exists pct,
         get report c =
           Some (Contribution
                   (Fin (filled_score (column (rename_columns sample_data) c) 0))
                   (Fin (weight (current_weights (self sample_world)) c))
                   (Fin (filled_score (column (rename_columns sample_data) c) 0
                         * weight (current_weights (self sample_world)) c))
                   (Fin pct))) /\
    (0 < Qsum (map (fun c => filled_score (column (rename_columns sample_data) c) 0
                             * weight (current_weights (self sample_world)) c)
                   sample_columns) ->
     Qsum (percentages report) == 100).
Proof.
  apply (@get_dimension_contribution_breakdown 0%nat sample_world sample_data "India" 0%nat).
  - reflexivity.
  - reflexivity.
  - reflexivity.
  - reflexivity.
  - vm_compute. discriminate.
  - reflexivity.
  - intros c Hc. vm_compute in Hc.
    repeat (destruct Hc as [<-|Hc]; [reflexivity|]). contradiction.
  - vm_compute. intuition discriminate.
Defined.

End report_examples.

Module dimension_examples.

Import tables utils resource extractor infrastructure scorer_examples.
Import aggregator_exact utils_ranges.
Import infrastructure_components infrastructure_ranges.
Import resource_pipeline resource_properties latest_data.

Local Open Scope string_scope.
Local Open Scope Q_scope.

(** X14, witness: one dataset, whose cells are far outside [0,100]. *)
Lemma single_dataset_scores_in_range_hazards :
  exists final,
    infrastructure_components.score_loaded no_number_name no_text_number
      [("hazards", hazards)] ["India"; "China"]
      = Ok final /\
    forall country, In country ["India"; "China"] ->
      exists q, get final country = Some (Fin q) /\ 0 <= q <= 100.
Proof.
  apply (@single_dataset_scores_in_range no_number_name no_text_number "hazards"
           hazards hazards ["India"; "China"]).
  reflexivity.
Defined.

(** A dataset whose score column holds a share and a percentage. *)
Definition exposure : @Table xq_num :=
  {| tcolumns := ["country_name"; "hazard_score"];
     trows := [ [CStr "India"; CNum (Fin 0.4)]; [CStr "China"; CNum (Fin 80)] ] |}.

(** X15, witness: a share and a percentage in the score column. *)
Lemma calculate_scores_for_dataset_in_range_exposure :
  scores_within 0 100 (per_dataset exposure "exposure") /\
  (existsb (fun col => contains "country" (lower col)) (tcolumns exposure) = true ->
   forall country, In country ["India"; "China"] ->
     has_key (per_dataset exposure "exposure") country = true).
Proof.
  apply (@calculate_scores_for_dataset_in_range no_number_name exposure "exposure"
           ["India"; "China"] (per_dataset exposure "exposure")).
  - intros r col Hr Hc Hh.
    repeat (destruct Hr as [<-|Hr]; [|]); try contradiction;
      vm_compute in Hc;
      repeat (destruct Hc as [<-|Hc]; [try discriminate Hh|]); try contradiction;
      right; eexists; (split; [reflexivity | lra]).
  - vm_compute. reflexivity.
Defined.

(** X16, witness: a country that the fallback tables do not know. *)
Lemma fallback_scores_cover_the_list_atlantis :
  (exists q, get (@_fallback_resource_scores xq_num ["India"; "Atlantis"]) "Atlantis"
             = Some (Fin q) /\ 45 <= q <= 90) /\
  (exists q, get (@_fallback_infrastructure_scores xq_num ["India"; "Atlantis"]) "Atlantis"
             = Some (Fin q) /\ 35 <= q <= 80).
Proof.
  apply (@fallback_scores_cover_the_list ["India"; "Atlantis"] "Atlantis").
  right. left. reflexivity.
Defined.

(** The examples need no logarithm to be exact; the identity stands for
    [math.log10]. *)
Definition log10_standin (x : xq) : xq := x.

Definition loaded_scores : outcome (dict xq) :=
  resource_pipeline.score_loaded no_number_name no_text_number log10_standin loaded
    (Some ["USA"; "China"]).

Definition scores_of (o : outcome (dict xq)) : dict xq :=
  match o with
  | Ok d => d
  | Raise _ => []
  end.

(** X19, witness: the two datasets of the extractor's example. *)
Lemma resource_scores_in_range_loaded :
  values_in_range (scores_of loaded_scores) /\
  forall country, In country ["USA"; "China"] ->
    has_key (scores_of loaded_scores) country = true.
Proof.
  apply (@resource_scores_in_range no_number_name no_text_number log10_standin loaded
           ["USA"; "China"] (scores_of loaded_scores)).
  vm_compute. reflexivity.
Defined.

(** X20, witness: a dataset of hazards, which has none of the metric
    columns; India scores 50, not the 70 of the fallback table. *)
Lemma resource_scores_neutral_without_metrics_hazards :
  exists scores,
    resource_pipeline.score_loaded no_number_name no_text_number log10_standin
      [("hazards", hazards)] (Some ["India"]) = Ok scores /\
    forall country, In country ["India"] -> get scores country = Some (Fin 50).
Proof.
  apply (@resource_scores_neutral_without_metrics no_number_name no_text_number
           log10_standin [("hazards", hazards)] ["India"]).
  - discriminate.
  - intros name df column Hd Hc.
    destruct Hd as [Hd|[]]. injection Hd as <- <-.
    repeat (destruct Hc as [<-|Hc]; [reflexivity|]). contradiction.
Defined.

(** Three rows of two countries. *)
Definition yearly : @Table xq_num :=
  {| tcolumns := ["country_name"; "year"; "capacity"];
     trows :=
       [ [CStr "India"; CNum (Fin 2019); CNum (Fin 10)];
         [CStr "China"; CNum (Fin 2020); CNum (Fin 30)];
         [CStr "India"; CNum (Fin 2021); CNum (Fin 12)] ] |}.

Definition yearly_latest : @Table xq_num :=
  {| tcolumns := ["country_name"; "year"; "capacity"];
     trows :=
       [ [CStr "China"; CNum (Fin 2020); CNum (Fin 30)];
         [CStr "India"; CNum (Fin 2021); CNum (Fin 12)] ] |}.

(** X8, witness: India has two years, China one. *)
Lemma get_latest_data_by_country_keeps_latest_yearly :
  one_per_country yearly (trows yearly_latest) /\
  (forall r, In r (trows yearly) -> cell_notna (country yearly r) = true ->
     exists r', In r' (trows yearly_latest) /\
                same_value (country yearly r') (country yearly r) = true) /\
  (forall r', In r' (trows yearly_latest) ->
     In r' (trows yearly) /\
     exists y', year yearly r' = CNum y' /\ XQ.isnan y' = false /\
       forall r y, In r (trows yearly) ->
                   same_value (country yearly r) (country yearly r') = true ->
                   year yearly r = CNum y -> XQ.isnan y = false ->
                   XQ.leb y y' = true).
Proof.
  apply (@get_latest_data_by_country_keeps_latest yearly yearly_latest);
    reflexivity.
Defined.

End dimension_examples.

Module mapping_examples.

Import tables utils utils_mapping mapping_properties.

Local Open Scope string_scope.

(** Names as a data file spells them. *)
Definition spelled : @Table xq_num :=
  {| tcolumns := ["Country"; "capacity"];
     trows :=
       [ [CStr "usa"; CNum (Fin 1)]; [CStr "china"; CNum (Fin 2)];
         [CStr "Atlantis"; CNum (Fin 3)]; [CStr "usa"; CNum (Fin 4)] ] |}.

Definition spelled_mapping : dict string :=
  [("usa", "United States"); ("china", "China")].

(** X21, witness: "usa" is mapped as an ISO3 code, "china" by its
    lower-case form, "Atlantis" not at all. *)
Lemma create_country_mapping_matches_spelled :
  (forall data_country target_country,
      get spelled_mapping data_country = Some target_country ->
      In target_country ["United States"; "China"] /\
      matches data_country target_country /\
      first_target data_country ["United States"; "China"] = Some target_country /\
      exists country_col r,
        find (fun col => contains "country" (lower col)) (tcolumns spelled)
          = Some country_col /\
        In r (trows spelled) /\ field spelled country_col r = CStr data_country) /\
  (forall country_col r data_country target_country,
      find (fun col => contains "country" (lower col)) (tcolumns spelled)
        = Some country_col ->
      In r (trows spelled) -> field spelled country_col r = CStr data_country ->
      In target_country ["United States"; "China"] ->
      matches data_country target_country ->
      has_key spelled_mapping data_country = true).
Proof.
  apply (@create_country_mapping_matches xq_num spelled ["United States"; "China"]
           spelled_mapping).
  reflexivity.
Defined.

End mapping_examples.
